(** * libbyztime: stamp arithmetic, the timedata region, provider and consumer

    A shallow embedding of the C sources of libbyztime
    (byztime_stamp.c, byztime_common.c, byztime_provider.c,
    byztime_consumer.c, byztime_internal.h) and the properties of the
    shared-memory protocol and of the time estimation built on it.

    Conventions.
    - An [int64_t] is a [Z]; a checked operation ([__builtin_*_overflow])
      returns the wrapped value and the overflow flag, an unchecked one
      the wrapped value.
    - A C function returning 0 / -1 with [errno] returns a [result];
      the functions of byztime_stamp.c, which also hand back the wrapped
      value on overflow, return the value and the overflow flag.
    - The mapped region is a record that is passed to every call: the
      provider and the consumers share it, and it changes between calls.
    - What the host decides (clock readings, return codes of the pthread
      calls, a bus error on the mapping) is an argument of the call. *)

From Stdlib Require Import ZArith Lia Bool List.
From stdpp Require Import base numbers list.

Local Open Scope Z_scope.

(** ** 64-bit and 32-bit integers *)

Module Int64.

Definition INT64_MAX : Z := 2 ^ 63 - 1.
Definition INT64_MIN : Z := - 2 ^ 63.

Definition in_range (z : Z) : bool :=
  (INT64_MIN <=? z) && (z <=? INT64_MAX).

(** Two's-complement wrap-around to 64 bits. *)
Definition wrap (z : Z) : Z := (z + 2 ^ 63) mod 2 ^ 64 - 2 ^ 63.

(** [__builtin_add_overflow], [__builtin_sub_overflow] and
    [__builtin_mul_overflow] at type [int64_t]: the wrapped result and
    whether the exact result did not fit. *)
Definition add_overflow (a b : Z) : Z * bool :=
  (wrap (a + b), negb (in_range (a + b))).

Definition sub_overflow (a b : Z) : Z * bool :=
  (wrap (a - b), negb (in_range (a - b))).

Definition mul_overflow (a b : Z) : Z * bool :=
  (wrap (a * b), negb (in_range (a * b))).

(** Conversions between [int] and [unsigned int] (32 bits). *)
Definition to_uint32 (z : Z) : Z := z mod 2 ^ 32.
Definition to_int32 (z : Z) : Z := (z + 2 ^ 31) mod 2 ^ 32 - 2 ^ 31.

End Int64.

(** ** Constants of byztime_internal.h *)

Definition billion : Z := 1000000000.
Definition default_drift_ppb : Z := 250000.
Definition NUM_ENTRIES : Z := 62.
Definition BYZTIME_MAGIC_LEN : Z := 12.
Definition BYZTIME_ERA_LEN : Z := 16.

(** 'B' 'Y' 'Z' 'T' 'I' 'M' 'E' 0x00 0xff 0xff 0xff 0xff *)
Definition expected_magic : list Z :=
  [66; 89; 90; 84; 73; 77; 69; 0; 255; 255; 255; 255].

(** The error numbers the library sets, with their Linux values (the
    implementation is Linux-specific); other values of [errno] come from
    the host. *)
Definition ERANGE : Z := 34.
Definition EPROTO : Z := 71.
Definition EOVERFLOW : Z := 75.
Definition ECONNREFUSED : Z := 111.
Definition ENOMEM : Z := 12.

Inductive result (A : Type) : Type :=
| Ok (a : A)
| Err (errno : Z).
Arguments Ok {A} a.
Arguments Err {A} errno.

(** ** byztime_stamp.c *)

Record byztime_stamp : Type := mk_stamp {
  seconds : Z;
  nanoseconds : Z
}.

Definition zerostamp : byztime_stamp := mk_stamp 0 0.

(** [byztime_stamp_normalize]: the stamp after the call and whether the
    call returned -1 (EOVERFLOW). *)
Definition byztime_stamp_normalize (stamp : byztime_stamp)
  : byztime_stamp * bool :=
  if (0 <=? nanoseconds stamp) && (nanoseconds stamp <? billion) then
    (stamp, false)
  else
    let nsec_div := Z.quot (nanoseconds stamp) billion in
    let nsec_mod := Z.rem (nanoseconds stamp) billion in
    let '(sec1, overflowed) := Int64.add_overflow (seconds stamp) nsec_div in
    if nsec_mod <? 0 then
      let '(sec2, overflowed2) := Int64.sub_overflow sec1 1 in
      (mk_stamp sec2 (nsec_mod + billion), overflowed || overflowed2)
    else
      (mk_stamp sec1 nsec_mod, overflowed).

Definition byztime_stamp_add (stamp1 stamp2 : byztime_stamp)
  : byztime_stamp * bool :=
  let '(s1, o1) := byztime_stamp_normalize stamp1 in
  let '(s2, o2) := byztime_stamp_normalize stamp2 in
  let '(sec, o3) := Int64.add_overflow (seconds s1) (seconds s2) in
  let nsec := Int64.wrap (nanoseconds s1 + nanoseconds s2) in
  let '(sum, o4) := byztime_stamp_normalize (mk_stamp sec nsec) in
  (sum, o1 || o2 || o3 || o4).

Definition byztime_stamp_sub (stamp1 stamp2 : byztime_stamp)
  : byztime_stamp * bool :=
  let '(s1, o1) := byztime_stamp_normalize stamp1 in
  let '(s2, o2) := byztime_stamp_normalize stamp2 in
  let '(sec, o3) := Int64.sub_overflow (seconds s1) (seconds s2) in
  let nsec := Int64.wrap (nanoseconds s1 - nanoseconds s2) in
  let '(diff, o4) := byztime_stamp_normalize (mk_stamp sec nsec) in
  (diff, o1 || o2 || o3 || o4).

(** The +/- 1 adjustment that rounds the discarded attoseconds half to
    even; shared by the two scaling functions. *)
Definition round_residue (nsec residue : Z) : Z :=
  let half := Z.shiftr billion 1 in
  if (half <? residue) || ((residue =? half) && negb (Z.land nsec 1 =? 0))
  then Int64.wrap (nsec + 1)
  else if (residue <? - half)
          || ((residue =? - half) && negb (Z.land nsec 1 =? 0))
  then Int64.wrap (nsec - 1)
  else nsec.

(** [byztime_stamp_downscale], for [0 <= ppb <= billion]. [None] is an
    assertion failure ([assert (nanoparts >= 0 && nanoparts <= billion)]
    or the [assert (false)] after the last normalization), which aborts
    the process. *)
Definition byztime_stamp_downscale (stamp : byztime_stamp) (ppb : Z)
  : option (byztime_stamp * bool) :=
  let '(s, overflowed) := byztime_stamp_normalize stamp in
  let gigaseconds_in := Z.quot (seconds s) billion in
  let seconds_in := Z.rem (seconds s) billion in
  let nanoseconds_in := nanoseconds s in
  let nanoparts := ppb in
  if negb ((0 <=? nanoparts) && (nanoparts <=? billion)) then None
  else
    let seconds_out := Int64.wrap (gigaseconds_in * nanoparts) in
    let nanoseconds_out := Int64.wrap (seconds_in * nanoparts) in
    let attoseconds_out := Int64.wrap (nanoseconds_in * nanoparts) in
    let nsec :=
      Int64.wrap (nanoseconds_out + Z.quot attoseconds_out billion) in
    let residue := Z.rem attoseconds_out billion in
    let '(prod, o) :=
      byztime_stamp_normalize
        (mk_stamp seconds_out (round_residue nsec residue)) in
    if o then None else Some (prod, overflowed).

(** [byztime_stamp_scale]: schoolbook multiplication of the places
    (gigaseconds, seconds, nanoseconds) by the places (parts, nanoparts). *)
Definition byztime_stamp_scale (stamp : byztime_stamp) (ppb : Z)
  : option (byztime_stamp * bool) :=
  if (0 <=? ppb) && (ppb <=? billion) then byztime_stamp_downscale stamp ppb
  else
    let '(s, o0) := byztime_stamp_normalize stamp in
    let gigaseconds_in := Z.quot (seconds s) billion in
    let seconds_in := Z.rem (seconds s) billion in
    let nanoseconds_in := nanoseconds s in
    let parts := Z.quot ppb billion in
    let nanoparts := Z.rem ppb billion in
    let '(gigaseconds_out, o1) := Int64.mul_overflow gigaseconds_in parts in
    let seconds_out_1 := Int64.wrap (seconds_in * parts) in
    let seconds_out_2 := Int64.wrap (gigaseconds_in * nanoparts) in
    let nanoseconds_out_1 := Int64.wrap (seconds_in * nanoparts) in
    let nanoseconds_out_2 := Int64.wrap (nanoseconds_in * parts) in
    let attoseconds_out := Int64.wrap (nanoseconds_in * nanoparts) in
    let '(sec_a, o2) := Int64.mul_overflow gigaseconds_out billion in
    let '(sec_b, o3) := Int64.add_overflow sec_a seconds_out_1 in
    let '(sec_c, o4) := Int64.add_overflow sec_b seconds_out_2 in
    let '(p1, o5) := byztime_stamp_normalize (mk_stamp sec_c nanoseconds_out_2) in
    let nsec :=
      Int64.wrap (nanoseconds p1
                  + Int64.wrap (Z.quot attoseconds_out billion
                                + nanoseconds_out_1)) in
    let residue := Z.rem attoseconds_out billion in
    let '(prod, o6) :=
      byztime_stamp_normalize
        (mk_stamp (seconds p1) (round_residue nsec residue)) in
    Some (prod, o0 || o1 || o2 || o3 || o4 || o5 || o6).

(** [byztime_stamp_cmp]: -1, 0 or 1 on the normalized copies; an overflow
    of the normalization goes unreported. *)
Definition byztime_stamp_cmp (stamp1 stamp2 : byztime_stamp) : Z :=
  let s1 := fst (byztime_stamp_normalize stamp1) in
  let s2 := fst (byztime_stamp_normalize stamp2) in
  if seconds s1 <? seconds s2 then -1
  else if seconds s2 <? seconds s1 then 1
  else if nanoseconds s1 <? nanoseconds s2 then -1
  else if nanoseconds s2 <? nanoseconds s1 then 1
  else 0.


(** ** byztime_internal.h: the timedata region *)

Record timedata_entry : Type := mk_entry {
  offset : byztime_stamp;
  error : byztime_stamp;
  as_of : byztime_stamp
}.

(** The 4096-byte region: [td_magic] and [td_era] are the arrays of
    [atomic_int] words, [td_i] the atomic index, [td_entries] the ring.
    Of the mutex only whether [pthread_mutex_init] has run is kept. The
    fields carry the prefix [td_] since the source calls the index [i]. *)
Record timedata : Type := mk_timedata {
  td_magic : list Z;
  td_i : Z;
  td_era : list Z;
  td_real_offset : byztime_stamp;
  td_mutex : bool;
  td_entries : list timedata_entry
}.

Definition zero_entry : timedata_entry :=
  mk_entry zerostamp zerostamp zerostamp.

#[global] Instance timedata_entry_inhabited : Inhabited timedata_entry :=
  populate zero_entry.

(** A region as [posix_fallocate] leaves a new file: all zero. *)
Definition zero_timedata : timedata :=
  mk_timedata [0; 0; 0] 0 [0; 0; 0; 0] zerostamp false
              (replicate (Z.to_nat NUM_ENTRIES) zero_entry).

(** [entries[k]] of the region. The callers below index it only after a
    bounds check; outside the ring the model reads a zero entry. *)
Definition entry_at (td : timedata) (k : Z) : timedata_entry :=
  td_entries td !!! Z.to_nat k.

(** The bytes of a word, least significant first, as [load_era] and
    [load_magic] take them apart. *)
Definition word_bytes (w : Z) : list Z :=
  let word := Int64.to_uint32 w in
  [ Z.land word 255;
    Z.land (Z.shiftr word 8) 255;
    Z.land (Z.shiftr word 16) 255;
    Z.land (Z.shiftr word 24) 255 ].

Definition load_era (words : list Z) : list Z := flat_map word_bytes words.
Definition load_magic (words : list Z) : list Z := flat_map word_bytes words.

(** The word [store_era] and [store_magic] build from four bytes. *)
Definition bytes_word (b0 b1 b2 b3 : Z) : Z :=
  let word :=
    Int64.to_uint32
      (Z.lor (Z.lor (Z.lor b0 (Int64.to_uint32 (Z.shiftl b1 8)))
                    (Int64.to_uint32 (Z.shiftl b2 16)))
             (Int64.to_uint32 (Z.shiftl b3 24))) in
  Int64.to_int32 word.

Fixpoint bytes_words (bytes : list Z) : list Z :=
  match bytes with
  | b0 :: b1 :: b2 :: b3 :: rest => bytes_word b0 b1 b2 b3 :: bytes_words rest
  | _ => []
  end.

(** [memcmp (a, b, n) == 0] on two buffers of the same length. *)
Fixpoint bytes_eqb (a b : list Z) : bool :=
  match a, b with
  | [], [] => true
  | x :: a', y :: b' => (x =? y) && bytes_eqb a' b'
  | _, _ => false
  end.

(** The stores a writer makes to the region, in program order. *)
Inductive store : Type :=
| St_real_offset (s : byztime_stamp)
| St_entry (k : Z) (e : timedata_entry)
| St_i (v : Z)
| St_era (k : nat) (w : Z)
| St_magic (k : nat) (w : Z)
| St_mutex_init.

Definition apply_store (td : timedata) (st : store) : timedata :=
  match st with
  | St_real_offset s =>
      mk_timedata (td_magic td) (td_i td) (td_era td) s (td_mutex td)
                  (td_entries td)
  | St_entry k e =>
      mk_timedata (td_magic td) (td_i td) (td_era td) (td_real_offset td)
                  (td_mutex td) (<[Z.to_nat k := e]> (td_entries td))
  | St_i v =>
      mk_timedata (td_magic td) v (td_era td) (td_real_offset td)
                  (td_mutex td) (td_entries td)
  | St_era k w =>
      mk_timedata (td_magic td) (td_i td) (<[k := w]> (td_era td))
                  (td_real_offset td) (td_mutex td) (td_entries td)
  | St_magic k w =>
      mk_timedata (<[k := w]> (td_magic td)) (td_i td) (td_era td)
                  (td_real_offset td) (td_mutex td) (td_entries td)
  | St_mutex_init =>
      mk_timedata (td_magic td) (td_i td) (td_era td) (td_real_offset td)
                  true (td_entries td)
  end.

Definition apply_stores (td : timedata) (log : list store) : timedata :=
  fold_left apply_store log td.

Definition store_era (bytes : list Z) : list store :=
  imap (fun k w => St_era k w) (bytes_words bytes).

Definition store_magic (bytes : list Z) : list store :=
  imap (fun k w => St_magic k w) (bytes_words bytes).

(** ** byztime_common.c: the clocks *)

(** What [clock_gettime] hands back: [tv_sec] and [tv_nsec], or its
    [errno]. *)
Definition clock_reading : Type := result (Z * Z).

Definition read_clock (c : clock_reading) : result byztime_stamp :=
  match c with
  | Err e => Err e
  | Ok (tv_sec, tv_nsec) =>
      let '(t, overflowed) := byztime_stamp_normalize (mk_stamp tv_sec tv_nsec) in
      if overflowed then Err EOVERFLOW else Ok t
  end.

(** [byztime_get_local_time] reads CLOCK_MONOTONIC_RAW and
    [byztime_get_real_time] CLOCK_REALTIME; both normalize the reading. *)
Definition byztime_get_local_time (monotonic_raw : clock_reading)
  : result byztime_stamp := read_clock monotonic_raw.

Definition byztime_get_real_time (realtime : clock_reading)
  : result byztime_stamp := read_clock realtime.

(** ** The context *)

Record byztime_ctx : Type := mk_ctx {
  fd : Z;
  lock_fd : Z;
  drift_ppb : Z;
  min_rate_ppb : Z;
  max_rate_ppb : Z;
  prev_local_time : byztime_stamp;
  prev_offset : byztime_stamp;
  slew_mode : bool;
  slew_have_prev : bool
}.

(** ** byztime_consumer.c *)

(** A call either returns with a value, returns -1 with [errno], or dies
    on an assertion. *)
Inductive outcome (A : Type) : Type :=
| Returned (a : A)
| Failed (errno : Z)
| Aborted.
Arguments Returned {A} a.
Arguments Failed {A} errno.
Arguments Aborted {A}.

(** Sequencing as the chains of [f (...) < 0 || g (...) < 0 || ...] do it:
    the first call that does not return 0 ends the chain. *)
#[global] Instance outcome_bind : MBind outcome :=
  fun A B (k : A -> outcome B) (m : outcome A) =>
    match m with
    | Returned a => k a
    | Failed e => Failed e
    | Aborted => Aborted
    end.

Definition of_result {A : Type} (r : result A) : outcome A :=
  match r with
  | Ok a => Returned a
  | Err e => Failed e
  end.

(** A stamp operation used as [op (...) < 0 ||]: the value when it
    returned 0, EOVERFLOW otherwise. *)
Definition checked (r : byztime_stamp * bool) : outcome byztime_stamp :=
  if snd r then Failed EOVERFLOW else Returned (fst r).

Definition checked_scale (r : option (byztime_stamp * bool))
  : outcome byztime_stamp :=
  match r with
  | None => Aborted
  | Some p => checked p
  end.

(** What the host decides during one read of the region: the return
    code of [pthread_setspecific (sigbus_key, &jmpbuf)], whether touching
    the mapping raises a bus error that [byztime_handle_sigbus] turns
    into a [siglongjmp], and the reading of CLOCK_MONOTONIC_RAW. *)
Record read_host : Type := mk_read_host {
  setspecific_ret : Z;
  page_fault : bool;
  monotonic_raw : clock_reading
}.

Definition nanoseconds_valid (s : byztime_stamp) : bool :=
  (0 <=? nanoseconds s) && (nanoseconds s <? billion).

Definition get_and_validate_entry (h : read_host) (td : timedata)
  : result timedata_entry :=
  if negb (setspecific_ret h =? 0) then Err (setspecific_ret h)
  else if page_fault h then Err EPROTO
  else
    let i := td_i td in
    if (i <? 0) || (NUM_ENTRIES <=? i) then Err EPROTO
    else
      let entry := entry_at td i in
      if negb (nanoseconds_valid (offset entry))
         || negb (nanoseconds_valid (error entry))
         || negb (nanoseconds_valid (as_of entry))
      then Err EPROTO
      else Ok entry.

Definition byztime_set_drift (ctx : byztime_ctx) (drift : Z) : byztime_ctx :=
  mk_ctx (fd ctx) (lock_fd ctx) drift (min_rate_ppb ctx) (max_rate_ppb ctx)
         (prev_local_time ctx) (prev_offset ctx) (slew_mode ctx)
         (slew_have_prev ctx).

Definition byztime_get_drift (ctx : byztime_ctx) : Z := drift_ppb ctx.

(** [byztime_slew]; [maxerror = None] is the NULL pointer. *)
Definition byztime_slew (h : read_host) (td : timedata) (ctx : byztime_ctx)
    (min_rate max_rate : Z) (maxerror : option byztime_stamp)
  : byztime_ctx * result unit :=
  match get_and_validate_entry h td with
  | Err e => (ctx, Err e)
  | Ok entry =>
      let too_wide :=
        match maxerror with
        | None => false
        | Some m => 0 <? byztime_stamp_cmp (error entry) m
        end in
      if too_wide then (ctx, Err ERANGE)
      else
        (mk_ctx (fd ctx) (lock_fd ctx) (drift_ppb ctx) min_rate max_rate
                (prev_local_time ctx) (prev_offset ctx) true false,
         Ok tt)
  end.

Definition byztime_step (ctx : byztime_ctx) : byztime_ctx * result unit :=
  (mk_ctx (fd ctx) (lock_fd ctx) (drift_ppb ctx) (min_rate_ppb ctx)
          (max_rate_ppb ctx) (prev_local_time ctx) (prev_offset ctx)
          false (slew_have_prev ctx),
   Ok tt).

(** The estimate in slew mode when a previous read is recorded: lines
    287-328 of [byztime_get_local_time_and_offset]. The upper bound is
    computed and compared only when [max_rate_ppb < INT64_MAX]. *)
Definition slew_estimate (ctx : byztime_ctx) (my_local_time : byztime_stamp)
    (entry : timedata_entry) : outcome byztime_stamp :=
  local_time_since_prev ←
    checked (byztime_stamp_sub my_local_time (prev_local_time ctx));
  offset_adj_since_prev ←
    checked (byztime_stamp_sub (offset entry) (prev_offset ctx));
  global_time_since_prev ←
    checked (byztime_stamp_add local_time_since_prev offset_adj_since_prev);
  min_global_time_since_prev ←
    checked_scale
      (byztime_stamp_scale global_time_since_prev (min_rate_ppb ctx));
  max_global_time_since_prev ←
    (if max_rate_ppb ctx <? Int64.INT64_MAX then
       m ← checked_scale
              (byztime_stamp_scale global_time_since_prev (max_rate_ppb ctx));
       Returned (Some m)
     else Returned None);
  if byztime_stamp_cmp global_time_since_prev min_global_time_since_prev <? 0
  then
    shortfall_global_time_since_prev ←
      checked (byztime_stamp_sub min_global_time_since_prev
                                 global_time_since_prev);
    checked (byztime_stamp_add (offset entry)
                               shortfall_global_time_since_prev)
  else
    match max_global_time_since_prev with
    | Some max_g =>
        if 0 <? byztime_stamp_cmp global_time_since_prev max_g then
          excess_global_time_since_prev ←
            checked (byztime_stamp_sub global_time_since_prev max_g);
          checked (byztime_stamp_sub (offset entry)
                                     excess_global_time_since_prev)
        else Returned (offset entry)
    | None => Returned (offset entry)
    end.

(** The values a read hands back through its output pointers. *)
Record reading : Type := mk_reading {
  r_local_time : byztime_stamp;
  r_min : byztime_stamp;
  r_est : byztime_stamp;
  r_max : byztime_stamp
}.

(** Lines 270-283: the entry, the local time and the error bounds. *)
Definition entry_and_bounds (h : read_host) (td : timedata)
    (drift_ppb_x2 : Z)
  : outcome (timedata_entry * byztime_stamp * byztime_stamp * byztime_stamp) :=
  entry ← of_result (get_and_validate_entry h td);
  my_local_time ← of_result (byztime_get_local_time (monotonic_raw h));
  age ← checked (byztime_stamp_sub my_local_time (as_of entry));
  scaled_age ← checked_scale (byztime_stamp_scale age drift_ppb_x2);
  error_now ← checked (byztime_stamp_add (error entry) scaled_age);
  my_min ← checked (byztime_stamp_sub (offset entry) error_now);
  my_max ← checked (byztime_stamp_add (offset entry) error_now);
  Returned (entry, my_local_time, my_min, my_max).

Definition byztime_get_local_time_and_offset (h : read_host) (td : timedata)
    (ctx : byztime_ctx) : byztime_ctx * outcome reading :=
  let '(drift_ppb_x2, o) := Int64.mul_overflow (drift_ppb ctx) 2 in
  if o then (ctx, Failed EOVERFLOW)
  else
    match entry_and_bounds h td drift_ppb_x2 with
    | Failed e => (ctx, Failed e)
    | Aborted => (ctx, Aborted)
    | Returned (entry, my_local_time, my_min, my_max) =>
        if slew_mode ctx then
          let est :=
            if slew_have_prev ctx then slew_estimate ctx my_local_time entry
            else Returned (offset entry) in
          match est with
          | Failed e => (ctx, Failed e)
          | Aborted => (ctx, Aborted)
          | Returned my_est =>
              (mk_ctx (fd ctx) (lock_fd ctx) (drift_ppb ctx)
                      (min_rate_ppb ctx) (max_rate_ppb ctx)
                      my_local_time my_est true true,
               Returned (mk_reading my_local_time my_min my_est my_max))
          end
        else
          (ctx, Returned (mk_reading my_local_time my_min (offset entry) my_max))
    end.

Definition byztime_get_offset (h : read_host) (td : timedata)
    (ctx : byztime_ctx) : byztime_ctx * outcome reading :=
  byztime_get_local_time_and_offset h td ctx.

Definition byztime_get_global_time (h : read_host) (td : timedata)
    (ctx : byztime_ctx) : byztime_ctx * outcome reading :=
  let '(ctx', r) := byztime_get_local_time_and_offset h td ctx in
  (ctx',
   rd ← r;
   my_min ← checked (byztime_stamp_add (r_min rd) (r_local_time rd));
   my_est ← checked (byztime_stamp_add (r_est rd) (r_local_time rd));
   my_max ← checked (byztime_stamp_add (r_max rd) (r_local_time rd));
   Returned (mk_reading (r_local_time rd) my_min my_est my_max)).

(** What the host decides during [byztime_open_ro]: the outcome of
    [byztime_init_sigbus_key] (0 or an [errno]), the clock era, the
    block [malloc] returns with its indeterminate contents, the
    descriptor of [open], the [st_size] of [fstat], the return of [mmap]
    (0 or an [errno]), and the recovery scope as in [read_host]. *)
Record open_ro_host : Type := mk_open_ro_host {
  ro_init_sigbus_key : Z;
  ro_clock_era : result (list Z);
  ro_malloc : option byztime_ctx;
  ro_open : result Z;
  ro_fstat : result Z;
  ro_mmap : Z;
  ro_setspecific_ret : Z;
  ro_page_fault : bool
}.

Definition sizeof_timedata : Z := 4096.

Definition byztime_open_ro (h : open_ro_host) (td : timedata)
  : result byztime_ctx :=
  if negb (ro_init_sigbus_key h =? 0) then Err (ro_init_sigbus_key h)
  else
    match ro_clock_era h with
    | Err e => Err e
    | Ok expected_era =>
        match ro_malloc h with
        | None => Err ENOMEM
        | Some ctx0 =>
            match ro_open h with
            | Err e => Err e
            | Ok fd_ =>
                match ro_fstat h with
                | Err e => Err e
                | Ok st_size =>
                    if st_size <? sizeof_timedata then Err EPROTO
                    else if negb (ro_mmap h =? 0) then Err (ro_mmap h)
                    else if negb (ro_setspecific_ret h =? 0)
                    then Err (ro_setspecific_ret h)
                    else if ro_page_fault h then Err EPROTO
                    else if negb (bytes_eqb (load_magic (td_magic td))
                                            expected_magic)
                    then Err EPROTO
                    else if negb (bytes_eqb (load_era (td_era td))
                                            expected_era)
                    then Err ECONNREFUSED
                    else
                      Ok (mk_ctx fd_ (-1) default_drift_ppb
                                 (min_rate_ppb ctx0) (max_rate_ppb ctx0)
                                 (prev_local_time ctx0) (prev_offset ctx0)
                                 false (slew_have_prev ctx0))
                end
            end
        end
    end.

(** ** byztime_provider.c *)

(** What the host decides during [byztime_open_rw]; [rw_acquire_lock] is
    the descriptor [acquire_lock] returns (realpath, open and flock of
    the sidecar file), [rw_fallocate] the return of [posix_fallocate],
    the last three the returns of the [pthread_mutexattr_*] and
    [pthread_mutex_init] calls. *)
Record open_rw_host : Type := mk_open_rw_host {
  rw_init_sigbus_key : Z;
  rw_clock_era : result (list Z);
  rw_malloc : option byztime_ctx;
  rw_open : result Z;
  rw_acquire_lock : result Z;
  rw_fallocate : Z;
  rw_mmap : Z;
  rw_monotonic_raw : clock_reading;
  rw_realtime : clock_reading;
  rw_mutexattr_init : Z;
  rw_mutexattr_setpshared : Z;
  rw_mutex_init : Z
}.

(** [(byztime_stamp){INT64_MAX >> 1, 0}] *)
Definition unknown_error : byztime_stamp :=
  mk_stamp (Z.shiftr Int64.INT64_MAX 1) 0.

(** First-time initialization, lines 115-133: the stores made and
    whether the block ran to its end. *)
Definition first_time_init (h : open_rw_host) (expected_era : list Z)
  : list store * result unit :=
  let zeroed := [St_real_offset (mk_stamp 0 0)] in
  match byztime_get_local_time (rw_monotonic_raw h) with
  | Err e => (zeroed, Err e)
  | Ok local_time =>
      match byztime_get_real_time (rw_realtime h) with
      | Err e => (zeroed, Err e)
      | Ok real_time =>
          let '(entry_offset, o) := byztime_stamp_sub real_time local_time in
          if o then (zeroed, Err EOVERFLOW)
          else
            let entry := mk_entry entry_offset unknown_error local_time in
            (zeroed ++ [St_entry 0 entry; St_i 0]
               ++ store_era expected_era ++ store_magic expected_magic,
             Ok tt)
      end
  end.

(** Re-initialization after a reboot, lines 137-154. *)
Definition reboot_init (h : open_rw_host) (td : timedata)
    (expected_era : list Z) : list store * result unit :=
  match byztime_get_local_time (rw_monotonic_raw h) with
  | Err e => ([], Err e)
  | Ok local_time =>
      match byztime_get_real_time (rw_realtime h) with
      | Err e => ([], Err e)
      | Ok real_time =>
          let '(global_time, o1) :=
            byztime_stamp_add real_time (td_real_offset td) in
          if o1 then ([], Err EOVERFLOW)
          else
            let '(entry_offset, o2) :=
              byztime_stamp_sub global_time local_time in
            if o2 then ([], Err EOVERFLOW)
            else
              let entry := mk_entry entry_offset unknown_error local_time in
              ([St_entry 0 entry; St_i 0] ++ store_era expected_era, Ok tt)
      end
  end.

(** [byztime_open_rw] on the region [td] as the file maps after
    [posix_fallocate]: the stores made to the region, in order, and the
    context or the [errno]. *)
Definition byztime_open_rw (h : open_rw_host) (td : timedata)
  : list store * result byztime_ctx :=
  if negb (rw_init_sigbus_key h =? 0) then ([], Err (rw_init_sigbus_key h))
  else
    match rw_clock_era h with
    | Err e => ([], Err e)
    | Ok expected_era =>
        match rw_malloc h with
        | None => ([], Err ENOMEM)
        | Some ctx0 =>
            match rw_open h with
            | Err e => ([], Err e)
            | Ok fd_ =>
                match rw_acquire_lock h with
                | Err e => ([], Err e)
                | Ok lock_fd_ =>
                    if rw_fallocate h <? 0 then ([], Err (rw_fallocate h))
                    else if negb (rw_mmap h =? 0) then ([], Err (rw_mmap h))
                    else
                      let '(log, r) :=
                        if negb (bytes_eqb (load_magic (td_magic td))
                                           expected_magic)
                           || (td_i td <? 0) || (NUM_ENTRIES <=? td_i td)
                        then first_time_init h expected_era
                        else if negb (bytes_eqb (load_era (td_era td))
                                                expected_era)
                        then reboot_init h td expected_era
                        else ([], Ok tt) in
                      match r with
                      | Err e => (log, Err e)
                      | Ok _ =>
                          if negb (rw_mutexattr_init h =? 0)
                          then (log, Err (rw_mutexattr_init h))
                          else if negb (rw_mutexattr_setpshared h =? 0)
                          then (log, Err (rw_mutexattr_setpshared h))
                          else if negb (rw_mutex_init h =? 0)
                          then (log, Err (rw_mutex_init h))
                          else
                            (log ++ [St_mutex_init],
                             Ok (mk_ctx fd_ lock_fd_ default_drift_ppb
                                        (min_rate_ppb ctx0) (max_rate_ppb ctx0)
                                        (prev_local_time ctx0)
                                        (prev_offset ctx0)
                                        false (slew_have_prev ctx0)))
                      end
                end
            end
        end
    end.

(** What the host decides during [byztime_set_offset]. *)
Record set_offset_host : Type := mk_set_offset_host {
  so_monotonic_raw : clock_reading;
  so_mutex_lock : Z;
  so_mutex_unlock : Z
}.

(** [byztime_set_offset]; [as_of = None] is the NULL pointer. The three
    stamps are copied into the entry as they are. [None] stands for the
    store past the ring when the region's index is corrupt, which C
    leaves undefined. *)
Definition byztime_set_offset (h : set_offset_host) (td : timedata)
    (offset_ maxerror : byztime_stamp) (as_of_ : option byztime_stamp)
  : option (list store * result unit) :=
  let as_of_r :=
    match as_of_ with
    | None => byztime_get_local_time (so_monotonic_raw h)
    | Some t => Ok t
    end in
  match as_of_r with
  | Err e => Some ([], Err e)
  | Ok t =>
      let entry := mk_entry offset_ maxerror t in
      if negb (so_mutex_lock h =? 0) then Some ([], Err (so_mutex_lock h))
      else
        let i1 := td_i td + 1 in
        let i := if i1 =? NUM_ENTRIES then 0 else i1 in
        if (i <? 0) || (NUM_ENTRIES <=? i) then None
        else
          let log := [St_entry i entry; St_i i] in
          if negb (so_mutex_unlock h =? 0)
          then Some (log, Err (so_mutex_unlock h))
          else Some (log, Ok tt)
  end.

(** [byztime_get_offset_raw]: the entry at the current index, as stored. *)
Definition byztime_get_offset_raw (td : timedata) : timedata_entry :=
  entry_at td (td_i td).

(** ** Predicates on the region and on entries *)

(** [0 <= i && i < NUM_ENTRIES] *)
Definition index_valid (td : timedata) : bool :=
  (0 <=? td_i td) && (td_i td <? NUM_ENTRIES).

(** The three nanoseconds fields of an entry are in [[0, billion)]. *)
Definition entry_valid (e : timedata_entry) : bool :=
  nanoseconds_valid (offset e) && nanoseconds_valid (error e)
  && nanoseconds_valid (as_of e).

Definition is_byte (b : Z) : bool := (0 <=? b) && (b <? 256).

(** The region with other words in its era field, everything else kept. *)
Definition with_era (td : timedata) (words : list Z) : timedata :=
  mk_timedata (td_magic td) (td_i td) words (td_real_offset td)
              (td_mutex td) (td_entries td).

(** ** Scenario data *)

Module Scenario.

Definition era_A : list Z :=
  [1; 2; 3; 4; 5; 6; 7; 8; 9; 10; 11; 12; 13; 14; 15; 16].
Definition era_B : list Z :=
  [201; 2; 3; 4; 5; 6; 7; 8; 9; 10; 11; 12; 13; 14; 15; 16].

Definition blank_ctx : byztime_ctx :=
  mk_ctx 0 0 0 0 0 zerostamp zerostamp false false.

Definition host_rw (era_ : list Z) (local_ real_ : Z * Z) : open_rw_host :=
  mk_open_rw_host 0 (Ok era_) (Some blank_ctx) (Ok 3) (Ok 4) 0 0
                  (Ok local_) (Ok real_) 0 0 0.

Definition host_ro (era_ : list Z) : open_ro_host :=
  mk_open_ro_host 0 (Ok era_) (Some blank_ctx) (Ok 5) (Ok 4096) 0 0 false.

Definition host_read (local_ : Z * Z) : read_host :=
  mk_read_host 0 false (Ok local_).

Definition host_set : set_offset_host := mk_set_offset_host (Err 22) 0 0.

(** The region after [byztime_open_rw] on a new file, in era A. *)
Definition td_fresh : timedata :=
  apply_stores zero_timedata
    (fst (byztime_open_rw (host_rw era_A (100, 0) (1700000000, 0))
                          zero_timedata)).

(** The region after one more [byztime_set_offset]. *)
Definition publish (td : timedata) (off err asof : byztime_stamp)
  : timedata :=
  match byztime_set_offset host_set td off err (Some asof) with
  | Some (log, _) => apply_stores td log
  | None => td
  end.

(** Publish and read: offset 5 s, error 1 ms, as of local time 200 s. *)
Definition td_published : timedata :=
  publish td_fresh (mk_stamp 5 0) (mk_stamp 0 1000000) (mk_stamp 200 0).

Definition consumer_ctx : byztime_ctx :=
  mk_ctx 5 (-1) default_drift_ppb 0 0 zerostamp zerostamp false false.

(** Slew clamp: the provider publishes offset 0, then jumps to 10 s. *)
Definition td_offset_0 : timedata :=
  publish td_fresh (mk_stamp 0 0) (mk_stamp 0 0) (mk_stamp 0 0).
Definition td_offset_10 : timedata :=
  publish td_offset_0 (mk_stamp 10 0) (mk_stamp 0 0) (mk_stamp 0 0).

(** The context after [byztime_slew (ctx, 0, 1000000000, NULL)]. *)
Definition slewing_ctx : byztime_ctx :=
  fst (byztime_slew (host_read (0, 0)) td_offset_0 consumer_ctx
                    0 billion None).

(** The context after the first read in slew mode, at local time 0. *)
Definition after_first_read : byztime_ctx :=
  fst (byztime_get_global_time (host_read (0, 0)) td_offset_0 slewing_ctx).

(** A context in slew mode whose recorded previous offset is so low
    that the offset adjustment overflows. *)
Definition overflowing_ctx : byztime_ctx :=
  mk_ctx 5 (-1) default_drift_ppb 0 billion zerostamp
         (mk_stamp Int64.INT64_MIN 0) true true.

End Scenario.

(** ** The rest of the library *)

(** The time a stamp stands for, in nanoseconds. *)
Definition stamp_value (s : byztime_stamp) : Z :=
  seconds s * billion + nanoseconds s.

(** [byztime_stamp_halve]; [>>] on a negative [int64_t] is the
    arithmetic shift. *)
Definition byztime_stamp_halve (stamp : byztime_stamp) : byztime_stamp :=
  let seconds_ := seconds stamp in
  let nanoseconds_ := nanoseconds stamp in
  let nsec1 := Z.shiftr nanoseconds_ 1 in
  let nsec2 :=
    if negb (Z.land seconds_ 1 =? 0) then Int64.wrap (nsec1 + 500000000)
    else nsec1 in
  let nsec3 :=
    if Z.land nanoseconds_ 3 =? 3 then
      if 0 <? nanoseconds_ then Int64.wrap (nsec2 + 1)
      else Int64.wrap (nsec2 - 1)
    else nsec2 in
  mk_stamp (Z.shiftr seconds_ 1) nsec3.

(** [byztime_get_offset_quick]: the offset at the current index, with
    no check of the index. *)
Definition byztime_get_offset_quick (td : timedata) : byztime_stamp :=
  offset (entry_at td (td_i td)).

(** What the host decides during [byztime_update_real_offset]. *)
Record update_host : Type := mk_update_host {
  up_read : read_host;
  up_realtime : clock_reading;
  up_mutex_lock : Z;
  up_mutex_unlock : Z
}.

(** [byztime_update_real_offset]: the context after the call (the read
    of the global time goes through the slew state), the stores to the
    region and the result. [byztime_stamp_sub] has [real_offset] in the
    region as its output, so the difference is stored also when it
    overflows; its stores are kept as the one store of the final
    value. *)
Definition byztime_update_real_offset (h : update_host) (td : timedata)
    (ctx : byztime_ctx) : byztime_ctx * (list store * outcome unit) :=
  let '(ctx', r) := byztime_get_global_time (up_read h) td ctx in
  match r with
  | Aborted => (ctx', ([], Aborted))
  | Failed e => (ctx', ([], Failed e))
  | Returned rd =>
      match byztime_get_real_time (up_realtime h) with
      | Err e => (ctx', ([], Failed e))
      | Ok real_time =>
          if negb (up_mutex_lock h =? 0)
          then (ctx', ([], Failed (up_mutex_lock h)))
          else
            let '(diff, o) := byztime_stamp_sub (r_est rd) real_time in
            if o then (ctx', ([St_real_offset diff], Failed EOVERFLOW))
            else if negb (up_mutex_unlock h =? 0)
            then (ctx', ([St_real_offset diff], Failed (up_mutex_unlock h)))
            else (ctx', ([St_real_offset diff], Returned tt))
      end
  end.

(** A run of [byztime_set_offset] calls, each with its own host and its
    entry; [None] when one of them stores past the ring. *)
Fixpoint set_offsets (td : timedata)
    (calls : list (set_offset_host * timedata_entry)) : option timedata :=
  match calls with
  | [] => Some td
  | (h, e) :: rest =>
      match byztime_set_offset h td (offset e) (error e) (Some (as_of e)) with
      | Some (log, _) => set_offsets (apply_stores td log) rest
      | None => None
      end
  end.

(** The two integers [byztime_stamp_fmt] hands to [snprintf] for the
    format [%PRId64 . %.9PRId64]: the seconds field and the fraction.
    The branch is chosen on the fields of the argument, the values are
    taken from its normalized copy; the fraction of the second branch
    goes through [uint64_t] and is printed as a signed integer. *)
Definition byztime_stamp_fmt_args (stamp : byztime_stamp) : Z * Z :=
  let s := fst (byztime_stamp_normalize stamp) in
  if (0 <=? seconds stamp) || (nanoseconds stamp =? 0)
  then (seconds s, nanoseconds s)
  else (Int64.wrap (seconds s + 1), Int64.wrap (billion - nanoseconds s)).

(** ** Predicates for the further properties *)

(** The seconds of a clock reading fit in 64 bits ([time_t]). *)
Definition clock_int64 (c : clock_reading) : bool :=
  match c with
  | Ok (tv_sec, _) => Int64.in_range tv_sec
  | Err _ => true
  end.

(** The test of line 112-114 of byztime_provider.c: the region lacks
    the magic or its index is out of range. *)
Definition needs_first_time_init (td : timedata) : bool :=
  negb (bytes_eqb (load_magic (td_magic td)) expected_magic)
  || (td_i td <? 0) || (NUM_ENTRIES <=? td_i td).


(** * Properties *)

(** ** 64-bit arithmetic *)

Lemma in_range_iff z :
  Int64.in_range z = true
  <-> -9223372036854775808 <= z <= 9223372036854775807.
Proof.
  unfold Int64.in_range, Int64.INT64_MAX, Int64.INT64_MIN.
  rewrite andb_true_iff, !Z.leb_le.
  change (- 2 ^ 63) with (-9223372036854775808).
  change (2 ^ 63 - 1) with 9223372036854775807. tauto.
Qed.

Ltac int64_consts :=
  unfold Int64.wrap, billion in *;
  change (2 ^ 63) with 9223372036854775808 in *;
  change (2 ^ 64) with 18446744073709551616 in *.

Lemma wrap_in_range z : Int64.in_range z = true -> Int64.wrap z = z.
Proof.
  intros H. apply in_range_iff in H. int64_consts.
  rewrite Z.mod_small; lia.
Qed.

Lemma wrap_wrap_pred z : Int64.wrap (Int64.wrap z - 1) = Int64.wrap (z - 1).
Proof. int64_consts. Z.to_euclidean_division_equations. lia. Qed.

Lemma wrap_is_in_range z : Int64.in_range (Int64.wrap z) = true.
Proof.
  apply in_range_iff. int64_consts. Z.to_euclidean_division_equations. lia.
Qed.

(** C's truncating division by one billion against the flooring one. *)
Lemma quot_rem_billion ns :
  ns `rem` billion < 0 /\ ns `quot` billion <= 0
    /\ ns / billion = ns `quot` billion - 1
    /\ ns mod billion = ns `rem` billion + billion
  \/ 0 <= ns `rem` billion /\ ns / billion = ns `quot` billion
    /\ ns mod billion = ns `rem` billion.
Proof. unfold billion. Z.to_euclidean_division_equations. lia. Qed.

(** ** Stamp arithmetic *)

Lemma normalize_in_place s :
  nanoseconds_valid s = true -> byztime_stamp_normalize s = (s, false).
Proof.
  unfold nanoseconds_valid, byztime_stamp_normalize. intros ->. reflexivity.
Qed.

(** Normalization carries the floor of [nanoseconds / billion] into the
    seconds, wraps, and reports exactly when the carry did not fit. *)
Lemma normalize_floor s :
  Int64.in_range (seconds s) = true ->
  byztime_stamp_normalize s =
    (mk_stamp (Int64.wrap (seconds s + nanoseconds s / billion))
              (nanoseconds s mod billion),
     negb (Int64.in_range (seconds s + nanoseconds s / billion))).
Proof.
  intros Hs. destruct s as [sec ns]; cbn [seconds nanoseconds] in *.
  unfold byztime_stamp_normalize; cbn [seconds nanoseconds].
  destruct ((0 <=? ns) && (ns <? billion)) eqn:Hc.
  - apply andb_true_iff in Hc as [H1 H2].
    apply Z.leb_le in H1. apply Z.ltb_lt in H2.
    rewrite Z.div_small, Z.mod_small, Z.add_0_r by lia.
    rewrite wrap_in_range, Hs by assumption. reflexivity.
  - unfold Int64.add_overflow, Int64.sub_overflow.
    destruct (quot_rem_billion ns) as [(Hr & Hq & Hd & Hm) | (Hr & Hd & Hm)].
    + apply Z.ltb_lt in Hr as Hr'. rewrite Hr'. rewrite Hd, Hm.
      rewrite wrap_wrap_pred.
      replace (sec + (ns `quot` billion - 1))
        with (sec + ns `quot` billion - 1) by lia.
      f_equal.
      apply in_range_iff in Hs.
      destruct (Int64.in_range (sec + ns `quot` billion)) eqn:H1.
      * rewrite wrap_in_range by assumption. reflexivity.
      * cbn [negb orb]. symmetry. apply negb_true_iff, not_true_iff_false.
        apply not_true_iff_false in H1. rewrite in_range_iff in *. lia.
    + assert (Hr' : (ns `rem` billion <? 0) = false) by (apply Z.ltb_ge; lia).
      rewrite Hr', Hd, Hm. reflexivity.
Qed.

(** Whatever the input, the nanoseconds come out in [[0, billion)]. *)
Lemma normalize_valid s :
  nanoseconds_valid (fst (byztime_stamp_normalize s)) = true.
Proof.
  unfold byztime_stamp_normalize.
  destruct ((0 <=? nanoseconds s) && (nanoseconds s <? billion)) eqn:Hc;
    [exact Hc|].
  destruct (Int64.add_overflow _ _) as [sec1 o1].
  destruct (Z.ltb_spec (nanoseconds s `rem` billion) 0) as [Hr|Hr].
  - destruct (Int64.sub_overflow sec1 1) as [sec2 o2].
    unfold nanoseconds_valid. cbn [fst nanoseconds].
    apply andb_true_iff. rewrite Z.leb_le, Z.ltb_lt.
    revert Hr. unfold billion. Z.to_euclidean_division_equations. lia.
  - unfold nanoseconds_valid. cbn [fst nanoseconds].
    apply andb_true_iff. rewrite Z.leb_le, Z.ltb_lt.
    revert Hr. unfold billion. Z.to_euclidean_division_equations. lia.
Qed.

Lemma read_clock_valid c t : read_clock c = Ok t -> nanoseconds_valid t = true.
Proof.
  unfold read_clock. destruct c as [[tv_sec tv_nsec]|e]; [|discriminate].
  pose proof (normalize_valid (mk_stamp tv_sec tv_nsec)) as Hv.
  destruct (byztime_stamp_normalize _) as [t' o]. destruct o; [discriminate|].
  intros [= <-]. exact Hv.
Qed.

Lemma round_residue_0 nsec : round_residue nsec 0 = nsec.
Proof. reflexivity. Qed.

(** Scaling a normalized stamp by one billion parts per billion: the
    three partial products recombine to the stamp, with no residue, and
    neither assertion of [byztime_stamp_downscale] fires. *)
Lemma downscale_billion_normalized sec ns :
  Int64.in_range sec = true -> 0 <= ns < billion ->
  byztime_stamp_downscale (mk_stamp sec ns) billion
  = Some (mk_stamp sec ns, false).
Proof.
  intros Hs Hn. unfold byztime_stamp_downscale.
  rewrite normalize_floor by assumption. cbn [seconds nanoseconds].
  rewrite Z.div_small, Z.mod_small, Z.add_0_r by assumption.
  rewrite (wrap_in_range sec), Hs by assumption. cbn [negb].
  replace (negb ((0 <=? billion) && (billion <=? billion))) with false
    by reflexivity.
  cbv iota.
  apply in_range_iff in Hs.
  assert (Hg : Int64.wrap (sec `quot` billion * billion)
               = sec `quot` billion * billion).
  { apply wrap_in_range, in_range_iff. unfold billion.
    Z.to_euclidean_division_equations. lia. }
  assert (Hr : Int64.wrap (sec `rem` billion * billion)
               = sec `rem` billion * billion).
  { apply wrap_in_range, in_range_iff. unfold billion in *.
    Z.to_euclidean_division_equations. lia. }
  assert (Ha : Int64.wrap (ns * billion) = ns * billion).
  { apply wrap_in_range, in_range_iff. unfold billion in *. lia. }
  rewrite Hg, Hr, Ha.
  rewrite Z.quot_mul, Z.rem_mul by (unfold billion; lia).
  rewrite round_residue_0.
  assert (Hw : Int64.wrap (sec `rem` billion * billion + ns)
               = sec `rem` billion * billion + ns).
  { apply wrap_in_range, in_range_iff. unfold billion in *.
    Z.to_euclidean_division_equations. lia. }
  rewrite Hw.
  rewrite normalize_floor; cbn [seconds nanoseconds].
  2:{ apply in_range_iff. unfold billion.
      Z.to_euclidean_division_equations. lia. }
  assert (Hd : (sec `rem` billion * billion + ns) / billion
               = sec `rem` billion).
  { rewrite Z.div_add_l by (unfold billion; lia).
    rewrite Z.div_small by assumption. lia. }
  assert (Hm : (sec `rem` billion * billion + ns) mod billion = ns).
  { rewrite Z.add_comm, Z.mod_add by (unfold billion; lia).
    apply Z.mod_small; assumption. }
  rewrite Hd, Hm.
  assert (He : sec `quot` billion * billion + sec `rem` billion = sec).
  { pose proof (Z.quot_rem' sec billion). lia. }
  rewrite He. rewrite wrap_in_range by (apply in_range_iff; lia).
  replace (Int64.in_range sec) with true
    by (symmetry; apply in_range_iff; lia).
  reflexivity.
Qed.

Lemma scale_billion_normalized s :
  Int64.in_range (seconds s) = true -> nanoseconds_valid s = true ->
  byztime_stamp_scale s billion = Some (s, false).
Proof.
  intros Hs Hv. destruct s as [sec ns]. unfold byztime_stamp_scale.
  replace ((0 <=? billion) && (billion <=? billion)) with true by reflexivity.
  apply downscale_billion_normalized; [exact Hs|].
  unfold nanoseconds_valid in Hv. cbn [nanoseconds] in Hv.
  apply andb_true_iff in Hv. rewrite Z.leb_le, Z.ltb_lt in Hv. exact Hv.
Qed.

(** The sum of two stamps is a normalized stamp of 64-bit seconds, also
    when the addition reports an overflow. *)
Lemma add_result_wf a b :
  let g := fst (byztime_stamp_add a b) in
  Int64.in_range (seconds g) = true /\ nanoseconds_valid g = true.
Proof.
  unfold byztime_stamp_add.
  destruct (byztime_stamp_normalize a) as [s1 o1].
  destruct (byztime_stamp_normalize b) as [s2 o2].
  unfold Int64.add_overflow.
  set (raw := mk_stamp (Int64.wrap (seconds s1 + seconds s2))
                       (Int64.wrap (nanoseconds s1 + nanoseconds s2))).
  pose proof (normalize_floor raw (wrap_is_in_range _)) as H1.
  pose proof (normalize_valid raw) as H2.
  destruct (byztime_stamp_normalize raw) as [sum o4].
  cbn [fst] in *. split; [|assumption].
  injection H1 as -> _. apply wrap_is_in_range.
Qed.

Lemma cmp_refl s : byztime_stamp_cmp s s = 0.
Proof.
  unfold byztime_stamp_cmp. rewrite !Z.ltb_irrefl. reflexivity.
Qed.

(** Scaling rounds the discarded attoseconds half to even, and takes the
    schoolbook path outside [[0, billion]]. *)
Example scale_half_rounds_to_even :
  byztime_stamp_scale (mk_stamp 0 1) 500000000 = Some (mk_stamp 0 0, false)
  /\ byztime_stamp_scale (mk_stamp 0 3) 500000000
     = Some (mk_stamp 0 2, false)
  /\ byztime_stamp_scale (mk_stamp (-3) 7) 2500000000
     = Some (mk_stamp (-8) 500000018, false)
  /\ byztime_stamp_scale (mk_stamp 1 0) 500000
     = Some (mk_stamp 0 500000, false).
Proof. repeat split. Qed.

Example sub_borrows_a_second :
  byztime_stamp_sub (mk_stamp 5 0) (mk_stamp 0 1500000)
  = (mk_stamp 4 998500000, false).
Proof. reflexivity. Qed.

Example add_reports_overflow :
  snd (byztime_stamp_add (mk_stamp Int64.INT64_MAX 0) (mk_stamp 1 0)) = true.
Proof. reflexivity. Qed.

(** C9: for every stamp [s] (its seconds a 64-bit integer) whose
    normalization does not overflow, [byztime_stamp_scale s billion]
    returns exactly the normalized [s] and reports success: no overflow
    flag and no assertion failure. The residue of the attoseconds is 0,
    so no rounding adjustment is made. *)
Theorem scale_billion_is_normalize (s : byztime_stamp) :
  Int64.in_range (seconds s) = true ->
  snd (byztime_stamp_normalize s) = false ->
  byztime_stamp_scale s billion
  = Some (fst (byztime_stamp_normalize s), false).
Proof.
  intros Hs Ho. unfold byztime_stamp_scale.
  replace ((0 <=? billion) && (billion <=? billion)) with true by reflexivity.
  cbv iota.
  pose proof (normalize_floor s Hs) as Hn.
  destruct (byztime_stamp_normalize s) as [s' o] eqn:E.
  cbn [fst snd] in *. subst o.
  injection Hn as Hs' Hr. symmetry in Hr. apply negb_false_iff in Hr.
  assert (Hv : 0 <= nanoseconds s mod billion < billion)
    by (apply Z.mod_pos_bound; reflexivity).
  assert (Hv' : nanoseconds_valid s' = true).
  { subst s'. unfold nanoseconds_valid. cbn [nanoseconds].
    apply andb_true_iff. rewrite Z.leb_le, Z.ltb_lt. exact Hv. }
  transitivity (byztime_stamp_downscale s' billion).
  - unfold byztime_stamp_downscale.
    rewrite E, (normalize_in_place s' Hv'). reflexivity.
  - subst s'. rewrite (wrap_in_range _ Hr).
    apply downscale_billion_normalized; assumption.
Qed.

(** A stamp that needs a borrow: -3 s and -7 ns. *)
Lemma scale_billion_is_normalize_witness :
  byztime_stamp_scale (mk_stamp (-3) (-7)) billion
  = Some (mk_stamp (-4) 999999993, false).
Proof.
  apply (scale_billion_is_normalize (mk_stamp (-3) (-7))); reflexivity.
Defined.

(** ** The consumer read path *)

(** [get_and_validate_entry] in terms of the two validity predicates. *)
Lemma read_unfold h td :
  get_and_validate_entry h td =
  if negb (setspecific_ret h =? 0) then Err (setspecific_ret h)
  else if page_fault h then Err EPROTO
  else if negb (index_valid td) then Err EPROTO
  else if negb (entry_valid (entry_at td (td_i td))) then Err EPROTO
  else Ok (entry_at td (td_i td)).
Proof.
  unfold get_and_validate_entry, index_valid, entry_valid.
  destruct (negb (setspecific_ret h =? 0)); [reflexivity|].
  destruct (page_fault h); [reflexivity|].
  replace ((0 <=? td_i td) && (td_i td <? NUM_ENTRIES))
    with (negb ((td_i td <? 0) || (NUM_ENTRIES <=? td_i td))).
  2:{ rewrite negb_orb, <- Z.leb_antisym, <- Z.ltb_antisym. reflexivity. }
  rewrite negb_involutive.
  destruct ((td_i td <? 0) || (NUM_ENTRIES <=? td_i td)); [reflexivity|].
  rewrite !negb_andb. reflexivity.
Qed.

(** A bus error inside the recovery scope comes back as EPROTO. *)
Lemma read_page_fault h td :
  setspecific_ret h = 0 -> page_fault h = true ->
  get_and_validate_entry h td = Err EPROTO.
Proof. intros H1 H2. rewrite read_unfold, H1, H2. reflexivity. Qed.

(** C6, as the code has it: with no bus error and once the recovery
    scope is registered ([pthread_setspecific] returned 0), the read
    fails with EPROTO if and only if the stored index is outside
    [[0, NUM_ENTRIES)] or one of the three nanoseconds fields of the
    selected entry is outside [[0, billion)]; otherwise it returns the
    copied entry. When the registration fails the read returns that
    error number, whatever the region holds. *)
Theorem read_outcomes h td :
  page_fault h = false ->
  (setspecific_ret h <> 0 ->
     get_and_validate_entry h td = Err (setspecific_ret h))
  /\ (setspecific_ret h = 0 ->
      (get_and_validate_entry h td = Err EPROTO
       <-> td_i td < 0 \/ NUM_ENTRIES <= td_i td
           \/ entry_valid (entry_at td (td_i td)) = false)
      /\ (0 <= td_i td < NUM_ENTRIES ->
          entry_valid (entry_at td (td_i td)) = true ->
          get_and_validate_entry h td = Ok (entry_at td (td_i td)))).
Proof.
  intros Hf. rewrite read_unfold, Hf. unfold index_valid. split.
  - intros Hr. apply Z.eqb_neq in Hr. rewrite Hr. reflexivity.
  - intros ->. cbn [Z.eqb negb].
    destruct (Z.leb_spec 0 (td_i td)), (Z.ltb_spec (td_i td) NUM_ENTRIES);
      cbn [andb negb];
      try (split; [split; [intros _|reflexivity]; lia | lia]).
    destruct (entry_valid (entry_at td (td_i td))); cbn [negb].
    + split; [|reflexivity].
      split; [discriminate|]. intros [?|[?|?]]; [lia|lia|discriminate].
    + split; [|discriminate]. split; [auto|reflexivity].
Qed.

(** The published region of the scenario, read without a fault. *)
Lemma read_outcomes_witness :
  get_and_validate_entry (Scenario.host_read (201, 0)) Scenario.td_published
  = Ok (mk_entry (mk_stamp 5 0) (mk_stamp 0 1000000) (mk_stamp 200 0)).
Proof.
  refine (proj2 (proj2 (read_outcomes (Scenario.host_read (201, 0))
                                       Scenario.td_published eq_refl)
                       eq_refl) _ eq_refl).
  vm_compute. split; [discriminate | reflexivity].
Defined.

(** C6 as stated fails: no bus error, index 1 in range, nanoseconds in
    range, and yet the read neither returns the entry nor fails with
    EPROTO, because [pthread_setspecific] returned ENOMEM. *)
Lemma read_registration_failure :
  let h := mk_read_host ENOMEM false (Ok (201, 0)) in
  let td := Scenario.td_published in
  page_fault h = false
  /\ index_valid td = true
  /\ entry_valid (entry_at td (td_i td)) = true
  /\ get_and_validate_entry h td <> Ok (entry_at td (td_i td))
  /\ get_and_validate_entry h td = Err ENOMEM.
Proof.
  cbv zeta. repeat split; try reflexivity. vm_compute. discriminate.
Qed.

Lemma bind_returned {A B : Type} (m : outcome A) (k : A -> outcome B) b :
  m ≫= k = Returned b -> exists a, m = Returned a /\ k a = Returned b.
Proof. destruct m; cbn; [eauto | discriminate..]. Qed.

Lemma of_result_returned {A : Type} (r : result A) a :
  of_result r = Returned a -> r = Ok a.
Proof. destruct r; cbn; congruence. Qed.

Lemma entry_and_bounds_returned h td x2 entry lt mn mx :
  entry_and_bounds h td x2 = Returned (entry, lt, mn, mx) ->
  get_and_validate_entry h td = Ok entry
  /\ byztime_get_local_time (monotonic_raw h) = Ok lt.
Proof.
  unfold entry_and_bounds. intros H.
  apply bind_returned in H as (entry' & He & H).
  apply bind_returned in H as (lt' & Hl & H).
  apply bind_returned in H as (age & _ & H).
  apply bind_returned in H as (sa & _ & H).
  apply bind_returned in H as (en & _ & H).
  apply bind_returned in H as (mn' & _ & H).
  apply bind_returned in H as (mx' & _ & H).
  injection H as -> -> -> ->.
  split; apply of_result_returned; assumption.
Qed.

(** What a read that returned 0 has done. *)
Lemma get_offset_returned h td ctx ctx' rd :
  byztime_get_local_time_and_offset h td ctx = (ctx', Returned rd) ->
  exists entry,
    get_and_validate_entry h td = Ok entry
    /\ byztime_get_local_time (monotonic_raw h) = Ok (r_local_time rd)
    /\ (slew_mode ctx = false -> ctx' = ctx /\ r_est rd = offset entry)
    /\ (slew_mode ctx = true -> slew_have_prev ctx = false ->
        r_est rd = offset entry
        /\ slew_mode ctx' = true /\ slew_have_prev ctx' = true
        /\ prev_offset ctx' = offset entry
        /\ prev_local_time ctx' = r_local_time rd).
Proof.
  unfold byztime_get_local_time_and_offset. intros H.
  destruct (Int64.mul_overflow (drift_ppb ctx) 2) as [x2 o].
  destruct o; [discriminate|].
  destruct (entry_and_bounds h td x2) as [[[[entry lt] mn] mx]| e |] eqn:E;
    [|discriminate..].
  apply entry_and_bounds_returned in E as [He Hl].
  exists entry. split; [assumption|].
  destruct (slew_mode ctx) eqn:Hm.
  - destruct (slew_have_prev ctx) eqn:Hp.
    + destruct (slew_estimate ctx lt entry); [|discriminate..].
      injection H as <- <-. cbn. repeat split; try assumption; discriminate.
    + injection H as <- <-. cbn. repeat split; try assumption; discriminate.
  - injection H as <- <-. cbn. repeat split; try assumption; discriminate.
Qed.

(** C10: whenever [byztime_get_offset] does not return 0 (it failed with
    EPROTO, EOVERFLOW, a clock error, ...), the context is exactly as it
    was before the call: mode flag, [slew_have_prev], [prev_local_time],
    [prev_offset] and the drift are untouched. The slew history advances
    only in a read that returns 0. *)
Theorem get_offset_failure_keeps_ctx h td ctx ctx' r :
  byztime_get_offset h td ctx = (ctx', r) ->
  (forall rd, r <> Returned rd) ->
  ctx' = ctx.
Proof.
  unfold byztime_get_offset, byztime_get_local_time_and_offset.
  destruct (Int64.mul_overflow (drift_ppb ctx) 2) as [x2 o].
  destruct o; [intros [= <- _]; reflexivity|].
  destruct (entry_and_bounds h td x2) as [[[[entry lt] mn] mx]| e |];
    [|intros [= <- _]; reflexivity..].
  destruct (slew_mode ctx); [|intros [= <- _]; reflexivity].
  destruct (if slew_have_prev ctx then _ else _) as [est|e|];
    [|intros [= <- _]; reflexivity..].
  intros [= _ <-] H. exfalso. eapply H. reflexivity.
Qed.

(** In slew mode with a recorded previous read, a read whose offset
    adjustment overflows fails with EOVERFLOW and keeps the context. *)
Lemma get_offset_failure_keeps_ctx_witness :
  byztime_get_offset (Scenario.host_read (1, 0)) Scenario.td_offset_10
                     Scenario.overflowing_ctx
  = (Scenario.overflowing_ctx, Failed EOVERFLOW)
  /\ Scenario.overflowing_ctx = Scenario.overflowing_ctx.
Proof.
  split; [vm_compute; reflexivity|].
  apply (get_offset_failure_keeps_ctx
           (Scenario.host_read (1, 0)) Scenario.td_offset_10
           Scenario.overflowing_ctx Scenario.overflowing_ctx
           (Failed EOVERFLOW));
    [vm_compute; reflexivity | discriminate].
Defined.

(** C7: with the entry read, [byztime_slew] with a non-NULL [maxerror]
    and [entry.error > maxerror] (by [byztime_stamp_cmp]) fails with
    ERANGE and leaves the context as it was; with [maxerror] NULL or
    [entry.error <= maxerror] it returns 0 and the context is in slew
    mode with no previous read recorded, the two rates stored and the
    drift kept, so that the next read that returns emits as estimate the
    raw offset of the entry it reads. *)
Theorem slew_maxerror_gate h td ctx min_rate max_rate maxerror entry :
  get_and_validate_entry h td = Ok entry ->
  (forall m, maxerror = Some m -> 0 < byztime_stamp_cmp (error entry) m ->
     byztime_slew h td ctx min_rate max_rate maxerror = (ctx, Err ERANGE))
  /\ ((maxerror = None
       \/ exists m, maxerror = Some m
                    /\ byztime_stamp_cmp (error entry) m <= 0) ->
      exists ctx',
        byztime_slew h td ctx min_rate max_rate maxerror = (ctx', Ok tt)
        /\ slew_mode ctx' = true /\ slew_have_prev ctx' = false
        /\ min_rate_ppb ctx' = min_rate /\ max_rate_ppb ctx' = max_rate
        /\ drift_ppb ctx' = drift_ppb ctx
        /\ forall h2 td2 ctx2 rd,
             byztime_get_offset h2 td2 ctx' = (ctx2, Returned rd) ->
             exists entry2,
               get_and_validate_entry h2 td2 = Ok entry2
               /\ r_est rd = offset entry2).
Proof.
  intros He. unfold byztime_slew. rewrite He. split.
  - intros m -> Hc. apply Z.ltb_lt in Hc. rewrite Hc. reflexivity.
  - intros Hok.
    assert (Hw : match maxerror with
                 | Some m => 0 <? byztime_stamp_cmp (error entry) m
                 | None => false
                 end = false).
    { destruct Hok as [-> | (m & -> & Hc)]; [reflexivity|].
      apply Z.ltb_ge. exact Hc. }
    rewrite Hw. eexists. split; [reflexivity|].
    do 5 (split; [reflexivity|]).
    intros h2 td2 ctx2 rd H.
    apply get_offset_returned in H as (entry2 & He2 & _ & _ & Hs).
    exists entry2. split; [assumption|]. apply Hs; reflexivity.
Qed.

(** The published entry has error 1 ms: a [maxerror] of 0.5 ms refuses
    the switch to slew mode. *)
Lemma slew_maxerror_gate_witness :
  byztime_slew (Scenario.host_read (201, 0)) Scenario.td_published
               Scenario.consumer_ctx 0 billion (Some (mk_stamp 0 500000))
  = (Scenario.consumer_ctx, Err ERANGE).
Proof.
  refine (proj1 (slew_maxerror_gate
                   (Scenario.host_read (201, 0)) Scenario.td_published
                   Scenario.consumer_ctx 0 billion (Some (mk_stamp 0 500000))
                   (mk_entry (mk_stamp 5 0) (mk_stamp 0 1000000)
                             (mk_stamp 200 0))
                   eq_refl)
                (mk_stamp 0 500000) eq_refl _).
  reflexivity.
Defined.

(** ** Publication *)

Lemma next_index_mod i :
  0 <= i < NUM_ENTRIES ->
  (if i + 1 =? NUM_ENTRIES then 0 else i + 1) = (i + 1) mod NUM_ENTRIES
  /\ 0 <= (i + 1) mod NUM_ENTRIES < NUM_ENTRIES.
Proof.
  unfold NUM_ENTRIES. intros Hi.
  destruct (Z.eqb_spec (i + 1) 62) as [E|E].
  - rewrite E. split; [reflexivity|]. rewrite Z.mod_same; lia.
  - rewrite Z.mod_small by lia. lia.
Qed.

(** C5: on a region whose index [i] is in [[0, 62)],
    [byztime_set_offset] of normalized stamps, once it holds the mutex,
    stores the entry into slot [(i + 1) mod 62] and then stores that
    index, and returns what the unlock returns; it stores nothing when
    it cannot take the mutex. In the region so written the index is
    [(i + 1) mod 62], that slot holds the triple and no other slot has
    changed. A read of it returns exactly the triple published; it can
    only fail for the host's reasons (the registration error, or EPROTO
    on a bus error) and never hands back other data. *)
Theorem publish_then_read h td off err asof :
  0 <= td_i td < NUM_ENTRIES ->
  length (td_entries td) = Z.to_nat NUM_ENTRIES ->
  nanoseconds_valid off = true ->
  nanoseconds_valid err = true ->
  nanoseconds_valid asof = true ->
  let i' := (td_i td + 1) mod NUM_ENTRIES in
  let entry := mk_entry off err asof in
  let log := [St_entry i' entry; St_i i'] in
  let td' := apply_stores td log in
  byztime_set_offset h td off err (Some asof)
  = Some (if so_mutex_lock h =? 0
          then (log, if so_mutex_unlock h =? 0 then Ok tt
                     else Err (so_mutex_unlock h))
          else ([], Err (so_mutex_lock h)))
  /\ td_i td' = i'
  /\ entry_at td' i' = entry
  /\ (forall k, 0 <= k < NUM_ENTRIES -> k <> i' ->
        entry_at td' k = entry_at td k)
  /\ (forall rh,
        get_and_validate_entry rh td'
        = if negb (setspecific_ret rh =? 0) then Err (setspecific_ret rh)
          else if page_fault rh then Err EPROTO
          else Ok entry)
  /\ (forall rh en, get_and_validate_entry rh td' = Ok en -> en = entry).
Proof.
  intros Hi Hlen Ho He Ha i' entry log td'.
  destruct (next_index_mod _ Hi) as [Hnext Hi'].
  fold i' in Hnext, Hi'.
  assert (Hat : entry_at td' i' = entry).
  { unfold entry_at, td', log, apply_stores.
    cbn [fold_left apply_store td_entries].
    apply list_lookup_total_insert_eq. rewrite Hlen. lia. }
  assert (Hidx : td_i td' = i') by reflexivity.
  assert (Hread : forall rh, get_and_validate_entry rh td' =
            if negb (setspecific_ret rh =? 0) then Err (setspecific_ret rh)
            else if page_fault rh then Err EPROTO else Ok entry).
  { intros rh. rewrite read_unfold, Hidx, Hat. unfold index_valid.
    rewrite Hidx.
    replace ((0 <=? i') && (i' <? NUM_ENTRIES)) with true.
    2:{ symmetry. apply andb_true_iff. rewrite Z.leb_le, Z.ltb_lt. exact Hi'. }
    replace (entry_valid entry) with true.
    2:{ unfold entry_valid, entry. cbn [offset error as_of].
        rewrite Ho, He, Ha. reflexivity. }
    reflexivity. }
  split; [|split; [exact Hidx|split; [exact Hat|split; [|split]]]].
  - unfold byztime_set_offset.
    destruct (so_mutex_lock h =? 0); cbn [negb]; [|reflexivity].
    rewrite Hnext.
    replace ((i' <? 0) || (NUM_ENTRIES <=? i')) with false.
    2:{ symmetry. apply orb_false_iff. rewrite Z.ltb_ge, Z.leb_gt. lia. }
    destruct (so_mutex_unlock h =? 0); reflexivity.
  - intros k Hk Hne. unfold entry_at, td', log, apply_stores.
    cbn [fold_left apply_store td_entries].
    apply list_lookup_total_insert_ne. lia.
  - exact Hread.
  - intros rh en. rewrite Hread.
    destruct (negb (setspecific_ret rh =? 0)); [discriminate|].
    destruct (page_fault rh); [discriminate|]. congruence.
Qed.

(** Publishing into the region [byztime_open_rw] has just initialized:
    the index goes from 0 to 1 and the read returns the entry. *)
Lemma publish_then_read_witness :
  let entry := mk_entry (mk_stamp 5 0) (mk_stamp 0 1000000) (mk_stamp 200 0) in
  td_i Scenario.td_fresh = 0
  /\ byztime_set_offset Scenario.host_set Scenario.td_fresh (mk_stamp 5 0)
                        (mk_stamp 0 1000000) (Some (mk_stamp 200 0))
     = Some ([St_entry 1 entry; St_i 1], Ok tt)
  /\ td_i Scenario.td_published = 1
  /\ get_and_validate_entry (Scenario.host_read (201, 0))
                            Scenario.td_published = Ok entry.
Proof.
  cbv zeta.
  pose proof (publish_then_read
                Scenario.host_set Scenario.td_fresh
                (mk_stamp 5 0) (mk_stamp 0 1000000) (mk_stamp 200 0)
                ltac:(vm_compute; split; [discriminate | reflexivity])
                eq_refl eq_refl eq_refl eq_refl)
    as (Hset & Hi & _ & _ & Hread & _).
  split; [reflexivity|]. split; [exact Hset|]. split; [exact Hi|].
  exact (Hread (Scenario.host_read (201, 0))).
Defined.

(** C4, as the code has it: [byztime_set_offset] copies its offset and
    error arguments, and [as_of] when it is given, into the entry
    without normalizing them; an [as_of] taken from the local clock is
    normalized. So the entry published has its nanoseconds fields in
    [[0, billion)] exactly when those of the arguments are. *)
Theorem set_offset_publishes_arguments h td off err asof log r k en :
  byztime_set_offset h td off err asof = Some (log, r) ->
  In (St_entry k en) log ->
  offset en = off /\ error en = err
  /\ (forall t, asof = Some t -> as_of en = t)
  /\ (asof = None -> nanoseconds_valid (as_of en) = true)
  /\ (entry_valid en = true
      <-> nanoseconds_valid off = true /\ nanoseconds_valid err = true
          /\ forall t, asof = Some t -> nanoseconds_valid t = true).
Proof.
  unfold byztime_set_offset. intros H Hin.
  assert (Hen : exists t,
             en = mk_entry off err t
             /\ match asof with
                | Some t' => t = t'
                | None => byztime_get_local_time (so_monotonic_raw h) = Ok t
                end).
  { destruct (match asof with
              | Some t => Ok t
              | None => byztime_get_local_time (so_monotonic_raw h)
              end) as [t|e] eqn:Et.
    2:{ injection H as <- _. destruct Hin. }
    exists t.
    destruct (negb (so_mutex_lock h =? 0)).
    { injection H as <- _. destruct Hin. }
    destruct ((_ <? 0) || (NUM_ENTRIES <=? _)); [discriminate|].
    assert (Hlog : log = [St_entry
                            (if td_i td + 1 =? NUM_ENTRIES then 0
                             else td_i td + 1)
                            (mk_entry off err t);
                          St_i (if td_i td + 1 =? NUM_ENTRIES then 0
                                else td_i td + 1)]).
    { destruct (negb (so_mutex_unlock h =? 0)); injection H as <- _;
        reflexivity. }
    subst log. destruct Hin as [Hin|[Hin|[]]]; [|discriminate].
    injection Hin as _ <-. split; [reflexivity|].
    destruct asof; [congruence|exact Et]. }
  destruct Hen as (t & -> & Ht). cbn [offset error as_of].
  split; [reflexivity|]. split; [reflexivity|].
  split; [intros t' ->; exact Ht|].
  split.
  - intros ->. eapply read_clock_valid. exact Ht.
  - unfold entry_valid. cbn [offset error as_of].
    rewrite !andb_true_iff. split.
    + intros [[Ho He] Ha]. repeat split; try assumption.
      intros t' ->. subst. exact Ha.
    + intros (Ho & He & Ha). repeat split; try assumption.
      destruct asof as [t'|].
      * subst. apply Ha. reflexivity.
      * eapply read_clock_valid. exact Ht.
Qed.

Lemma set_offset_publishes_arguments_witness :
  let en := mk_entry (mk_stamp 5 0) (mk_stamp 0 1000000) (mk_stamp 200 0) in
  byztime_set_offset Scenario.host_set Scenario.td_fresh
                     (mk_stamp 5 0) (mk_stamp 0 1000000)
                     (Some (mk_stamp 200 0))
  = Some ([St_entry 1 en; St_i 1], Ok tt)
  /\ offset en = mk_stamp 5 0.
Proof.
  cbv zeta. split; [reflexivity|].
  exact (proj1 (set_offset_publishes_arguments
                  Scenario.host_set Scenario.td_fresh
                  (mk_stamp 5 0) (mk_stamp 0 1000000) (Some (mk_stamp 200 0))
                  _ (Ok tt) 1 _ eq_refl (or_introl eq_refl))).
Defined.

(** C4 as stated fails: an offset of 0 s and -1 ns is published as it
    is, and the next read refuses the entry. *)
Lemma set_offset_publishes_denormalized :
  let off := mk_stamp 0 (-1) in
  let en := mk_entry off (mk_stamp 0 0) (mk_stamp 0 0) in
  let td := Scenario.td_fresh in
  byztime_set_offset Scenario.host_set td off (mk_stamp 0 0)
                     (Some (mk_stamp 0 0))
  = Some ([St_entry 1 en; St_i 1], Ok tt)
  /\ nanoseconds (offset (entry_at (apply_stores td [St_entry 1 en; St_i 1]) 1))
     = -1
  /\ entry_valid en = false
  /\ ~ (0 <= nanoseconds (offset en) < billion)
  /\ get_and_validate_entry (Scenario.host_read (0, 0))
                            (apply_stores td [St_entry 1 en; St_i 1])
     = Err EPROTO.
Proof.
  cbv zeta. repeat split; try reflexivity.
  cbn [offset nanoseconds]. lia.
Qed.

(** ** The codecs of magic and era *)

Lemma lor_disjoint_add a b n :
  0 <= n -> 0 <= a < 2 ^ n -> Z.lor a (b * 2 ^ n) = a + b * 2 ^ n.
Proof.
  intros Hn Ha.
  assert (Hl : Z.land a (b * 2 ^ n) = 0).
  { rewrite <- (Z.mod_small a (2 ^ n)) by assumption.
    rewrite <- Z.land_ones by assumption.
    rewrite <- Z.land_assoc, (Z.land_comm (Z.ones n)).
    rewrite Z.land_ones by assumption.
    rewrite Z.mod_mul by lia. apply Z.land_0_r. }
  pose proof (Z.add_lor_land a (b * 2 ^ n)) as H. rewrite Hl in H. lia.
Qed.

Lemma is_byte_range b : is_byte b = true -> 0 <= b < 256.
Proof. unfold is_byte. rewrite andb_true_iff, Z.leb_le, Z.ltb_lt. tauto. Qed.

(** Taking apart the word built from four bytes gives the bytes back. *)
Lemma word_bytes_bytes_word b0 b1 b2 b3 :
  is_byte b0 = true -> is_byte b1 = true ->
  is_byte b2 = true -> is_byte b3 = true ->
  word_bytes (bytes_word b0 b1 b2 b3) = [b0; b1; b2; b3].
Proof.
  intros H0 H1 H2 H3.
  apply is_byte_range in H0, H1, H2, H3.
  unfold word_bytes, bytes_word.
  rewrite !Z.shiftl_mul_pow2 by lia.
  assert (E1 : Int64.to_uint32 (b1 * 2 ^ 8) = b1 * 2 ^ 8).
  { unfold Int64.to_uint32. apply Z.mod_small. lia. }
  assert (E2 : Int64.to_uint32 (b2 * 2 ^ 16) = b2 * 2 ^ 16).
  { unfold Int64.to_uint32. apply Z.mod_small. lia. }
  assert (E3 : Int64.to_uint32 (b3 * 2 ^ 24) = b3 * 2 ^ 24).
  { unfold Int64.to_uint32. apply Z.mod_small. lia. }
  rewrite E1, E2, E3.
  rewrite (lor_disjoint_add b0 b1 8) by lia.
  rewrite (lor_disjoint_add _ b2 16) by lia.
  rewrite (lor_disjoint_add _ b3 24) by lia.
  set (w := b0 + b1 * 2 ^ 8 + b2 * 2 ^ 16 + b3 * 2 ^ 24).
  assert (Hw : Int64.to_uint32 (Int64.to_int32 (Int64.to_uint32 w)) = w).
  { unfold Int64.to_uint32, Int64.to_int32. subst w.
    change (2 ^ 8) with 256. change (2 ^ 16) with 65536.
    change (2 ^ 24) with 16777216. change (2 ^ 32) with 4294967296.
    change (2 ^ 31) with 2147483648.
    Z.to_euclidean_division_equations. lia. }
  rewrite Hw.
  change 255 with (Z.ones 8).
  rewrite !Z.land_ones, !Z.shiftr_div_pow2 by lia.
  subst w.
  change (2 ^ 8) with 256. change (2 ^ 16) with 65536.
  change (2 ^ 24) with 16777216.
  repeat f_equal; Z.to_euclidean_division_equations; lia.
Qed.

Lemma load_bytes_words (n : nat) : forall bytes,
  length bytes = (4 * n)%nat -> forallb is_byte bytes = true ->
  flat_map word_bytes (bytes_words bytes) = bytes.
Proof.
  induction n as [|n IH]; intros bytes Hlen Hb.
  - destruct bytes; [reflexivity|discriminate].
  - destruct bytes as [|b0 [|b1 [|b2 [|b3 rest]]]]; cbn [length] in Hlen;
      try lia.
    cbn [forallb] in Hb.
    apply andb_true_iff in Hb as [B0 Hb]. apply andb_true_iff in Hb as [B1 Hb].
    apply andb_true_iff in Hb as [B2 Hb]. apply andb_true_iff in Hb as [B3 Hb].
    cbn [bytes_words flat_map].
    rewrite word_bytes_bytes_word by assumption.
    rewrite IH; [reflexivity| |assumption]. lia.
Qed.

Lemma bytes_eqb_eq a b : bytes_eqb a b = true <-> a = b.
Proof.
  revert b. induction a as [|x a IH]; intros [|y b]; cbn [bytes_eqb];
    try (split; [discriminate|discriminate]); [tauto|].
  rewrite andb_true_iff, Z.eqb_eq, IH. split.
  - intros [-> ->]. reflexivity.
  - intros [= -> ->]. auto.
Qed.

Lemma bytes_eqb_neq a b : bytes_eqb a b = false <-> a <> b.
Proof.
  rewrite <- bytes_eqb_eq. destruct (bytes_eqb a b); split; congruence.
Qed.

(** ** Opening the region *)

Ltac explode_list l :=
  repeat (destruct l as [|? l]; [discriminate|]);
  destruct l; [|discriminate].

(** C3, as the code has it: when [byztime_open_rw] maps a region that
    lacks the magic, with the local clock at 100 s, the real clock at
    1700000000 s and every host call succeeding, it makes the stores of
    the first-time initialization in this order: [real_offset] zeroed,
    entry 0, the index 0, the four era words, the three magic words;
    the re-initialization of the mutex, which every [byztime_open_rw]
    does, follows. Entry 0 then has offset 1699999900 s, error
    [INT64_MAX >> 1 = 2^62 - 1] s and [as_of] 100 s, [real_offset] is
    zero, the index is 0, and the region decodes to the expected era and
    to the magic. *)
Theorem open_rw_first_time_init td era ctx0 fd_ lock_fd_ :
  load_magic (td_magic td) <> expected_magic ->
  length (td_magic td) = 3%nat ->
  length (td_era td) = 4%nat ->
  length (td_entries td) = Z.to_nat NUM_ENTRIES ->
  length era = Z.to_nat BYZTIME_ERA_LEN ->
  forallb is_byte era = true ->
  let h := mk_open_rw_host 0 (Ok era) (Some ctx0) (Ok fd_) (Ok lock_fd_) 0 0
                           (Ok (100, 0)) (Ok (1700000000, 0)) 0 0 0 in
  let entry := mk_entry (mk_stamp 1699999900 0) (mk_stamp (2 ^ 62 - 1) 0)
                        (mk_stamp 100 0) in
  let log := [St_real_offset (mk_stamp 0 0); St_entry 0 entry; St_i 0]
               ++ store_era era ++ store_magic expected_magic
               ++ [St_mutex_init] in
  let td' := apply_stores td log in
  (exists ctx, byztime_open_rw h td = (log, Ok ctx)
               /\ drift_ppb ctx = default_drift_ppb /\ slew_mode ctx = false)
  /\ entry_at td' 0 = entry
  /\ td_real_offset td' = mk_stamp 0 0
  /\ td_i td' = 0
  /\ load_era (td_era td') = era
  /\ load_magic (td_magic td') = expected_magic.
Proof.
  intros Hmagic Lm Le Ln Lera Hbytes h entry log td'.
  split.
  - unfold byztime_open_rw, h.
    cbn [rw_init_sigbus_key rw_clock_era rw_malloc rw_open rw_acquire_lock
         rw_fallocate rw_mmap rw_mutexattr_init rw_mutexattr_setpshared
         rw_mutex_init Z.eqb Z.ltb Z.compare negb].
    apply bytes_eqb_neq in Hmagic. rewrite Hmagic. cbn [negb orb].
    unfold first_time_init.
    cbn [rw_monotonic_raw rw_realtime].
    change (byztime_get_local_time (Ok (100, 0))) with (Ok (mk_stamp 100 0)).
    change (byztime_get_real_time (Ok (1700000000, 0)))
      with (Ok (mk_stamp 1700000000 0)).
    cbv iota beta.
    change (byztime_stamp_sub (mk_stamp 1700000000 0) (mk_stamp 100 0))
      with (mk_stamp 1699999900 0, false).
    cbv iota beta.
    eexists. split.
    { unfold log. cbn [app]. rewrite <- app_assoc. reflexivity. }
    split; reflexivity.
  - assert (Hera : load_era (bytes_words era) = era).
    { apply (load_bytes_words 4); assumption. }
    destruct td as [m i e ro mu en]. cbn [td_magic td_era td_entries] in *.
    explode_list m. explode_list e. explode_list era.
    subst td' log.
    unfold apply_stores, store_era, store_magic.
    cbn [bytes_words imap app fold_left apply_store td_magic td_i td_era
         td_real_offset td_mutex td_entries expected_magic].
    unfold entry_at. cbn [td_entries td_real_offset td_i td_era td_magic].
    split; [apply list_lookup_total_insert_eq; rewrite Ln;
            unfold NUM_ENTRIES; lia|].
    split; [reflexivity|]. split; [reflexivity|].
    split; [exact Hera|]. reflexivity.
Qed.

(** The new file of the scenario, in era A. *)
Lemma open_rw_first_time_init_witness :
  entry_at Scenario.td_fresh 0
  = mk_entry (mk_stamp 1699999900 0) (mk_stamp 4611686018427387903 0)
             (mk_stamp 100 0)
  /\ load_era (td_era Scenario.td_fresh) = Scenario.era_A
  /\ load_magic (td_magic Scenario.td_fresh) = expected_magic.
Proof.
  pose proof (open_rw_first_time_init
                zero_timedata Scenario.era_A Scenario.blank_ctx 3 4
                ltac:(vm_compute; discriminate)
                eq_refl eq_refl eq_refl eq_refl eq_refl)
    as (_ & He & _ & _ & Hera & Hm).
  split; [exact He|]. split; [exact Hera | exact Hm].
Defined.

(** C3 as stated fails: the error of entry 0 is [2^62 - 1] s, not
    [2^62] s. *)
Lemma open_rw_unknown_error_is_not_2_62 :
  let h := Scenario.host_rw Scenario.era_A (100, 0) (1700000000, 0) in
  let td' := apply_stores zero_timedata
               (fst (byztime_open_rw h zero_timedata)) in
  error (entry_at td' 0) = mk_stamp (2 ^ 62 - 1) 0
  /\ error (entry_at td' 0) <> mk_stamp (2 ^ 62) 0.
Proof.
  cbv zeta. split; [reflexivity|]. vm_compute. discriminate.
Qed.

(** C8, as the code has it: with a valid magic and a stored era that
    differs from the current clock era, [byztime_open_ro] (the file
    opened, large enough and mapped) fails with ECONNREFUSED. That is
    the only place where a consumer looks at the era: the read path
    never loads it, so the results of [byztime_get_offset] and
    [byztime_get_global_time] are the same whatever era the region
    holds. *)
Theorem era_checked_on_open_only td era_now ctx0 fd_ st_size :
  sizeof_timedata <= st_size ->
  load_magic (td_magic td) = expected_magic ->
  load_era (td_era td) <> era_now ->
  byztime_open_ro
    (mk_open_ro_host 0 (Ok era_now) (Some ctx0) (Ok fd_) (Ok st_size)
                     0 0 false) td
  = Err ECONNREFUSED
  /\ forall rh ctx words,
       get_and_validate_entry rh (with_era td words)
       = get_and_validate_entry rh td
       /\ byztime_get_offset rh (with_era td words) ctx
          = byztime_get_offset rh td ctx
       /\ byztime_get_global_time rh (with_era td words) ctx
          = byztime_get_global_time rh td ctx.
Proof.
  intros Hsize Hmagic Hera. split.
  - unfold byztime_open_ro.
    cbn [ro_init_sigbus_key ro_clock_era ro_malloc ro_open ro_fstat ro_mmap
         ro_setspecific_ret ro_page_fault Z.eqb negb].
    apply Z.ltb_ge in Hsize. rewrite Hsize.
    apply bytes_eqb_eq in Hmagic. rewrite Hmagic.
    apply bytes_eqb_neq in Hera. rewrite Hera. reflexivity.
  - intros rh ctx words. repeat split.
Qed.

(** A consumer of era B opening the region written in era A. *)
Lemma era_checked_on_open_only_witness :
  byztime_open_ro (Scenario.host_ro Scenario.era_B) Scenario.td_published
  = Err ECONNREFUSED.
Proof.
  refine (proj1 (era_checked_on_open_only
                   Scenario.td_published Scenario.era_B Scenario.blank_ctx
                   5 4096 _ eq_refl _)).
  - vm_compute. discriminate.
  - vm_compute. discriminate.
Defined.

(** C8 as stated fails: a consumer opens the region in era A; the
    stored era then changes to era B, which does not match the current
    one; the next [byztime_get_offset] still returns 0 with the bounds
    of the entry, not ECONNREFUSED. *)
Lemma read_ignores_era_mismatch :
  let td := with_era Scenario.td_published (bytes_words Scenario.era_B) in
  byztime_open_ro (Scenario.host_ro Scenario.era_A) Scenario.td_published
  = Ok Scenario.consumer_ctx
  /\ load_era (td_era td) <> Scenario.era_A
  /\ byztime_open_ro (Scenario.host_ro Scenario.era_A) td = Err ECONNREFUSED
  /\ snd (byztime_get_offset (Scenario.host_read (201, 0)) td
                             Scenario.consumer_ctx)
     = Returned (mk_reading (mk_stamp 201 0) (mk_stamp 4 998500000)
                            (mk_stamp 5 0) (mk_stamp 5 1500000))
  /\ snd (byztime_get_offset (Scenario.host_read (201, 0)) td
                             Scenario.consumer_ctx)
     <> Failed ECONNREFUSED.
Proof.
  cbv zeta. split; [reflexivity|]. split; [vm_compute; discriminate|].
  split; [reflexivity|]. split; [reflexivity|]. vm_compute. discriminate.
Qed.

(** ** Estimates *)

(** C2, as the code has it: a consumer in step mode with drift 250000
    ppb that reads the entry (offset 5 s, error 1 ms, as of 200 s) at
    local time 201 s computes the age 1 s, scales it by [2 * drift] to
    0.5 ms, gets the error 1.5 ms, and returns min = (4, 998500000),
    est = (5, 0), max = (5, 1500000). *)
Theorem get_offset_step_bounds h td ctx :
  get_and_validate_entry h td
  = Ok (mk_entry (mk_stamp 5 0) (mk_stamp 0 1000000) (mk_stamp 200 0)) ->
  monotonic_raw h = Ok (201, 0) ->
  drift_ppb ctx = 250000 ->
  slew_mode ctx = false ->
  byztime_stamp_sub (mk_stamp 201 0) (mk_stamp 200 0) = (mk_stamp 1 0, false)
  /\ byztime_stamp_scale (mk_stamp 1 0) (2 * 250000)
     = Some (mk_stamp 0 500000, false)
  /\ byztime_stamp_add (mk_stamp 0 1000000) (mk_stamp 0 500000)
     = (mk_stamp 0 1500000, false)
  /\ byztime_get_offset h td ctx
     = (ctx, Returned (mk_reading (mk_stamp 201 0) (mk_stamp 4 998500000)
                                  (mk_stamp 5 0) (mk_stamp 5 1500000))).
Proof.
  intros He Hc Hd Hm.
  do 3 (split; [reflexivity|]).
  unfold byztime_get_offset, byztime_get_local_time_and_offset.
  rewrite Hd, Hm.
  change (Int64.mul_overflow 250000 2) with (500000, false).
  cbv iota beta.
  unfold entry_and_bounds. rewrite He, Hc. reflexivity.
Qed.

Lemma get_offset_step_bounds_witness :
  byztime_get_offset (Scenario.host_read (201, 0)) Scenario.td_published
                     Scenario.consumer_ctx
  = (Scenario.consumer_ctx,
     Returned (mk_reading (mk_stamp 201 0) (mk_stamp 4 998500000)
                          (mk_stamp 5 0) (mk_stamp 5 1500000))).
Proof.
  refine (proj2 (proj2 (proj2 (get_offset_step_bounds
    (Scenario.host_read (201, 0)) Scenario.td_published Scenario.consumer_ctx
    eq_refl eq_refl eq_refl eq_refl)))).
Defined.

(** C2 as stated fails: the lower bound is 5 s - 1.5 ms, that is
    (4, 998500000), not (4, 999998500). *)
Lemma get_offset_min_is_not_999998500 :
  let r := snd (byztime_get_offset (Scenario.host_read (201, 0))
                                   Scenario.td_published
                                   Scenario.consumer_ctx) in
  r = Returned (mk_reading (mk_stamp 201 0) (mk_stamp 4 998500000)
                           (mk_stamp 5 0) (mk_stamp 5 1500000))
  /\ r <> Returned (mk_reading (mk_stamp 201 0) (mk_stamp 4 999998500)
                               (mk_stamp 5 0) (mk_stamp 5 1500000)).
Proof.
  cbv zeta. split; [reflexivity|]. vm_compute. discriminate.
Qed.

Lemma checked_returned r v : checked r = Returned v -> r = (v, false).
Proof.
  unfold checked. destruct r as [x o]. cbn [fst snd].
  destruct o; [discriminate|]. intros [= ->]. reflexivity.
Qed.

(** With a maximum rate of one billion ppb the upper bound computed from
    the global time since the previous read is that time itself, so the
    excess branch is never taken: the estimate is the raw offset, or the
    raw offset raised by the shortfall against the minimum rate. *)
Lemma slew_upper_clamp_inert ctx my_local_time entry est :
  max_rate_ppb ctx = billion ->
  slew_estimate ctx my_local_time entry = Returned est ->
  est = offset entry
  \/ exists g mn shortfall,
       byztime_stamp_cmp g mn < 0
       /\ byztime_stamp_sub mn g = (shortfall, false)
       /\ byztime_stamp_add (offset entry) shortfall = (est, false).
Proof.
  intros Hmax H. unfold slew_estimate in H. rewrite Hmax in H.
  apply bind_returned in H as (l & _ & H).
  apply bind_returned in H as (o & _ & H).
  apply bind_returned in H as (g & Hg & H).
  apply bind_returned in H as (mn & _ & H).
  replace (billion <? Int64.INT64_MAX) with true in H by reflexivity.
  apply checked_returned in Hg.
  destruct (add_result_wf l o) as [Hr Hv]. rewrite Hg in Hr, Hv.
  cbn [fst] in Hr, Hv.
  rewrite (scale_billion_normalized g Hr Hv) in H.
  cbn [checked_scale checked fst snd mbind outcome_bind] in H.
  destruct (Z.ltb_spec (byztime_stamp_cmp g mn) 0) as [Hc|Hc].
  - right. apply bind_returned in H as (sf & Hsf & H).
    apply checked_returned in Hsf, H. eauto 6.
  - left. rewrite cmp_refl in H. cbn [Z.ltb Z.compare] in H. congruence.
Qed.

(** C1, on the code: in slew mode with minimum rate 0 and maximum rate
    one billion ppb, after a first read at local time 0 s of an entry of
    offset 0 s, the second read at local time 1 s of an entry of offset
    10 s is not clamped. The bound is taken from the global time since
    the previous read (11 s) and not from the local time (1 s), so that
    with rate 1.0 the bound equals the advance itself:
    [byztime_get_offset] emits the raw offset 10 s, and
    [byztime_get_global_time] the estimate 11 s, 11 s after the previous
    estimate while the local clock advanced by 1 s. *)
Theorem slew_clamp_scales_global_time :
  let ctx0 := Scenario.slewing_ctx in
  let ctx1 := Scenario.after_first_read in
  let h2 := Scenario.host_read (1, 0) in
  (slew_mode ctx0 = true /\ slew_have_prev ctx0 = false
   /\ min_rate_ppb ctx0 = 0 /\ max_rate_ppb ctx0 = billion)
  /\ byztime_get_global_time (Scenario.host_read (0, 0))
                             Scenario.td_offset_0 ctx0
     = (ctx1, Returned (mk_reading (mk_stamp 0 0) (mk_stamp 0 0)
                                   (mk_stamp 0 0) (mk_stamp 0 0)))
  /\ (slew_have_prev ctx1 = true /\ prev_local_time ctx1 = mk_stamp 0 0
      /\ prev_offset ctx1 = mk_stamp 0 0)
  /\ get_and_validate_entry h2 Scenario.td_offset_10
     = Ok (mk_entry (mk_stamp 10 0) (mk_stamp 0 0) (mk_stamp 0 0))
  /\ snd (byztime_get_offset h2 Scenario.td_offset_10 ctx1)
     = Returned (mk_reading (mk_stamp 1 0) (mk_stamp 9 999500000)
                            (mk_stamp 10 0) (mk_stamp 10 500000))
  /\ snd (byztime_get_global_time h2 Scenario.td_offset_10 ctx1)
     = Returned (mk_reading (mk_stamp 1 0) (mk_stamp 10 999500000)
                            (mk_stamp 11 0) (mk_stamp 11 500000))
  /\ byztime_stamp_sub (mk_stamp 11 0) (mk_stamp 0 0) = (mk_stamp 11 0, false)
  /\ byztime_stamp_sub (mk_stamp 1 0) (mk_stamp 0 0) = (mk_stamp 1 0, false)
  /\ byztime_stamp_scale (mk_stamp 1 0) billion = Some (mk_stamp 1 0, false)
  /\ byztime_stamp_cmp (mk_stamp 11 0) (mk_stamp 1 0) = 1.
Proof.
  cbv zeta. repeat split; vm_compute; reflexivity.
Qed.

(** * Further properties *)

(** ** Stamps as numbers of nanoseconds *)

Lemma wrap_add_l x y : Int64.wrap (Int64.wrap x + y) = Int64.wrap (x + y).
Proof. int64_consts. Z.to_euclidean_division_equations. lia. Qed.

Lemma wrap_add_r x y : Int64.wrap (x + Int64.wrap y) = Int64.wrap (x + y).
Proof. int64_consts. Z.to_euclidean_division_equations. lia. Qed.

Lemma wrap_sub_l x y : Int64.wrap (Int64.wrap x - y) = Int64.wrap (x - y).
Proof. int64_consts. Z.to_euclidean_division_equations. lia. Qed.

Lemma wrap_sub_r x y : Int64.wrap (x - Int64.wrap y) = Int64.wrap (x - y).
Proof. int64_consts. Z.to_euclidean_division_equations. lia. Qed.

Lemma wrap_add3 x y c :
  Int64.wrap (Int64.wrap (Int64.wrap x + Int64.wrap y) + c)
  = Int64.wrap (x + y + c).
Proof. int64_consts. Z.to_euclidean_division_equations. lia. Qed.

Lemma wrap_sub3 x y c :
  Int64.wrap (Int64.wrap (Int64.wrap x - Int64.wrap y) + c)
  = Int64.wrap (x - y + c).
Proof. int64_consts. Z.to_euclidean_division_equations. lia. Qed.

Lemma value_div s : stamp_value s / billion = seconds s + nanoseconds s / billion.
Proof.
  unfold stamp_value. rewrite Z.div_add_l by (unfold billion; lia). reflexivity.
Qed.

Lemma value_mod s : stamp_value s mod billion = nanoseconds s mod billion.
Proof.
  unfold stamp_value. rewrite Z.add_comm, Z.mod_add by (unfold billion; lia).
  reflexivity.
Qed.

(** [byztime_stamp_normalize] on numbers. *)
Lemma normalize_value s :
  Int64.in_range (seconds s) = true ->
  byztime_stamp_normalize s
  = (mk_stamp (Int64.wrap (stamp_value s / billion))
              (stamp_value s mod billion),
     negb (Int64.in_range (stamp_value s / billion))).
Proof.
  intros Hs. rewrite normalize_floor, value_div, value_mod by assumption.
  reflexivity.
Qed.

Lemma value_normalized q r :
  0 <= r < billion -> stamp_value (mk_stamp q r) / billion = q
                      /\ stamp_value (mk_stamp q r) mod billion = r.
Proof.
  intros Hr. rewrite value_div, value_mod. cbn [seconds nanoseconds].
  rewrite Z.div_small, Z.mod_small by assumption. lia.
Qed.

Lemma div_mod_value v : v = (v / billion) * billion + v mod billion.
Proof. pose proof (Z.div_mod v billion). unfold billion in *. lia. Qed.

(** X1: [byztime_stamp_normalize] of a stamp with 64-bit seconds: the
    result's nanoseconds are in [0, 10^9) and equal the stamp's
    nanosecond count modulo 10^9, its seconds are the count divided
    by 10^9 (rounding down) wrapped to 64 bits, overflow is reported
    exactly when that quotient does not fit in 64 bits, without
    overflow the count is unchanged, and normalizing again changes
    nothing. *)
Theorem normalize_exact s :
  Int64.in_range (seconds s) = true ->
  let n := fst (byztime_stamp_normalize s) in
  let overflowed := snd (byztime_stamp_normalize s) in
  (0 <= nanoseconds n < billion)
  /\ seconds n = Int64.wrap (stamp_value s / billion)
  /\ nanoseconds n = stamp_value s mod billion
  /\ (overflowed = false <-> Int64.in_range (stamp_value s / billion) = true)
  /\ (overflowed = false ->
      stamp_value n = stamp_value s /\ Int64.in_range (seconds n) = true)
  /\ byztime_stamp_normalize n = (n, false).
Proof.
  intros Hs n o. subst n o. rewrite normalize_value by assumption.
  cbn [fst snd seconds nanoseconds].
  assert (Hm : 0 <= stamp_value s mod billion < billion)
    by (apply Z.mod_pos_bound; reflexivity).
  split; [exact Hm|]. split; [reflexivity|]. split; [reflexivity|].
  split; [apply negb_false_iff|]. split.
  - intros Hr. apply negb_false_iff in Hr. rewrite wrap_in_range by assumption.
    split; [|assumption].
    unfold stamp_value at 1. cbn [seconds nanoseconds].
    symmetry. apply div_mod_value.
  - apply normalize_in_place. unfold nanoseconds_valid. cbn [nanoseconds].
    apply andb_true_iff. rewrite Z.leb_le, Z.ltb_lt. exact Hm.
Qed.

(** The stamp (3, -7) normalizes to (2, 999999993), the same number of
    nanoseconds. *)
Lemma normalize_exact_witness :
  let s := mk_stamp 3 (-7) in
  let n := fst (byztime_stamp_normalize s) in
  nanoseconds n = 999999993
  /\ stamp_value n = stamp_value s
  /\ byztime_stamp_normalize n = (n, false).
Proof.
  intros s n.
  pose proof (normalize_exact s eq_refl) as (_ & _ & Hn & _ & Hv & Hi).
  split; [exact Hn|]. split; [exact (proj1 (Hv eq_refl)) | exact Hi].
Defined.

(** [byztime_stamp_add] on numbers: the sum wrapped to 64-bit seconds,
    and the flag. *)
Lemma add_value a b :
  Int64.in_range (seconds a) = true -> Int64.in_range (seconds b) = true ->
  let va := stamp_value a in
  let vb := stamp_value b in
  byztime_stamp_add a b
  = (mk_stamp (Int64.wrap ((va + vb) / billion)) ((va + vb) mod billion),
     negb (Int64.in_range (va / billion) && Int64.in_range (vb / billion)
           && Int64.in_range (va / billion + vb / billion)
           && Int64.in_range ((va + vb) / billion))).
Proof.
  intros Ha Hb va vb. unfold byztime_stamp_add.
  rewrite (normalize_value a Ha), (normalize_value b Hb).
  fold va vb. cbn [seconds nanoseconds].
  unfold Int64.add_overflow.
  rewrite normalize_floor by apply wrap_is_in_range.
  cbn [seconds nanoseconds].
  assert (Hma : 0 <= va mod billion < billion)
    by (apply Z.mod_pos_bound; reflexivity).
  assert (Hmb : 0 <= vb mod billion < billion)
    by (apply Z.mod_pos_bound; reflexivity).
  assert (Hw : Int64.wrap (va mod billion + vb mod billion)
               = va mod billion + vb mod billion).
  { apply wrap_in_range, in_range_iff. unfold billion in *. lia. }
  rewrite Hw.
  assert (Hd : (va + vb) / billion
               = va / billion + vb / billion
                 + (va mod billion + vb mod billion) / billion).
  { clear. unfold billion. Z.to_euclidean_division_equations. lia. }
  assert (Hm : (va + vb) mod billion
               = (va mod billion + vb mod billion) mod billion).
  { clear. unfold billion. Z.to_euclidean_division_equations. lia. }
  rewrite wrap_add3, <- Hd, <- Hm.
  f_equal.
  destruct (Int64.in_range (va / billion)) eqn:E1; [|reflexivity].
  destruct (Int64.in_range (vb / billion)) eqn:E2; [|reflexivity].
  rewrite !wrap_in_range by assumption.
  destruct (Int64.in_range (va / billion + vb / billion)) eqn:E3;
    [|reflexivity].
  rewrite wrap_in_range by assumption. rewrite <- Hd. reflexivity.
Qed.

Lemma sub_value a b :
  Int64.in_range (seconds a) = true -> Int64.in_range (seconds b) = true ->
  let va := stamp_value a in
  let vb := stamp_value b in
  byztime_stamp_sub a b
  = (mk_stamp (Int64.wrap ((va - vb) / billion)) ((va - vb) mod billion),
     negb (Int64.in_range (va / billion) && Int64.in_range (vb / billion)
           && Int64.in_range (va / billion - vb / billion)
           && Int64.in_range ((va - vb) / billion))).
Proof.
  intros Ha Hb va vb. unfold byztime_stamp_sub.
  rewrite (normalize_value a Ha), (normalize_value b Hb).
  fold va vb. cbn [seconds nanoseconds].
  unfold Int64.sub_overflow.
  rewrite normalize_floor by apply wrap_is_in_range.
  cbn [seconds nanoseconds].
  assert (Hma : 0 <= va mod billion < billion)
    by (apply Z.mod_pos_bound; reflexivity).
  assert (Hmb : 0 <= vb mod billion < billion)
    by (apply Z.mod_pos_bound; reflexivity).
  assert (Hw : Int64.wrap (va mod billion - vb mod billion)
               = va mod billion - vb mod billion).
  { apply wrap_in_range, in_range_iff. unfold billion in *. lia. }
  rewrite Hw.
  assert (Hd : (va - vb) / billion
               = va / billion - vb / billion
                 + (va mod billion - vb mod billion) / billion).
  { clear. unfold billion. Z.to_euclidean_division_equations. lia. }
  assert (Hm : (va - vb) mod billion
               = (va mod billion - vb mod billion) mod billion).
  { clear. unfold billion. Z.to_euclidean_division_equations. lia. }
  rewrite wrap_sub3, <- Hd, <- Hm.
  f_equal.
  destruct (Int64.in_range (va / billion)) eqn:E1; [|reflexivity].
  destruct (Int64.in_range (vb / billion)) eqn:E2; [|reflexivity].
  rewrite !wrap_in_range by assumption.
  destruct (Int64.in_range (va / billion - vb / billion)) eqn:E3;
    [|reflexivity].
  rewrite wrap_in_range by assumption. rewrite <- Hd. reflexivity.
Qed.

Lemma add_exact a b s :
  Int64.in_range (seconds a) = true -> Int64.in_range (seconds b) = true ->
  byztime_stamp_add a b = (s, false) ->
  stamp_value s = stamp_value a + stamp_value b
  /\ nanoseconds_valid s = true /\ Int64.in_range (seconds s) = true
  /\ Int64.in_range (stamp_value a / billion) = true
  /\ Int64.in_range (stamp_value b / billion) = true.
Proof.
  intros Ha Hb H. rewrite (add_value a b Ha Hb) in H. cbv zeta in H.
  injection H as Hs Hf. apply negb_false_iff in Hf.
  rewrite !andb_true_iff in Hf. destruct Hf as [[[F1 F2] F3] F4].
  subst s. rewrite wrap_in_range by assumption.
  assert (Hm : 0 <= (stamp_value a + stamp_value b) mod billion < billion)
    by (apply Z.mod_pos_bound; reflexivity).
  repeat split; try assumption.
  - unfold stamp_value at 1. cbn [seconds nanoseconds].
    symmetry. apply div_mod_value.
  - unfold nanoseconds_valid. cbn [nanoseconds].
    apply andb_true_iff. rewrite Z.leb_le, Z.ltb_lt. exact Hm.
Qed.

Lemma sub_exact a b s :
  Int64.in_range (seconds a) = true -> Int64.in_range (seconds b) = true ->
  byztime_stamp_sub a b = (s, false) ->
  stamp_value s = stamp_value a - stamp_value b
  /\ nanoseconds_valid s = true /\ Int64.in_range (seconds s) = true
  /\ Int64.in_range (stamp_value a / billion) = true
  /\ Int64.in_range (stamp_value b / billion) = true.
Proof.
  intros Ha Hb H. rewrite (sub_value a b Ha Hb) in H. cbv zeta in H.
  injection H as Hs Hf. apply negb_false_iff in Hf.
  rewrite !andb_true_iff in Hf. destruct Hf as [[[F1 F2] F3] F4].
  subst s. rewrite wrap_in_range by assumption.
  assert (Hm : 0 <= (stamp_value a - stamp_value b) mod billion < billion)
    by (apply Z.mod_pos_bound; reflexivity).
  repeat split; try assumption.
  - unfold stamp_value at 1. cbn [seconds nanoseconds].
    symmetry. apply div_mod_value.
  - unfold nanoseconds_valid. cbn [nanoseconds].
    apply andb_true_iff. rewrite Z.leb_le, Z.ltb_lt. exact Hm.
Qed.

Lemma cmp_value a b :
  Int64.in_range (seconds a) = true -> Int64.in_range (seconds b) = true ->
  Int64.in_range (stamp_value a / billion) = true ->
  Int64.in_range (stamp_value b / billion) = true ->
  byztime_stamp_cmp a b
  = match stamp_value a ?= stamp_value b with
    | Lt => -1
    | Eq => 0
    | Gt => 1
    end.
Proof.
  intros Ha Hb Ra Rb. unfold byztime_stamp_cmp.
  rewrite (normalize_value a Ha), (normalize_value b Hb).
  cbn [fst seconds nanoseconds]. rewrite !wrap_in_range by assumption.
  pose proof (div_mod_value (stamp_value a)) as Da.
  pose proof (div_mod_value (stamp_value b)) as Db.
  assert (Hma : 0 <= stamp_value a mod billion < billion)
    by (apply Z.mod_pos_bound; reflexivity).
  assert (Hmb : 0 <= stamp_value b mod billion < billion)
    by (apply Z.mod_pos_bound; reflexivity).
  clear Ha Hb Ra Rb.
  set (va := stamp_value a) in *. set (vb := stamp_value b) in *.
  set (qa := va / billion) in *. set (qb := vb / billion) in *.
  set (ra := va mod billion) in *. set (rb := vb mod billion) in *.
  clearbody qa qb ra rb va vb. unfold billion in *.
  destruct (Z.ltb_spec qa qb); [destruct (Z.compare_spec va vb); lia|].
  destruct (Z.ltb_spec qb qa); [destruct (Z.compare_spec va vb); lia|].
  destruct (Z.ltb_spec ra rb); [destruct (Z.compare_spec va vb); lia|].
  destruct (Z.ltb_spec rb ra); destruct (Z.compare_spec va vb); lia.
Qed.

(** ** Halving *)

Lemma land_1_mod z : Z.land z 1 = z mod 2.
Proof. change 1 with (Z.ones 1). rewrite Z.land_ones by lia. reflexivity. Qed.

Lemma land_3_mod z : Z.land z 3 = z mod 4.
Proof. change 3 with (Z.ones 2). rewrite Z.land_ones by lia. reflexivity. Qed.

(** X2: [byztime_stamp_halve], for nanoseconds of magnitude at most
    2^{62}: twice the result differs from the argument by 0 when the
    nanoseconds are even, by -1 ns when they are 1 modulo 4, and when
    they are 3 modulo 4 by +1 ns if they are positive and by -3 ns if
    they are negative; an odd non-negative nanoseconds field gives an
    even one (ties go to even); and for nanoseconds in [0, 10^9) the
    result's nanoseconds are in [0, 10^9], equal to 10^9 exactly
    when the seconds are odd and the nanoseconds are 999999999. *)
Theorem halve_rounding s :
  -4611686018427387904 <= nanoseconds s <= 4611686018427387904 ->
  let h := byztime_stamp_halve s in
  let ns := nanoseconds s in
  2 * stamp_value h - stamp_value s
  = (if ns mod 4 =? 3 then (if 0 <? ns then 1 else -3)
     else if ns mod 4 =? 1 then -1 else 0)
  /\ (0 <= ns -> Z.odd ns = true -> Z.even (nanoseconds h) = true)
  /\ (0 <= ns < billion ->
      0 <= nanoseconds h <= billion
      /\ (nanoseconds h = billion
          <-> Z.odd (seconds s) = true /\ ns = 999999999)).
Proof.
  intros Hr h ns. subst h ns. destruct s as [sec ns].
  cbn [nanoseconds seconds] in *.
  unfold byztime_stamp_halve, stamp_value. cbn [seconds nanoseconds].
  rewrite land_1_mod, land_3_mod, !Z.shiftr_div_pow2 by lia.
  change (2 ^ 1) with 2.
  assert (Hw1 : Int64.wrap (ns / 2 + 500000000) = ns / 2 + 500000000).
  { apply wrap_in_range, in_range_iff.
    Z.to_euclidean_division_equations. lia. }
  rewrite Hw1.
  set (n2 := if negb (sec mod 2 =? 0) then ns / 2 + 500000000 else ns / 2).
  assert (Hn2 : n2 = ns / 2 + (sec mod 2) * 500000000).
  { subst n2. destruct (Z.eqb_spec (sec mod 2) 0) as [E|E]; cbn [negb].
    - rewrite E. lia.
    - assert (sec mod 2 = 1) by (Z.to_euclidean_division_equations; lia).
      lia. }
  assert (Hw2 : Int64.wrap (n2 + 1) = n2 + 1).
  { apply wrap_in_range, in_range_iff. rewrite Hn2.
    Z.to_euclidean_division_equations. lia. }
  assert (Hw3 : Int64.wrap (n2 - 1) = n2 - 1).
  { apply wrap_in_range, in_range_iff. rewrite Hn2.
    Z.to_euclidean_division_equations. lia. }
  rewrite Hw2, Hw3. clearbody n2. subst n2. clear Hw1 Hw2 Hw3.
  rewrite !Zodd_mod, Zeven_mod.
  unfold billion.
  destruct (Z.eqb_spec (ns mod 4) 3) as [E3|E3].
  - destruct (Z.ltb_spec 0 ns) as [Hp|Hp].
    + split; [Z.to_euclidean_division_equations; lia|].
      split.
      * intros _ _. rewrite Z.eqb_eq. Z.to_euclidean_division_equations. lia.
      * intros Hb. split; [Z.to_euclidean_division_equations; lia|].
        rewrite Z.eqb_eq. Z.to_euclidean_division_equations. lia.
    + split; [Z.to_euclidean_division_equations; lia|].
      split.
      * intros H0. assert (ns = 0) by lia. subst ns. discriminate.
      * intros Hb. assert (ns = 0) by lia. subst ns. discriminate.
  - destruct (Z.eqb_spec (ns mod 4) 1) as [E1|E1].
    + split; [Z.to_euclidean_division_equations; lia|].
      split.
      * intros _ _. rewrite Z.eqb_eq. Z.to_euclidean_division_equations. lia.
      * intros Hb. split; [Z.to_euclidean_division_equations; lia|].
        rewrite Z.eqb_eq. Z.to_euclidean_division_equations. lia.
    + split; [Z.to_euclidean_division_equations; lia|].
      split.
      * intros _ Ho. apply Z.eqb_eq in Ho. exfalso.
        Z.to_euclidean_division_equations. lia.
      * intros Hb. split; [Z.to_euclidean_division_equations; lia|].
        rewrite Z.eqb_eq. Z.to_euclidean_division_equations. lia.
Qed.

(** Halving (1, 999999999) gives (0, 1000000000): half a nanosecond
    more than the exact half, with the nanoseconds at one billion. *)
Lemma halve_rounding_witness :
  let s := mk_stamp 1 999999999 in
  let h := byztime_stamp_halve s in
  2 * stamp_value h - stamp_value s = 1 /\ nanoseconds h = billion.
Proof.
  intros s h.
  pose proof (halve_rounding s ltac:(cbn; lia)) as (Hv & _ & Hb).
  split; [exact Hv|].
  apply (proj2 (Hb ltac:(cbn; unfold billion; lia))).
  split; reflexivity.
Defined.

(** ** Scaling down *)

Lemma round_residue_nonneg nsec residue :
  0 <= residue < 1000000000 ->
  -9000000000000000000 <= nsec <= 9000000000000000000 ->
  exists d, round_residue nsec residue = nsec + d
            /\ (d = 0 \/ d = 1)
            /\ -500000000 <= d * 1000000000 - residue <= 500000000
            /\ (residue = 500000000 -> (nsec + d) mod 2 = 0).
Proof.
  intros Hres Hn. unfold round_residue.
  change (Z.shiftr billion 1) with 500000000.
  change (- (500000000)) with (-500000000).
  rewrite land_1_mod.
  assert (Hw : Int64.wrap (nsec + 1) = nsec + 1).
  { apply wrap_in_range, in_range_iff. lia. }
  rewrite Hw.
  assert (Hlow : (residue <? -500000000)
                 || (residue =? -500000000) && negb (nsec mod 2 =? 0)
                 = false).
  { destruct (Z.ltb_spec residue (-500000000)); [lia|].
    destruct (Z.eqb_spec residue (-500000000)); [lia|]. reflexivity. }
  rewrite Hlow.
  assert (Hpar : nsec mod 2 = 0 \/ nsec mod 2 = 1)
    by (clear; Z.to_euclidean_division_equations; lia).
  destruct (Z.ltb_spec 500000000 residue) as [H1|H1]; cbn [orb].
  - exists 1. split; [reflexivity|]. split; [auto|]. split; lia.
  - destruct (Z.eqb_spec residue 500000000) as [H2|H2]; cbn [andb orb].
    + destruct (Z.eqb_spec (nsec mod 2) 0) as [H3|H3]; cbn [negb].
      * exists 0. split; [lia|]. split; [auto|]. split; [lia|].
        intros _. rewrite Z.add_0_r. exact H3.
      * exists 1. split; [reflexivity|]. split; [auto|]. split; [lia|].
        intros _. revert H3 Hpar. clear.
        Z.to_euclidean_division_equations. lia.
    + exists 0. split; [lia|]. split; [auto|]. split; lia.
Qed.

Lemma downscale_value sec ns ppb :
  Int64.in_range sec = true -> 0 <= ns < billion -> 0 <= ppb <= billion ->
  exists p,
    byztime_stamp_downscale (mk_stamp sec ns) ppb = Some (p, false)
    /\ nanoseconds_valid p = true /\ Int64.in_range (seconds p) = true
    /\ -500000000 <= billion * stamp_value p
                     - ppb * stamp_value (mk_stamp sec ns) <= 500000000
    /\ (Z.abs (billion * stamp_value p - ppb * stamp_value (mk_stamp sec ns))
        = 500000000 -> Z.even (nanoseconds p) = true).
Proof.
  intros Hs Hn Hp. unfold byztime_stamp_downscale.
  rewrite normalize_in_place.
  2:{ unfold nanoseconds_valid. cbn [nanoseconds]. apply andb_true_iff.
      rewrite Z.leb_le, Z.ltb_lt. exact Hn. }
  cbn [seconds nanoseconds].
  replace (negb ((0 <=? ppb) && (ppb <=? billion))) with false.
  2:{ symmetry. apply negb_false_iff, andb_true_iff.
      rewrite !Z.leb_le. exact Hp. }
  apply in_range_iff in Hs. unfold stamp_value. cbn [seconds nanoseconds].
  unfold billion in *.
  assert (HS : sec = 1000000000 * (sec `quot` 1000000000)
                     + sec `rem` 1000000000
               /\ (0 <= sec -> 0 <= sec `rem` 1000000000 < 1000000000
                               /\ 0 <= sec `quot` 1000000000)
               /\ (sec <= 0 -> -1000000000 < sec `rem` 1000000000 <= 0
                               /\ sec `quot` 1000000000 <= 0)).
  { Z.to_euclidean_division_equations. lia. }
  set (g := sec `quot` 1000000000) in *.
  set (r := sec `rem` 1000000000) in *.
  clearbody g r. destruct HS as (HS & Hpos & Hneg).
  assert (Hid : ppb * (sec * 1000000000 + ns)
                = 1000000000 * (1000000000 * (g * ppb) + r * ppb) + ns * ppb).
  { subst sec. ring. }
  assert (Hgp : (0 <= g -> 0 <= g * ppb <= g * 1000000000)
                /\ (g <= 0 -> g * 1000000000 <= g * ppb <= 0)) by nia.
  assert (Hrp : (0 <= r -> 0 <= r * ppb <= r * 1000000000)
                /\ (r <= 0 -> r * 1000000000 <= r * ppb <= 0)) by nia.
  assert (Hnp : 0 <= ns * ppb <= ns * 1000000000
                /\ (ppb = 1000000000 \/ ns * ppb <= ns * 999999999)) by nia.
  assert (Hres1 : ppb = 1000000000 -> (ns * ppb) `rem` 1000000000 = 0).
  { intros ->. apply Z.rem_mul. lia. }
  set (gp := g * ppb) in *. set (rp := r * ppb) in *.
  set (np := ns * ppb) in *. clearbody gp rp np.
  rewrite (wrap_in_range gp) by (apply in_range_iff; lia).
  rewrite (wrap_in_range rp) by (apply in_range_iff; lia).
  rewrite (wrap_in_range np) by (apply in_range_iff; lia).
  assert (HQ : np = 1000000000 * (np `quot` 1000000000)
                    + np `rem` 1000000000
               /\ 0 <= np `rem` 1000000000 < 1000000000
               /\ 0 <= np `quot` 1000000000).
  { Z.to_euclidean_division_equations. lia. }
  set (q := np `quot` 1000000000) in *.
  set (res := np `rem` 1000000000) in *.
  clearbody q res. destruct HQ as (HQ & Hres & Hq).
  rewrite (wrap_in_range (rp + q)) by (apply in_range_iff; lia).
  destruct (round_residue_nonneg (rp + q) res Hres ltac:(lia))
    as (d & -> & Hd & Hdiff & Heven).
  assert (Hqd : q + d <= 999999999) by lia.
  rewrite normalize_floor by (apply in_range_iff; cbn [seconds]; lia).
  cbn [seconds nanoseconds]. fold billion.
  assert (HF : gp * 1000000000 + (rp + q + d)
               = (gp + (rp + q + d) / billion) * 1000000000
                 + (rp + q + d) mod billion
               /\ 0 <= (rp + q + d) mod billion < 1000000000).
  { unfold billion. Z.to_euclidean_division_equations. lia. }
  set (F := gp + (rp + q + d) / billion) in *.
  set (m := (rp + q + d) mod billion) in *.
  assert (Hmpar : m mod 2 = (rp + q + d) mod 2).
  { subst m. unfold billion. clear. Z.to_euclidean_division_equations. lia. }
  clearbody F m. destruct HF as (HF & Hm).
  assert (HFr : -9223372036854775808 <= F <= 9223372036854775807) by lia.
  replace (Int64.in_range F) with true
    by (symmetry; apply in_range_iff; exact HFr).
  rewrite wrap_in_range by (apply in_range_iff; exact HFr).
  cbn [negb]. eexists. split; [reflexivity|].
  cbn [seconds nanoseconds]. unfold nanoseconds_valid. cbn [nanoseconds].
  split; [apply andb_true_iff; rewrite Z.leb_le, Z.ltb_lt; unfold billion; lia|].
  split; [apply in_range_iff; exact HFr|].
  unfold billion.
  assert (Hval : 1000000000 * (F * 1000000000 + m)
                 - ppb * (sec * 1000000000 + ns)
                 = d * 1000000000 - res) by lia.
  rewrite Hval. split; [exact Hdiff|].
  intros Habs. rewrite Zeven_mod. apply Z.eqb_eq. rewrite Hmpar.
  apply Heven. lia.
Qed.

(** ** The bounds of a read *)

Lemma checked_scale_returned r v :
  checked_scale r = Returned v -> r = Some (v, false).
Proof.
  destruct r as [p|]; cbn [checked_scale]; [|discriminate].
  intros H. apply checked_returned in H. congruence.
Qed.

Lemma entry_and_bounds_inv h td x2 entry lt mn mx :
  entry_and_bounds h td x2 = Returned (entry, lt, mn, mx) ->
  exists age sa en,
    get_and_validate_entry h td = Ok entry
    /\ byztime_get_local_time (monotonic_raw h) = Ok lt
    /\ byztime_stamp_sub lt (as_of entry) = (age, false)
    /\ byztime_stamp_scale age x2 = Some (sa, false)
    /\ byztime_stamp_add (error entry) sa = (en, false)
    /\ byztime_stamp_sub (offset entry) en = (mn, false)
    /\ byztime_stamp_add (offset entry) en = (mx, false).
Proof.
  unfold entry_and_bounds. intros H.
  apply bind_returned in H as (entry' & He & H).
  apply bind_returned in H as (lt' & Hl & H).
  apply bind_returned in H as (age & Hage & H).
  apply bind_returned in H as (sa & Hsa & H).
  apply bind_returned in H as (en & Hen & H).
  apply bind_returned in H as (mn' & Hmn & H).
  apply bind_returned in H as (mx' & Hmx & H).
  injection H as -> -> -> ->.
  apply of_result_returned in He, Hl.
  apply checked_returned in Hage, Hen, Hmn, Hmx.
  apply checked_scale_returned in Hsa.
  exists age, sa, en. auto 10.
Qed.

(** A read that returned, taken apart. *)
Lemma read_returned_inv h td ctx ctx' rd :
  byztime_get_local_time_and_offset h td ctx = (ctx', Returned rd) ->
  exists x2 entry,
    Int64.mul_overflow (drift_ppb ctx) 2 = (x2, false)
    /\ entry_and_bounds h td x2
       = Returned (entry, r_local_time rd, r_min rd, r_max rd)
    /\ (slew_mode ctx = false -> ctx' = ctx /\ r_est rd = offset entry)
    /\ (slew_mode ctx = true ->
        ctx' = mk_ctx (fd ctx) (lock_fd ctx) (drift_ppb ctx)
                      (min_rate_ppb ctx) (max_rate_ppb ctx)
                      (r_local_time rd) (r_est rd) true true
        /\ (slew_have_prev ctx = false -> r_est rd = offset entry)
        /\ (slew_have_prev ctx = true ->
            slew_estimate ctx (r_local_time rd) entry = Returned (r_est rd))).
Proof.
  unfold byztime_get_local_time_and_offset. intros H.
  destruct (Int64.mul_overflow (drift_ppb ctx) 2) as [x2 o].
  destruct o; [discriminate|].
  destruct (entry_and_bounds h td x2) as [[[[entry lt] mn] mx]| e |] eqn:E;
    [|discriminate..].
  exists x2, entry. split; [reflexivity|].
  destruct (slew_mode ctx) eqn:Hm.
  - destruct (slew_have_prev ctx) eqn:Hp.
    + destruct (slew_estimate ctx lt entry) as [est| |] eqn:Es;
        [|discriminate..].
      injection H as <- <-. cbn [r_local_time r_min r_est r_max].
      split; [exact E|]. split; [discriminate|]. intros _.
      split; [reflexivity|]. split; [discriminate|]. intros _. exact Es.
    + injection H as <- <-. cbn [r_local_time r_min r_est r_max].
      split; [exact E|]. split; [discriminate|]. intros _.
      split; [reflexivity|]. split; [reflexivity|]. discriminate.
  - injection H as <- <-. cbn [r_local_time r_min r_est r_max].
    split; [exact E|]. split; [auto|discriminate].
Qed.

Lemma read_ok_entry h td entry :
  get_and_validate_entry h td = Ok entry ->
  entry = entry_at td (td_i td) /\ entry_valid entry = true.
Proof.
  rewrite read_unfold.
  destruct (negb (setspecific_ret h =? 0)); [discriminate|].
  destruct (page_fault h); [discriminate|].
  destruct (negb (index_valid td)); [discriminate|].
  destruct (entry_valid (entry_at td (td_i td))) eqn:E; [|discriminate].
  cbn [negb]. intros [= <-]. auto.
Qed.

(** X3: In step mode a returning [byztime_get_offset] leaves the
    context as it was, its estimate is the offset of the entry read,
    its min and max are the same distance either side of it
    (min + max = 2 est as nanosecond counts), and all three are
    normalized. *)
Theorem step_mode_estimate_is_midpoint h td ctx ctx' rd :
  slew_mode ctx = false ->
  Int64.in_range (seconds (offset (entry_at td (td_i td)))) = true ->
  byztime_get_offset h td ctx = (ctx', Returned rd) ->
  ctx' = ctx
  /\ r_est rd = offset (entry_at td (td_i td))
  /\ stamp_value (r_min rd) + stamp_value (r_max rd)
     = 2 * stamp_value (r_est rd)
  /\ nanoseconds_valid (r_min rd) = true
  /\ nanoseconds_valid (r_est rd) = true
  /\ nanoseconds_valid (r_max rd) = true.
Proof.
  intros Hm Hr H. unfold byztime_get_offset in H.
  apply read_returned_inv in H as (x2 & entry & _ & Hb & Hstep & _).
  destruct (Hstep Hm) as [-> Hest].
  apply entry_and_bounds_inv in Hb
    as (age & sa & en & He & _ & _ & _ & Hen & Hmn & Hmx).
  apply read_ok_entry in He as [-> Hv].
  destruct (add_result_wf (error (entry_at td (td_i td))) sa) as [Hen1 _].
  rewrite Hen in Hen1. cbn [fst] in Hen1.
  apply sub_exact in Hmn as (Vmn & Nmn & _); [|assumption..].
  apply add_exact in Hmx as (Vmx & Nmx & _); [|assumption..].
  split; [reflexivity|]. split; [assumption|]. rewrite Hest.
  split; [lia|]. split; [assumption|]. split; [|assumption].
  unfold entry_valid in Hv. rewrite !andb_true_iff in Hv. tauto.
Qed.

(** The read at local time 201 s of the entry published at 200 s: min
    and max are 1.5 ms either side of the offset 5 s. *)
Lemma step_mode_estimate_is_midpoint_witness :
  let rd := mk_reading (mk_stamp 201 0) (mk_stamp 4 998500000)
                       (mk_stamp 5 0) (mk_stamp 5 1500000) in
  byztime_get_offset (Scenario.host_read (201, 0)) Scenario.td_published
                     Scenario.consumer_ctx
  = (Scenario.consumer_ctx, Returned rd)
  /\ stamp_value (r_min rd) + stamp_value (r_max rd)
     = 2 * stamp_value (r_est rd).
Proof.
  intros rd.
  assert (H : byztime_get_offset (Scenario.host_read (201, 0))
                Scenario.td_published Scenario.consumer_ctx
              = (Scenario.consumer_ctx, Returned rd))
    by (vm_compute; reflexivity).
  split; [exact H|].
  exact (proj1 (proj2 (proj2
    (step_mode_estimate_is_midpoint
       (Scenario.host_read (201, 0)) Scenario.td_published
       Scenario.consumer_ctx Scenario.consumer_ctx rd
       eq_refl eq_refl H)))).
Defined.

(** ** The drift *)

Lemma sub_result_wf a b :
  let d := fst (byztime_stamp_sub a b) in
  Int64.in_range (seconds d) = true /\ nanoseconds_valid d = true.
Proof.
  unfold byztime_stamp_sub.
  destruct (byztime_stamp_normalize a) as [s1 o1].
  destruct (byztime_stamp_normalize b) as [s2 o2].
  unfold Int64.sub_overflow.
  set (raw := mk_stamp (Int64.wrap (seconds s1 - seconds s2))
                       (Int64.wrap (nanoseconds s1 - nanoseconds s2))).
  pose proof (normalize_floor raw (wrap_is_in_range _)) as H1.
  pose proof (normalize_valid raw) as H2.
  destruct (byztime_stamp_normalize raw) as [sum o4].
  cbn [fst] in *. split; [|assumption].
  injection H1 as -> _. apply wrap_is_in_range.
Qed.

Lemma value_zero_normalized p :
  nanoseconds_valid p = true -> stamp_value p = 0 -> p = zerostamp.
Proof.
  destruct p as [sec ns]. unfold nanoseconds_valid, stamp_value, zerostamp.
  cbn [seconds nanoseconds]. rewrite andb_true_iff, Z.leb_le, Z.ltb_lt.
  unfold billion. intros Hv H0.
  assert (sec = 0) by lia. assert (ns = 0) by lia. subst. reflexivity.
Qed.

Lemma valid_range s :
  nanoseconds_valid s = true <-> 0 <= nanoseconds s < billion.
Proof.
  unfold nanoseconds_valid. rewrite andb_true_iff, Z.leb_le, Z.ltb_lt. tauto.
Qed.

Lemma scale_zero s :
  Int64.in_range (seconds s) = true -> nanoseconds_valid s = true ->
  byztime_stamp_scale s 0 = Some (zerostamp, false).
Proof.
  intros Hs Hv. destruct s as [sec ns]. cbn [seconds] in Hs.
  apply valid_range in Hv. cbn [nanoseconds] in Hv.
  unfold byztime_stamp_scale.
  replace ((0 <=? 0) && (0 <=? billion)) with true by reflexivity.
  destruct (downscale_value sec ns 0 Hs Hv ltac:(unfold billion; lia))
    as (p & Hp & Hpv & _ & Hd & _).
  rewrite Hp. f_equal. f_equal.
  apply value_zero_normalized; [assumption|]. unfold billion in Hd. lia.
Qed.

Lemma add_zero_r s :
  Int64.in_range (seconds s) = true -> nanoseconds_valid s = true ->
  byztime_stamp_add s zerostamp = (s, false).
Proof.
  intros Hs Hv. unfold byztime_stamp_add.
  rewrite (normalize_in_place s Hv).
  rewrite (normalize_in_place zerostamp eq_refl).
  unfold Int64.add_overflow. cbn [seconds nanoseconds zerostamp].
  rewrite !Z.add_0_r, Hs.
  apply valid_range in Hv as Hv'.
  rewrite (wrap_in_range (seconds s)) by assumption.
  rewrite (wrap_in_range (nanoseconds s))
    by (apply in_range_iff; unfold billion in *; lia).
  destruct s as [sec ns]. cbn [seconds nanoseconds] in *.
  rewrite normalize_in_place by exact Hv. reflexivity.
Qed.

(** X4: With [drift_ppb = 0] the age of the entry does not widen the
    bounds: a returning [byztime_get_offset] gives
    min = offset - error and max = offset + error of the entry read,
    both computed without overflow. *)
Theorem zero_drift_bounds h td ctx ctx' rd :
  drift_ppb ctx = 0 ->
  Int64.in_range (seconds (error (entry_at td (td_i td)))) = true ->
  byztime_get_offset h td ctx = (ctx', Returned rd) ->
  let e := entry_at td (td_i td) in
  byztime_stamp_sub (offset e) (error e) = (r_min rd, false)
  /\ byztime_stamp_add (offset e) (error e) = (r_max rd, false).
Proof.
  intros Hd Hr H e. unfold byztime_get_offset in H.
  apply read_returned_inv in H as (x2 & entry & Hx & Hb & _).
  rewrite Hd in Hx. injection Hx as <-.
  change (Int64.wrap (0 * 2)) with 0 in Hb.
  apply entry_and_bounds_inv in Hb
    as (age & sa & en & He & _ & Hage & Hsa & Hen & Hmn & Hmx).
  apply read_ok_entry in He as [-> Hv]. fold e in Hv, Hage, Hen, Hmn, Hmx.
  destruct (sub_result_wf (r_local_time rd) (as_of e)) as [A1 A2].
  rewrite Hage in A1, A2. cbn [fst] in A1, A2.
  rewrite (scale_zero age A1 A2) in Hsa. injection Hsa as <-.
  assert (Hve : nanoseconds_valid (error e) = true).
  { unfold entry_valid in Hv. rewrite !andb_true_iff in Hv. tauto. }
  rewrite (add_zero_r (error e) Hr Hve) in Hen. injection Hen as <-.
  auto.
Qed.

(** With the drift set to 0 the same read gives offset - error and
    offset + error. *)
Lemma zero_drift_bounds_witness :
  let ctx := byztime_set_drift Scenario.consumer_ctx 0 in
  let rd := mk_reading (mk_stamp 201 0) (mk_stamp 4 999000000)
                       (mk_stamp 5 0) (mk_stamp 5 1000000) in
  byztime_stamp_sub (mk_stamp 5 0) (mk_stamp 0 1000000) = (r_min rd, false)
  /\ byztime_stamp_add (mk_stamp 5 0) (mk_stamp 0 1000000)
     = (r_max rd, false).
Proof.
  intros ctx rd.
  exact (zero_drift_bounds
           (Scenario.host_read (201, 0)) Scenario.td_published ctx ctx rd
           eq_refl eq_refl ltac:(vm_compute; reflexivity)).
Defined.

(** X5: [byztime_set_drift] accepts any value and
    [byztime_get_drift] returns it; if twice the drift does not fit in
    64 bits, every [byztime_get_offset] and [byztime_get_global_time]
    fails with EOVERFLOW before it reads the region or the clock, and
    leaves the context as it was. *)
Theorem drift_overflow_fails_every_read h td ctx d :
  Int64.in_range (d * 2) = false ->
  let ctx1 := byztime_set_drift ctx d in
  byztime_get_drift ctx1 = d
  /\ byztime_get_offset h td ctx1 = (ctx1, Failed EOVERFLOW)
  /\ byztime_get_global_time h td ctx1 = (ctx1, Failed EOVERFLOW).
Proof.
  intros Ho ctx1. split; [reflexivity|].
  assert (H : byztime_get_local_time_and_offset h td ctx1
              = (ctx1, Failed EOVERFLOW)).
  { unfold byztime_get_local_time_and_offset, Int64.mul_overflow.
    cbn [drift_ppb byztime_set_drift ctx1]. rewrite Ho. reflexivity. }
  split; [exact H|]. unfold byztime_get_global_time. rewrite H. reflexivity.
Qed.

(** A drift of INT64_MAX is accepted and makes the next read fail. *)
Lemma drift_overflow_fails_every_read_witness :
  let ctx1 := byztime_set_drift Scenario.consumer_ctx Int64.INT64_MAX in
  byztime_get_drift ctx1 = Int64.INT64_MAX
  /\ byztime_get_offset (Scenario.host_read (201, 0)) Scenario.td_published
                        ctx1
     = (ctx1, Failed EOVERFLOW)
  /\ byztime_get_global_time (Scenario.host_read (201, 0))
                             Scenario.td_published ctx1
     = (ctx1, Failed EOVERFLOW).
Proof.
  exact (drift_overflow_fails_every_read
           (Scenario.host_read (201, 0)) Scenario.td_published
           Scenario.consumer_ctx Int64.INT64_MAX eq_refl).
Defined.

(** ** Slewing *)

Lemma read_clock_int64 c t :
  clock_int64 c = true -> read_clock c = Ok t ->
  Int64.in_range (seconds t) = true.
Proof.
  unfold clock_int64, read_clock. destruct c as [[tv_sec tv_nsec]|e];
    [|discriminate].
  intros Hr. pose proof (normalize_floor (mk_stamp tv_sec tv_nsec) Hr) as Hn.
  destruct (byztime_stamp_normalize _) as [t' o].
  destruct o; [discriminate|]. intros [= <-].
  injection Hn as -> _. apply wrap_is_in_range.
Qed.

Lemma get_global_time_returned h td ctx ctx' rd :
  byztime_get_global_time h td ctx = (ctx', Returned rd) ->
  exists rdo,
    byztime_get_local_time_and_offset h td ctx = (ctx', Returned rdo)
    /\ r_local_time rd = r_local_time rdo
    /\ byztime_stamp_add (r_min rdo) (r_local_time rdo) = (r_min rd, false)
    /\ byztime_stamp_add (r_est rdo) (r_local_time rdo) = (r_est rd, false)
    /\ byztime_stamp_add (r_max rdo) (r_local_time rdo) = (r_max rd, false).
Proof.
  unfold byztime_get_global_time.
  destruct (byztime_get_local_time_and_offset h td ctx) as [c r].
  intros [= -> H].
  apply bind_returned in H as (rdo & -> & H).
  apply bind_returned in H as (mn & Hmn & H).
  apply bind_returned in H as (es & Hes & H).
  apply bind_returned in H as (mx & Hmx & H).
  injection H as <-. cbn [r_local_time r_min r_est r_max].
  apply checked_returned in Hmn, Hes, Hmx.
  exists rdo. auto 10.
Qed.

Lemma normalized_div s :
  nanoseconds_valid s = true -> stamp_value s / billion = seconds s.
Proof.
  intros Hv. apply valid_range in Hv. rewrite value_div.
  rewrite Z.div_small by assumption. lia.
Qed.

Lemma slew_estimate_wf ctx lt entry est :
  Int64.in_range (seconds (offset entry)) = true ->
  slew_estimate ctx lt entry = Returned est ->
  Int64.in_range (seconds est) = true.
Proof.
  intros Ho H. unfold slew_estimate in H.
  apply bind_returned in H as (l & _ & H).
  apply bind_returned in H as (o & _ & H).
  apply bind_returned in H as (g & _ & H).
  apply bind_returned in H as (mn & _ & H).
  apply bind_returned in H as (mx & _ & H).
  destruct (byztime_stamp_cmp g mn <? 0).
  - apply bind_returned in H as (sf & _ & H). apply checked_returned in H.
    destruct (add_result_wf (offset entry) sf) as [W _].
    rewrite H in W. exact W.
  - destruct mx as [mxg|]; [|congruence].
    destruct (0 <? byztime_stamp_cmp g mxg); [|congruence].
    apply bind_returned in H as (ex & _ & H). apply checked_returned in H.
    destruct (sub_result_wf (offset entry) ex) as [W _].
    rewrite H in W. exact W.
Qed.

(** X6: After [byztime_slew] with [min_rate_ppb = 0] and
    [max_rate_ppb = INT64_MAX], once a previous read is recorded, the
    global time estimate of a returning [byztime_get_global_time] is
    never before the previous estimate
    (prev_offset + prev_local_time), whatever the provider published
    in between; the context stays in slew mode with the same rates and
    records exactly the estimate returned. *)
Theorem slew_never_runs_backwards h td ctx ctx' rd :
  slew_mode ctx = true -> slew_have_prev ctx = true ->
  min_rate_ppb ctx = 0 -> max_rate_ppb ctx = Int64.INT64_MAX ->
  Int64.in_range (seconds (prev_local_time ctx)) = true ->
  Int64.in_range (seconds (prev_offset ctx)) = true ->
  Int64.in_range (seconds (offset (entry_at td (td_i td)))) = true ->
  clock_int64 (monotonic_raw h) = true ->
  byztime_get_global_time h td ctx = (ctx', Returned rd) ->
  stamp_value (prev_offset ctx) + stamp_value (prev_local_time ctx)
  <= stamp_value (r_est rd)
  /\ slew_mode ctx' = true /\ slew_have_prev ctx' = true
  /\ min_rate_ppb ctx' = 0 /\ max_rate_ppb ctx' = Int64.INT64_MAX
  /\ stamp_value (prev_offset ctx') + stamp_value (prev_local_time ctx')
     = stamp_value (r_est rd)
  /\ Int64.in_range (seconds (prev_local_time ctx')) = true
  /\ Int64.in_range (seconds (prev_offset ctx')) = true.
Proof.
  intros Hm Hp Hmin Hmax Rpl Rpo Roff Hclk H.
  apply get_global_time_returned in H as (rdo & H & Hlt & _ & Hest & _).
  apply read_returned_inv in H as (x2 & entry & _ & Hb & _ & Hslew).
  destruct (Hslew Hm) as (Hctx & _ & Hse). specialize (Hse Hp).
  apply entry_and_bounds_inv in Hb as (_ & _ & _ & He & Hl & _).
  apply read_ok_entry in He as [-> _].
  set (e := entry_at td (td_i td)) in *.
  set (lt := r_local_time rdo) in *.
  assert (Rlt : Int64.in_range (seconds lt) = true)
    by (eapply read_clock_int64; eassumption).
  assert (Rest : Int64.in_range (seconds (r_est rdo)) = true)
    by (eapply slew_estimate_wf; eassumption).
  apply add_exact in Hest as (Vg & _); [|assumption..].
  assert (Vest : stamp_value (prev_offset ctx)
                 + stamp_value (prev_local_time ctx)
                 <= stamp_value (r_est rdo) + stamp_value lt).
  { unfold slew_estimate in Hse. rewrite Hmin, Hmax in Hse.
    rewrite Z.ltb_irrefl in Hse.
    apply bind_returned in Hse as (l & Hl1 & Hse).
    apply bind_returned in Hse as (o & Ho1 & Hse).
    apply bind_returned in Hse as (g & Hg1 & Hse).
    apply bind_returned in Hse as (mn & Hmn & Hse).
    apply checked_returned in Hl1, Ho1, Hg1.
    apply checked_scale_returned in Hmn.
    cbn [mbind outcome_bind] in Hse.
    apply sub_exact in Hl1 as (Vl & _ & Rl & _); [|assumption..].
    apply sub_exact in Ho1 as (Vo & _ & Ro & _); [|assumption..].
    apply add_exact in Hg1 as (Vgg & Ng & Rg & _); [|assumption..].
    rewrite (scale_zero g Rg Ng) in Hmn. injection Hmn as <-.
    rewrite (cmp_value g zerostamp) in Hse;
      [|assumption|reflexivity
       |rewrite (normalized_div g Ng); assumption|reflexivity].
    change (stamp_value zerostamp) with 0 in Hse.
    destruct (Z.compare_spec (stamp_value g) 0) as [E|E|E];
      cbn [Z.ltb Z.compare] in Hse.
    - injection Hse as <-. lia.
    - apply bind_returned in Hse as (sf & Hsf & Hse).
      apply checked_returned in Hsf, Hse.
      apply sub_exact in Hsf as (Vsf & _ & Rsf & _);
        [|reflexivity|assumption].
      apply add_exact in Hse as (Ves & _); [|assumption..].
      change (stamp_value zerostamp) with 0 in Vsf. lia.
    - injection Hse as <-. lia. }
  rewrite Hctx. cbn [slew_mode slew_have_prev min_rate_ppb max_rate_ppb
                     prev_offset prev_local_time].
  repeat split; try assumption; lia.
Qed.

(** The previous read gave global time 20 s; the provider then
    publishes offset 10 s and the next read, at local time 1 s, still
    gives 20 s and not 11 s. *)
Lemma slew_never_runs_backwards_witness :
  let ctx := mk_ctx 5 (-1) default_drift_ppb 0 Int64.INT64_MAX
                    (mk_stamp 0 0) (mk_stamp 20 0) true true in
  let ctx' := mk_ctx 5 (-1) default_drift_ppb 0 Int64.INT64_MAX
                     (mk_stamp 1 0) (mk_stamp 19 0) true true in
  let rd := mk_reading (mk_stamp 1 0) (mk_stamp 10 999500000)
                       (mk_stamp 20 0) (mk_stamp 11 500000) in
  byztime_get_global_time (Scenario.host_read (1, 0)) Scenario.td_offset_10
                          ctx
  = (ctx', Returned rd)
  /\ stamp_value (prev_offset ctx) + stamp_value (prev_local_time ctx)
     <= stamp_value (r_est rd).
Proof.
  intros ctx ctx' rd.
  assert (H : byztime_get_global_time (Scenario.host_read (1, 0))
                Scenario.td_offset_10 ctx = (ctx', Returned rd))
    by (vm_compute; reflexivity).
  split; [exact H|].
  exact (proj1
    (slew_never_runs_backwards
       (Scenario.host_read (1, 0)) Scenario.td_offset_10 ctx ctx' rd
       eq_refl eq_refl eq_refl eq_refl eq_refl eq_refl eq_refl eq_refl H)).
Defined.

(** ** Global time *)

Lemma reading_wf h td ctx ctx' rdo :
  Int64.in_range (seconds (offset (entry_at td (td_i td)))) = true ->
  clock_int64 (monotonic_raw h) = true ->
  byztime_get_local_time_and_offset h td ctx = (ctx', Returned rdo) ->
  Int64.in_range (seconds (r_local_time rdo)) = true
  /\ Int64.in_range (seconds (r_min rdo)) = true
  /\ Int64.in_range (seconds (r_est rdo)) = true
  /\ Int64.in_range (seconds (r_max rdo)) = true.
Proof.
  intros Ro Hc H.
  apply read_returned_inv in H as (x2 & entry & _ & Hb & Hstep & Hslew).
  apply entry_and_bounds_inv in Hb
    as (age & sa & en & He & Hl & _ & _ & _ & Hmn & Hmx).
  apply read_ok_entry in He as [-> _].
  split; [eapply read_clock_int64; eassumption|].
  split.
  { destruct (sub_result_wf (offset (entry_at td (td_i td))) en) as [W _].
    rewrite Hmn in W. exact W. }
  split.
  2:{ destruct (add_result_wf (offset (entry_at td (td_i td))) en) as [W _].
      rewrite Hmx in W. exact W. }
  destruct (slew_mode ctx) eqn:Hm.
  - destruct (Hslew eq_refl) as (_ & Hnp & Hp).
    destruct (slew_have_prev ctx) eqn:Hhp.
    + eapply slew_estimate_wf; [exact Ro|]. apply Hp. reflexivity.
    + rewrite (Hnp eq_refl). exact Ro.
  - destruct (Hstep eq_refl) as [_ ->]. exact Ro.
Qed.

(** X7: [byztime_get_global_time] against [byztime_get_offset] on
    the same region, context and host: they leave the same context,
    the one fails with the error of the other, and when
    [byztime_get_offset] returns, [byztime_get_global_time] either
    fails with EOVERFLOW or returns the same local time and
    min, est, max each equal to the offset's plus the local time. *)
Theorem global_time_is_offset_plus_local_time h td ctx :
  Int64.in_range (seconds (offset (entry_at td (td_i td)))) = true ->
  clock_int64 (monotonic_raw h) = true ->
  let ro := byztime_get_offset h td ctx in
  let rg := byztime_get_global_time h td ctx in
  fst rg = fst ro
  /\ (forall e, snd ro = Failed e -> snd rg = Failed e)
  /\ (forall rdo, snd ro = Returned rdo ->
        snd rg = Failed EOVERFLOW
        \/ exists rdg,
             snd rg = Returned rdg
             /\ r_local_time rdg = r_local_time rdo
             /\ stamp_value (r_min rdg)
                = stamp_value (r_min rdo) + stamp_value (r_local_time rdo)
             /\ stamp_value (r_est rdg)
                = stamp_value (r_est rdo) + stamp_value (r_local_time rdo)
             /\ stamp_value (r_max rdg)
                = stamp_value (r_max rdo) + stamp_value (r_local_time rdo)).
Proof.
  intros Ro Hc ro rg. subst ro rg.
  unfold byztime_get_offset, byztime_get_global_time.
  destruct (byztime_get_local_time_and_offset h td ctx) as [c r] eqn:E.
  cbn [fst snd]. split; [reflexivity|]. split.
  - intros e ->. reflexivity.
  - intros rdo ->. cbn [mbind outcome_bind].
    destruct (reading_wf h td ctx c rdo Ro Hc E) as (Wl & Wmn & Wes & Wmx).
    unfold checked.
    destruct (byztime_stamp_add (r_min rdo) (r_local_time rdo))
      as [mn [|]] eqn:Emn; cbn [fst snd]; [left; reflexivity|].
    destruct (byztime_stamp_add (r_est rdo) (r_local_time rdo))
      as [es [|]] eqn:Ees; cbn [fst snd]; [left; reflexivity|].
    destruct (byztime_stamp_add (r_max rdo) (r_local_time rdo))
      as [mx [|]] eqn:Emx; cbn [fst snd]; [left; reflexivity|].
    right. eexists. split; [reflexivity|].
    cbn [r_local_time r_min r_est r_max].
    apply add_exact in Emn as (Vmn & _); [|assumption..].
    apply add_exact in Ees as (Ves & _); [|assumption..].
    apply add_exact in Emx as (Vmx & _); [|assumption..].
    auto.
Qed.

(** The read of the published entry through both entry points. *)
Lemma global_time_is_offset_plus_local_time_witness :
  fst (byztime_get_global_time (Scenario.host_read (201, 0))
         Scenario.td_published Scenario.consumer_ctx)
  = fst (byztime_get_offset (Scenario.host_read (201, 0))
           Scenario.td_published Scenario.consumer_ctx).
Proof.
  exact (proj1
    (global_time_is_offset_plus_local_time
       (Scenario.host_read (201, 0)) Scenario.td_published
       Scenario.consumer_ctx eq_refl eq_refl)).
Defined.

(** X8: [byztime_step] always succeeds, and [byztime_slew] does not
    depend on the mode the context was in: calling it directly or
    after [byztime_step] gives the same result and, on success, the
    same context, with no previous read recorded; on failure the
    context is the one passed. *)
Theorem slew_again_is_step_then_slew h td ctx min_rate max_rate maxerror :
  let direct := byztime_slew h td ctx min_rate max_rate maxerror in
  let stepped := byztime_slew h td (fst (byztime_step ctx))
                              min_rate max_rate maxerror in
  snd (byztime_step ctx) = Ok tt
  /\ snd stepped = snd direct
  /\ (snd direct = Ok tt ->
      fst stepped = fst direct /\ slew_have_prev (fst direct) = false)
  /\ (forall e, snd direct = Err e -> fst direct = ctx).
Proof.
  cbv zeta. unfold byztime_slew, byztime_step. cbn [fst snd].
  split; [reflexivity|].
  destruct (get_and_validate_entry h td) as [entry|e]; cbn [fst snd].
  - destruct (match maxerror with
              | Some m => 0 <? byztime_stamp_cmp (error entry) m
              | None => false
              end); cbn [fst snd].
    + split; [reflexivity|]. split; [discriminate|]. auto.
    + split; [reflexivity|]. split; [auto|discriminate].
  - split; [reflexivity|]. split; [discriminate|]. auto.
Qed.

(** ** The era words and the two initializations *)

(** The stores of [store_era] into a region with four era words. *)
Lemma apply_store_era td era :
  length (td_era td) = 4%nat -> length era = Z.to_nat BYZTIME_ERA_LEN ->
  apply_stores td (store_era era)
  = mk_timedata (td_magic td) (td_i td) (bytes_words era)
                (td_real_offset td) (td_mutex td) (td_entries td).
Proof.
  intros Le Lera. destruct td as [m i e ro mu en]. cbn [td_era] in Le.
  explode_list e. explode_list era. reflexivity.
Qed.

Lemma apply_store_magic td :
  length (td_magic td) = 3%nat ->
  apply_stores td (store_magic expected_magic)
  = mk_timedata (bytes_words expected_magic) (td_i td) (td_era td)
                (td_real_offset td) (td_mutex td) (td_entries td).
Proof.
  intros Lm. destruct td as [m i e ro mu en]. cbn [td_magic] in Lm.
  explode_list m. reflexivity.
Qed.

Lemma apply_stores_app td l1 l2 :
  apply_stores td (l1 ++ l2) = apply_stores (apply_stores td l1) l2.
Proof. apply fold_left_app. Qed.

(** X9: [store_era] then [load_era] returns the 16 bytes stored, and
    [store_era] changes nothing but the four era words. *)
Theorem era_codec_round_trip td era :
  length (td_era td) = 4%nat ->
  length era = Z.to_nat BYZTIME_ERA_LEN ->
  forallb is_byte era = true ->
  let td' := apply_stores td (store_era era) in
  load_era (td_era td') = era
  /\ length (td_era td') = 4%nat
  /\ td_magic td' = td_magic td /\ td_i td' = td_i td
  /\ td_real_offset td' = td_real_offset td
  /\ td_entries td' = td_entries td.
Proof.
  intros Le Lera Hb td'. subst td'. rewrite apply_store_era by assumption.
  cbn [td_era td_magic td_i td_real_offset td_entries].
  assert (Hl : load_era (bytes_words era) = era)
    by (apply (load_bytes_words 4); assumption).
  split; [exact Hl|]. split.
  { clear -Lera. explode_list era. reflexivity. }
  repeat split.
Qed.

(** Era A stored into the zeroed region. *)
Lemma era_codec_round_trip_witness :
  load_era (td_era (apply_stores zero_timedata (store_era Scenario.era_A)))
  = Scenario.era_A.
Proof.
  exact (proj1
    (era_codec_round_trip zero_timedata Scenario.era_A
       eq_refl eq_refl eq_refl)).
Defined.

Lemma first_time_init_ok h era log0 :
  first_time_init h era = (log0, Ok tt) ->
  exists lt rt off,
    byztime_get_local_time (rw_monotonic_raw h) = Ok lt
    /\ byztime_get_real_time (rw_realtime h) = Ok rt
    /\ byztime_stamp_sub rt lt = (off, false)
    /\ log0 = [St_real_offset (mk_stamp 0 0);
               St_entry 0 (mk_entry off unknown_error lt); St_i 0]
              ++ store_era era ++ store_magic expected_magic.
Proof.
  unfold first_time_init.
  destruct (byztime_get_local_time _) as [lt|e] eqn:El; [|discriminate].
  destruct (byztime_get_real_time _) as [rt|e] eqn:Er; [|discriminate].
  destruct (byztime_stamp_sub rt lt) as [off o] eqn:Es.
  destruct o; [discriminate|].
  intros [= <-]. exists lt, rt, off. repeat split; assumption.
Qed.

Lemma reboot_init_ok h td era log0 :
  reboot_init h td era = (log0, Ok tt) ->
  exists lt rt g off,
    byztime_get_local_time (rw_monotonic_raw h) = Ok lt
    /\ byztime_get_real_time (rw_realtime h) = Ok rt
    /\ byztime_stamp_add rt (td_real_offset td) = (g, false)
    /\ byztime_stamp_sub g lt = (off, false)
    /\ log0 = [St_entry 0 (mk_entry off unknown_error lt); St_i 0]
              ++ store_era era.
Proof.
  unfold reboot_init.
  destruct (byztime_get_local_time _) as [lt|e] eqn:El; [|discriminate].
  destruct (byztime_get_real_time _) as [rt|e] eqn:Er; [|discriminate].
  destruct (byztime_stamp_add rt _) as [g o1] eqn:Ea.
  destruct o1; [discriminate|].
  destruct (byztime_stamp_sub g lt) as [off o] eqn:Es.
  destruct o; [discriminate|].
  intros [= <-]. exists lt, rt, g, off. repeat split; assumption.
Qed.

(** A [byztime_open_rw] that returned a context, taken apart. *)
Lemma open_rw_ok_inv h td log ctx :
  byztime_open_rw h td = (log, Ok ctx) ->
  exists era log0,
    rw_clock_era h = Ok era
    /\ log = log0 ++ [St_mutex_init]
    /\ drift_ppb ctx = default_drift_ppb /\ slew_mode ctx = false
    /\ (if needs_first_time_init td then first_time_init h era
        else if negb (bytes_eqb (load_era (td_era td)) era)
        then reboot_init h td era
        else ([], Ok tt)) = (log0, Ok tt).
Proof.
  unfold byztime_open_rw, needs_first_time_init.
  destruct (negb (rw_init_sigbus_key h =? 0)); [discriminate|].
  destruct (rw_clock_era h) as [era|e] eqn:Eera; [|discriminate].
  destruct (rw_malloc h) as [ctx0|]; [|discriminate].
  destruct (rw_open h) as [fd_|e]; [|discriminate].
  destruct (rw_acquire_lock h) as [lfd|e]; [|discriminate].
  destruct (rw_fallocate h <? 0); [discriminate|].
  destruct (negb (rw_mmap h =? 0)); [discriminate|].
  match goal with
  | |- context [if ?c then first_time_init h era else ?e] =>
      destruct (if c then first_time_init h era else e) as [log0 r] eqn:Einit
  end.
  destruct r as [[]|e]; [|discriminate].
  destruct (negb (rw_mutexattr_init h =? 0)); [discriminate|].
  destruct (negb (rw_mutexattr_setpshared h =? 0)); [discriminate|].
  destruct (negb (rw_mutex_init h =? 0)); [discriminate|].
  intros [= <- <-]. exists era, log0. repeat split; assumption.
Qed.

Lemma unknown_error_valid : nanoseconds_valid unknown_error = true.
Proof. reflexivity. Qed.

Lemma length_bytes_words_16 era :
  length era = Z.to_nat BYZTIME_ERA_LEN -> length (bytes_words era) = 4%nat.
Proof. intros L. explode_list era. reflexivity. Qed.

(** The region after the stores of an initialization. *)
Lemma apply_init_stores td pre e era tail_magic :
  length (td_era td) = 4%nat -> length (td_magic td) = 3%nat ->
  length era = Z.to_nat BYZTIME_ERA_LEN ->
  pre = [] \/ pre = [St_real_offset (mk_stamp 0 0)] ->
  apply_stores td
    (pre ++ [St_entry 0 e; St_i 0] ++ store_era era
         ++ (if tail_magic : bool then store_magic expected_magic else [])
         ++ [St_mutex_init])
  = mk_timedata
      (if tail_magic then bytes_words expected_magic else td_magic td)
      0 (bytes_words era)
      (match pre with [] => td_real_offset td | _ => mk_stamp 0 0 end)
      true (<[0%nat := e]> (td_entries td)).
Proof.
  intros Le Lm Lera Hpre. destruct td as [m i er ro mu en].
  cbn [td_era td_magic] in *.
  explode_list m. explode_list er. explode_list era.
  destruct Hpre as [-> | ->]; destruct tail_magic; reflexivity.
Qed.

(** ** The region after an open *)

Lemma entry_at_insert_0 td e :
  length (td_entries td) = Z.to_nat NUM_ENTRIES ->
  <[0%nat := e]> (td_entries td) !!! 0%nat = e.
Proof.
  intros L. apply list_lookup_total_insert_eq. rewrite L.
  unfold NUM_ENTRIES. lia.
Qed.

(** [byztime_open_ro] on a region with the magic and the current era,
    when nothing fails on the host. *)
Lemma open_ro_ok td era ctx0 fd_ st_size :
  load_magic (td_magic td) = expected_magic ->
  load_era (td_era td) = era ->
  sizeof_timedata <= st_size ->
  byztime_open_ro
    (mk_open_ro_host 0 (Ok era) (Some ctx0) (Ok fd_) (Ok st_size) 0 0 false)
    td
  = Ok (mk_ctx fd_ (-1) default_drift_ppb
               (min_rate_ppb ctx0) (max_rate_ppb ctx0)
               (prev_local_time ctx0) (prev_offset ctx0)
               false (slew_have_prev ctx0)).
Proof.
  intros Hm He Hst. unfold byztime_open_ro.
  cbn [ro_init_sigbus_key ro_clock_era ro_malloc ro_open ro_fstat ro_mmap
       ro_setspecific_ret ro_page_fault Z.eqb negb].
  apply Z.ltb_ge in Hst. rewrite Hst.
  apply bytes_eqb_eq in Hm, He. rewrite Hm, He. reflexivity.
Qed.

(** The region a successful [byztime_open_rw] leaves. *)
Lemma open_rw_ok_region h td era log ctx :
  length (td_magic td) = 3%nat ->
  length (td_era td) = 4%nat ->
  length (td_entries td) = Z.to_nat NUM_ENTRIES ->
  rw_clock_era h = Ok era ->
  length era = Z.to_nat BYZTIME_ERA_LEN ->
  forallb is_byte era = true ->
  byztime_open_rw h td = (log, Ok ctx) ->
  let td' := apply_stores td log in
  load_magic (td_magic td') = expected_magic
  /\ load_era (td_era td') = era
  /\ index_valid td' = true
  /\ td_mutex td' = true
  /\ length (td_entries td') = Z.to_nat NUM_ENTRIES
  /\ (log <> [St_mutex_init] ->
      td_i td' = 0 /\ entry_valid (entry_at td' 0) = true
      /\ error (entry_at td' 0) = unknown_error).
Proof.
  intros Lm Le Ln Hera Lera Hbytes H td'.
  apply open_rw_ok_inv in H as (era' & log0 & Hera' & -> & Hd & Hs & Hinit).
  rewrite Hera in Hera'. injection Hera' as <-.
  assert (Hlera : load_era (bytes_words era) = era)
    by (apply (load_bytes_words 4); assumption).
  destruct (needs_first_time_init td) eqn:Hfirst.
  - apply first_time_init_ok in Hinit as (lt & rt & off & Hl & Hr & Hsub & ->).
    assert (Htd : td' = mk_timedata (bytes_words expected_magic) 0
                          (bytes_words era) (mk_stamp 0 0) true
                          (<[0%nat := mk_entry off unknown_error lt]>
                             (td_entries td))).
    { subst td'.
      rewrite <- (apply_init_stores td [St_real_offset (mk_stamp 0 0)]
                    (mk_entry off unknown_error lt) era true)
        by (auto; fail).
      f_equal. all: cbn [app]; rewrite <- ?app_assoc; reflexivity. }
    rewrite Htd. cbn [td_magic td_era td_i td_mutex td_entries].
    split; [reflexivity|]. split; [exact Hlera|]. split; [reflexivity|].
    split; [reflexivity|]. split; [rewrite length_insert; exact Ln|].
    intros _. split; [reflexivity|]. unfold entry_at.
    cbn [td_entries Z.to_nat]. rewrite entry_at_insert_0 by assumption.
    split; [|reflexivity]. unfold entry_valid. cbn [offset error as_of].
    destruct (sub_result_wf rt lt) as [_ Vo]. rewrite Hsub in Vo.
    cbn [fst] in Vo. rewrite Vo, (read_clock_valid _ _ Hl). reflexivity.
  - assert (Hmagic : load_magic (td_magic td) = expected_magic
                     /\ index_valid td = true).
    { unfold needs_first_time_init in Hfirst.
      apply orb_false_iff in Hfirst as [Hf1 Hf3].
      apply orb_false_iff in Hf1 as [Hf1 Hf2].
      apply negb_false_iff, bytes_eqb_eq in Hf1. split; [exact Hf1|].
      unfold index_valid. apply andb_true_iff.
      rewrite Z.leb_le, Z.ltb_lt. apply Z.ltb_ge in Hf2.
      apply Z.leb_gt in Hf3. lia. }
    destruct Hmagic as [Hmagic Hidx].
    destruct (negb (bytes_eqb (load_era (td_era td)) era)) eqn:Hmis.
    + apply reboot_init_ok in Hinit
        as (lt & rt & g & off & Hl & Hr & Hadd & Hsub & ->).
      assert (Htd : td' = mk_timedata (td_magic td) 0
                            (bytes_words era) (td_real_offset td) true
                            (<[0%nat := mk_entry off unknown_error lt]>
                               (td_entries td))).
      { subst td'.
        rewrite <- (apply_init_stores td []
                      (mk_entry off unknown_error lt) era false)
          by (auto; fail).
        f_equal. all: cbn [app]; rewrite <- ?app_assoc; reflexivity. }
      rewrite Htd. cbn [td_magic td_era td_i td_mutex td_entries].
      split; [exact Hmagic|]. split; [exact Hlera|]. split; [reflexivity|].
      split; [reflexivity|]. split; [rewrite length_insert; exact Ln|].
      intros _. split; [reflexivity|]. unfold entry_at.
      cbn [td_entries Z.to_nat]. rewrite entry_at_insert_0 by assumption.
      split; [|reflexivity]. unfold entry_valid. cbn [offset error as_of].
      destruct (sub_result_wf g lt) as [_ Vo]. rewrite Hsub in Vo.
      cbn [fst] in Vo. rewrite Vo, (read_clock_valid _ _ Hl). reflexivity.
    + injection Hinit as <-. subst td'. cbn [app apply_stores fold_left].
      cbn [apply_store td_magic td_era td_i td_mutex td_entries].
      apply negb_false_iff, bytes_eqb_eq in Hmis.
      split; [exact Hmagic|]. split; [exact Hmis|]. split; [exact Hidx|].
      split; [reflexivity|]. split; [exact Ln|].
      intros Hne. exfalso. apply Hne. reflexivity.
Qed.

(** X10: Every successful [byztime_open_rw], whatever the region
    held, leaves it with the magic, the current era, an index in
    [0, 62) and the mutex initialized; the context has the default
    drift and is in step mode; when it (re)initialized, the index is 0
    and entry 0 is valid with the unknown error; and a
    [byztime_open_ro] in the same era, on a file large enough,
    succeeds on the region. *)
Theorem open_rw_leaves_region_valid h td era log ctx :
  length (td_magic td) = 3%nat ->
  length (td_era td) = 4%nat ->
  length (td_entries td) = Z.to_nat NUM_ENTRIES ->
  rw_clock_era h = Ok era ->
  length era = Z.to_nat BYZTIME_ERA_LEN ->
  forallb is_byte era = true ->
  byztime_open_rw h td = (log, Ok ctx) ->
  let td' := apply_stores td log in
  load_magic (td_magic td') = expected_magic
  /\ load_era (td_era td') = era
  /\ index_valid td' = true
  /\ td_mutex td' = true
  /\ (drift_ppb ctx = default_drift_ppb /\ slew_mode ctx = false)
  /\ (log <> [St_mutex_init] ->
      td_i td' = 0 /\ entry_valid (entry_at td' 0) = true
      /\ error (entry_at td' 0) = unknown_error)
  /\ forall ctx0 fd_ st_size,
       sizeof_timedata <= st_size ->
       byztime_open_ro
         (mk_open_ro_host 0 (Ok era) (Some ctx0) (Ok fd_) (Ok st_size)
                          0 0 false) td'
       = Ok (mk_ctx fd_ (-1) default_drift_ppb
                    (min_rate_ppb ctx0) (max_rate_ppb ctx0)
                    (prev_local_time ctx0) (prev_offset ctx0)
                    false (slew_have_prev ctx0)).
Proof.
  intros Lm Le Ln Hera Lera Hbytes H td'.
  destruct (open_rw_ok_region h td era log ctx Lm Le Ln Hera Lera Hbytes H)
    as (Hm & He & Hi & Hx & _ & H0).
  fold td' in Hm, He, Hi, Hx, H0.
  apply open_rw_ok_inv in H as (era' & log0 & _ & _ & Hd & Hs & _).
  split; [exact Hm|]. split; [exact He|]. split; [exact Hi|].
  split; [exact Hx|]. split; [auto|]. split; [exact H0|].
  intros ctx0 fd_ st_size Hst. apply open_ro_ok; assumption.
Qed.

(** The first open of a zeroed region in era A, then an open by a
    consumer in the same era. *)
Lemma open_rw_leaves_region_valid_witness :
  let h := Scenario.host_rw Scenario.era_A (100, 0) (1700000000, 0) in
  let log := fst (byztime_open_rw h zero_timedata) in
  let td' := apply_stores zero_timedata log in
  load_magic (td_magic td') = expected_magic
  /\ load_era (td_era td') = Scenario.era_A
  /\ index_valid td' = true
  /\ td_mutex td' = true.
Proof.
  intros h log td'.
  pose proof (open_rw_leaves_region_valid
                h zero_timedata Scenario.era_A log
                (mk_ctx 3 4 default_drift_ppb 0 0 zerostamp zerostamp
                        false false)
                eq_refl eq_refl eq_refl eq_refl eq_refl eq_refl
                ltac:(vm_compute; reflexivity))
    as (Hm & He & Hi & Hx & _).
  repeat split; assumption.
Defined.

(** ** Reboot and steady state *)

Lemma not_first_time td :
  load_magic (td_magic td) = expected_magic -> index_valid td = true ->
  needs_first_time_init td = false.
Proof.
  intros Hm Hi. unfold needs_first_time_init, index_valid in *.
  apply bytes_eqb_eq in Hm. rewrite Hm. cbn [negb orb].
  apply andb_true_iff in Hi as [H1 H2].
  apply Z.leb_le in H1. apply Z.ltb_lt in H2.
  apply orb_false_iff. rewrite Z.ltb_ge, Z.leb_gt. lia.
Qed.

(** X11: [byztime_open_rw] on a region with a valid magic and index
    whose era is not the current one (a reboot): the stores are
    entry 0, the index 0, the era words and the mutex, in that order;
    entry 0 has offset = real time + stored real_offset - local time,
    the unknown error and as_of = local time; the magic and the stored
    real_offset are untouched. *)
Theorem open_rw_after_reboot h td era log ctx :
  length (td_magic td) = 3%nat ->
  length (td_era td) = 4%nat ->
  length (td_entries td) = Z.to_nat NUM_ENTRIES ->
  rw_clock_era h = Ok era ->
  length era = Z.to_nat BYZTIME_ERA_LEN ->
  load_magic (td_magic td) = expected_magic ->
  index_valid td = true ->
  load_era (td_era td) <> era ->
  clock_int64 (rw_monotonic_raw h) = true ->
  clock_int64 (rw_realtime h) = true ->
  Int64.in_range (seconds (td_real_offset td)) = true ->
  byztime_open_rw h td = (log, Ok ctx) ->
  exists lt rt off,
    byztime_get_local_time (rw_monotonic_raw h) = Ok lt
    /\ byztime_get_real_time (rw_realtime h) = Ok rt
    /\ stamp_value off
       = stamp_value rt + stamp_value (td_real_offset td) - stamp_value lt
    /\ nanoseconds_valid off = true
    /\ log = [St_entry 0 (mk_entry off unknown_error lt); St_i 0]
             ++ store_era era ++ [St_mutex_init]
    /\ entry_at (apply_stores td log) 0 = mk_entry off unknown_error lt
    /\ td_i (apply_stores td log) = 0
    /\ td_magic (apply_stores td log) = td_magic td
    /\ td_real_offset (apply_stores td log) = td_real_offset td.
Proof.
  intros Lm Le Ln Hera Lera Hmagic Hidx Hmis Cl Cr Rro H.
  apply open_rw_ok_inv in H as (era' & log0 & Hera' & -> & _ & _ & Hinit).
  rewrite Hera in Hera'. injection Hera' as <-.
  rewrite (not_first_time td Hmagic Hidx) in Hinit.
  apply bytes_eqb_neq in Hmis. rewrite Hmis in Hinit. cbn [negb] in Hinit.
  apply reboot_init_ok in Hinit
    as (lt & rt & g & off & Hl & Hr & Hadd & Hsub & ->).
  exists lt, rt, off.
  assert (Rlt : Int64.in_range (seconds lt) = true)
    by exact (read_clock_int64 _ _ Cl Hl).
  assert (Rrt : Int64.in_range (seconds rt) = true)
    by exact (read_clock_int64 _ _ Cr Hr).
  apply add_exact in Hadd as (Vg & _ & Rg & _); [|assumption..].
  apply sub_exact in Hsub as (Voff & Noff & _); [|assumption..].
  split; [assumption|]. split; [assumption|]. split; [lia|].
  split; [assumption|].
  split; [cbn [app]; rewrite <- ?app_assoc; reflexivity|].
  assert (Htd : apply_stores td
                  (([St_entry 0 (mk_entry off unknown_error lt); St_i 0]
                      ++ store_era era) ++ [St_mutex_init])
                = mk_timedata (td_magic td) 0 (bytes_words era)
                              (td_real_offset td) true
                              (<[0%nat := mk_entry off unknown_error lt]>
                                 (td_entries td))).
  { rewrite <- (apply_init_stores td [] (mk_entry off unknown_error lt)
                  era false) by (auto; fail).
    f_equal. all: cbn [app]; rewrite <- ?app_assoc; reflexivity. }
  rewrite Htd. unfold entry_at.
  cbn [td_entries td_i td_magic td_real_offset Z.to_nat].
  rewrite entry_at_insert_0 by assumption. auto.
Qed.

(** The published region of era A opened after a reboot into era B, at
    local time 300 s and real time 1700000200 s. *)
Lemma open_rw_after_reboot_witness :
  let h := Scenario.host_rw Scenario.era_B (300, 0) (1700000200, 0) in
  let log := fst (byztime_open_rw h Scenario.td_published) in
  exists off,
    stamp_value off = 1700000200 * billion + 0 - 300 * billion
    /\ entry_at (apply_stores Scenario.td_published log) 0
       = mk_entry off unknown_error (mk_stamp 300 0).
Proof.
  intros h log.
  destruct (open_rw_after_reboot
              h Scenario.td_published Scenario.era_B log
              (mk_ctx 3 4 default_drift_ppb 0 0 zerostamp zerostamp
                      false false)
              eq_refl eq_refl eq_refl eq_refl eq_refl
              ltac:(vm_compute; reflexivity)
              ltac:(vm_compute; reflexivity)
              ltac:(vm_compute; discriminate)
              eq_refl eq_refl
              ltac:(vm_compute; reflexivity)
              ltac:(vm_compute; reflexivity))
    as (lt & rt & off & Hlt & Hrt & Hv & _ & _ & He & _).
  injection Hlt as <-. injection Hrt as <-.
  exists off. split; [exact Hv | exact He].
Defined.

(** X12: [byztime_open_rw] on a region with a valid magic, a valid
    index and the current era writes nothing but the mutex
    initialization, and only when it gets that far: magic, index, era,
    real_offset and all entries are as before. *)
Theorem open_rw_steady_state_keeps_data h td log r :
  load_magic (td_magic td) = expected_magic ->
  index_valid td = true ->
  (forall era, rw_clock_era h = Ok era -> load_era (td_era td) = era) ->
  byztime_open_rw h td = (log, r) ->
  let td' := apply_stores td log in
  (log = [] \/ log = [St_mutex_init])
  /\ td_magic td' = td_magic td /\ td_i td' = td_i td
  /\ td_era td' = td_era td /\ td_real_offset td' = td_real_offset td
  /\ td_entries td' = td_entries td
  /\ (forall ctx, r = Ok ctx -> log = [St_mutex_init] /\ td_mutex td' = true).
Proof.
  intros Hmagic Hidx Hera H td'.
  assert (Hlog : (log = [] /\ forall ctx, r <> Ok ctx)
                 \/ log = [St_mutex_init]).
  { revert H. unfold byztime_open_rw.
    destruct (negb (rw_init_sigbus_key h =? 0));
      [intros [= <- <-]; left; split; [reflexivity|discriminate]|].
    destruct (rw_clock_era h) as [era|e];
      [|intros [= <- <-]; left; split; [reflexivity|discriminate]].
    destruct (rw_malloc h) as [ctx0|];
      [|intros [= <- <-]; left; split; [reflexivity|discriminate]].
    destruct (rw_open h) as [fd_|e];
      [|intros [= <- <-]; left; split; [reflexivity|discriminate]].
    destruct (rw_acquire_lock h) as [lfd|e];
      [|intros [= <- <-]; left; split; [reflexivity|discriminate]].
    destruct (rw_fallocate h <? 0);
      [intros [= <- <-]; left; split; [reflexivity|discriminate]|].
    destruct (negb (rw_mmap h =? 0));
      [intros [= <- <-]; left; split; [reflexivity|discriminate]|].
    pose proof (not_first_time td Hmagic Hidx) as Hnf.
    unfold needs_first_time_init in Hnf. rewrite Hnf.
    specialize (Hera era eq_refl). apply bytes_eqb_eq in Hera.
    rewrite Hera. cbn [negb].
    destruct (negb (rw_mutexattr_init h =? 0));
      [intros [= <- <-]; left; split; [reflexivity|discriminate]|].
    destruct (negb (rw_mutexattr_setpshared h =? 0));
      [intros [= <- <-]; left; split; [reflexivity|discriminate]|].
    destruct (negb (rw_mutex_init h =? 0));
      [intros [= <- <-]; left; split; [reflexivity|discriminate]|].
    intros [= <- <-]. right. reflexivity. }
  subst td'. destruct Hlog as [[-> Hr] | ->].
  - split; [auto|]. do 5 (split; [reflexivity|]).
    intros ctx Hc. exfalso. eapply Hr. exact Hc.
  - split; [auto|]. do 5 (split; [reflexivity|]). auto.
Qed.

(** The published region of era A opened again in era A. *)
Lemma open_rw_steady_state_keeps_data_witness :
  let h := Scenario.host_rw Scenario.era_A (300, 0) (1700000200, 0) in
  let log := fst (byztime_open_rw h Scenario.td_published) in
  td_entries (apply_stores Scenario.td_published log)
  = td_entries Scenario.td_published
  /\ td_i (apply_stores Scenario.td_published log)
     = td_i Scenario.td_published.
Proof.
  intros h log.
  pose proof (open_rw_steady_state_keeps_data
                h Scenario.td_published log
                (snd (byztime_open_rw h Scenario.td_published))
                ltac:(vm_compute; reflexivity)
                ltac:(vm_compute; reflexivity)
                ltac:(intros era [= <-]; vm_compute; reflexivity)
                ltac:(vm_compute; reflexivity))
    as (_ & _ & Hi & _ & _ & He & _).
  split; [exact He | exact Hi].
Defined.

(** ** The ring of entries *)

(** One [byztime_set_offset] on a region with a valid index. *)
Lemma set_offset_step h td e :
  0 <= td_i td < NUM_ENTRIES ->
  let i' := (td_i td + 1) mod NUM_ENTRIES in
  exists r,
    byztime_set_offset h td (offset e) (error e) (Some (as_of e))
    = Some (if so_mutex_lock h =? 0 then [St_entry i' e; St_i i'] else [], r).
Proof.
  intros Hi i'. destruct (next_index_mod _ Hi) as [Hnext Hi'].
  fold i' in Hnext, Hi'. unfold byztime_set_offset.
  destruct e as [off err asof]. cbn [offset error as_of].
  destruct (so_mutex_lock h =? 0); cbn [negb]; [|eauto].
  rewrite Hnext.
  replace ((i' <? 0) || (NUM_ENTRIES <=? i')) with false.
  2:{ symmetry. apply orb_false_iff. rewrite Z.ltb_ge, Z.leb_gt. lia. }
  destruct (negb (so_mutex_unlock h =? 0)); eauto.
Qed.

Lemma ring_keeps_slot calls : forall td i0 d,
  0 <= i0 < NUM_ENTRIES -> 0 <= d ->
  d + Z.of_nat (length calls) <= NUM_ENTRIES - 1 ->
  td_i td = (i0 + d) mod NUM_ENTRIES ->
  length (td_entries td) = Z.to_nat NUM_ENTRIES ->
  exists td' d',
    set_offsets td calls = Some td'
    /\ entry_at td' i0 = entry_at td i0
    /\ length (td_entries td') = Z.to_nat NUM_ENTRIES
    /\ d <= d' <= d + Z.of_nat (length calls)
    /\ td_i td' = (i0 + d') mod NUM_ENTRIES
    /\ (Forall (fun c => so_mutex_lock (fst c) = 0) calls ->
        d' = d + Z.of_nat (length calls))
    /\ td_magic td' = td_magic td /\ td_era td' = td_era td
    /\ td_real_offset td' = td_real_offset td /\ td_mutex td' = td_mutex td.
Proof.
  induction calls as [|[h e] calls IH]; intros td i0 d Hi0 Hd Hn Hidx Hlen.
  - exists td, d. cbn [set_offsets length]. repeat split; try lia; auto.
  - cbn [set_offsets length] in *.
    assert (Hi : 0 <= td_i td < NUM_ENTRIES).
    { rewrite Hidx. apply Z.mod_pos_bound. reflexivity. }
    destruct (set_offset_step h td e Hi) as (r & ->).
    assert (Hnext : (td_i td + 1) mod NUM_ENTRIES
                    = (i0 + (d + 1)) mod NUM_ENTRIES).
    { rewrite Hidx. unfold NUM_ENTRIES. clear.
      Z.to_euclidean_division_equations. lia. }
    destruct (Z.eqb_spec (so_mutex_lock h) 0) as [Hl|Hl].
    + set (td1 := apply_stores td _).
      destruct (IH td1 i0 (d + 1)) as (td' & d' & Hrun & Hslot & Hlen' & Hd'
                                       & Hidx' & Hall & Hm & He & Hro & Hmu);
        try assumption; try lia.
      { subst td1. cbn [apply_stores fold_left apply_store td_entries].
        rewrite length_insert. exact Hlen. }
      exists td', d'. split; [exact Hrun|]. split.
      { rewrite Hslot. subst td1. unfold entry_at.
        cbn [apply_stores fold_left apply_store td_entries].
        apply list_lookup_total_insert_ne.
        assert (Hne : (td_i td + 1) mod NUM_ENTRIES <> i0).
        { rewrite Hnext. unfold NUM_ENTRIES in *. clear -Hi0 Hd Hn.
          Z.to_euclidean_division_equations. lia. }
        assert (0 <= (td_i td + 1) mod NUM_ENTRIES)
          by (apply Z.mod_pos_bound; reflexivity).
        lia. }
      split; [exact Hlen'|]. split; [lia|]. split; [exact Hidx'|].
      split.
      { intros Hf. apply Forall_cons in Hf as [_ Hf]. rewrite (Hall Hf). lia. }
      rewrite Hm, He, Hro, Hmu. subst td1. repeat split.
    + cbn [apply_stores fold_left].
      destruct (IH td i0 d) as (td' & d' & Hrun & Hslot & Hlen' & Hd'
                                & Hidx' & Hall & Hrest);
        try assumption; try lia.
      exists td', d'. split; [exact Hrun|]. split; [exact Hslot|].
      split; [exact Hlen'|]. split; [lia|]. split; [exact Hidx'|].
      split; [|exact Hrest].
      intros Hf. apply Forall_cons in Hf as [Hf _]. cbn [fst] in Hf.
      contradiction.
Qed.

(** X13: Up to 61 calls of [byztime_set_offset] in a row never abort
    and never write the slot the index pointed at before the first of
    them, so a reader that is copying that slot is not overwritten
    until the 62nd publication; the index stays in [0, 62), advances
    by one per call that got the mutex, and magic, era, real_offset
    and mutex are untouched. *)
Theorem reader_slot_survives_61_publications td calls :
  0 <= td_i td < NUM_ENTRIES ->
  length (td_entries td) = Z.to_nat NUM_ENTRIES ->
  Z.of_nat (length calls) <= NUM_ENTRIES - 1 ->
  exists td',
    set_offsets td calls = Some td'
    /\ entry_at td' (td_i td) = entry_at td (td_i td)
    /\ index_valid td' = true
    /\ (Forall (fun c => so_mutex_lock (fst c) = 0) calls ->
        td_i td' = (td_i td + Z.of_nat (length calls)) mod NUM_ENTRIES)
    /\ td_magic td' = td_magic td /\ td_era td' = td_era td
    /\ td_real_offset td' = td_real_offset td /\ td_mutex td' = td_mutex td.
Proof.
  intros Hi Hlen Hn.
  destruct (ring_keeps_slot calls td (td_i td) 0)
    as (td' & d' & Hrun & Hslot & _ & Hd' & Hidx' & Hall & Hrest);
    try assumption; try lia.
  { rewrite Z.add_0_r, Z.mod_small by assumption. reflexivity. }
  exists td'. split; [exact Hrun|]. split; [exact Hslot|]. split.
  { unfold index_valid. rewrite Hidx'. apply andb_true_iff.
    rewrite Z.leb_le, Z.ltb_lt. apply Z.mod_pos_bound. reflexivity. }
  split; [|exact Hrest].
  intros Hf. rewrite Hidx', (Hall Hf). reflexivity.
Qed.

(** Two publications after the first open: the entry of index 0 that a
    reader may be copying is untouched and the index is 2. *)
Lemma reader_slot_survives_61_publications_witness :
  let e1 := mk_entry (mk_stamp 5 0) (mk_stamp 0 1000000) (mk_stamp 200 0) in
  let e2 := mk_entry (mk_stamp 6 0) (mk_stamp 0 1000000) (mk_stamp 300 0) in
  let calls := [(Scenario.host_set, e1); (Scenario.host_set, e2)] in
  exists td',
    set_offsets Scenario.td_fresh calls = Some td'
    /\ entry_at td' 0 = entry_at Scenario.td_fresh 0
    /\ td_i td' = 2.
Proof.
  intros e1 e2 calls.
  destruct (reader_slot_survives_61_publications
              Scenario.td_fresh calls
              ltac:(vm_compute; split; [discriminate | reflexivity])
              ltac:(vm_compute; reflexivity)
              ltac:(vm_compute; discriminate))
    as (td' & Hs & He & _ & Hi & _).
  exists td'. split; [exact Hs|]. split; [exact He|].
  apply Hi. repeat constructor.
Defined.

(** X14: After a [byztime_set_offset] that got the mutex,
    [byztime_get_offset_raw] returns the entry published and
    [byztime_get_offset_quick] its offset, neither validating
    anything; the consumer's [get_and_validate_entry], absent a
    registration error and a bus error, returns the same entry exactly
    when its three nanoseconds fields are in [0, 10^9), and fails
    with EPROTO otherwise. *)
Theorem raw_accessors_return_publication h td off err asof :
  0 <= td_i td < NUM_ENTRIES ->
  length (td_entries td) = Z.to_nat NUM_ENTRIES ->
  so_mutex_lock h = 0 ->
  exists log r,
    byztime_set_offset h td off err (Some asof) = Some (log, r)
    /\ byztime_get_offset_raw (apply_stores td log) = mk_entry off err asof
    /\ byztime_get_offset_quick (apply_stores td log) = off
    /\ forall rh, get_and_validate_entry rh (apply_stores td log)
                  = if negb (setspecific_ret rh =? 0)
                    then Err (setspecific_ret rh)
                    else if page_fault rh then Err EPROTO
                    else if entry_valid (mk_entry off err asof)
                    then Ok (mk_entry off err asof)
                    else Err EPROTO.
Proof.
  intros Hi Hlen Hl.
  destruct (set_offset_step h td (mk_entry off err asof) Hi) as (r & Hs).
  cbn [offset error as_of] in Hs. rewrite Hl in Hs. cbn [Z.eqb] in Hs.
  eexists _, r. split; [exact Hs|].
  destruct (next_index_mod _ Hi) as [_ Hi'].
  set (i' := (td_i td + 1) mod NUM_ENTRIES) in *.
  assert (Hat : entry_at (apply_stores td [St_entry i' (mk_entry off err asof);
                                           St_i i']) i'
                = mk_entry off err asof).
  { unfold entry_at. cbn [apply_stores fold_left apply_store td_entries].
    apply list_lookup_total_insert_eq. rewrite Hlen. lia. }
  unfold byztime_get_offset_raw, byztime_get_offset_quick.
  cbn [apply_stores fold_left apply_store td_i] in *.
  split; [exact Hat|]. split; [rewrite Hat; reflexivity|].
  intros rh. rewrite read_unfold. unfold index_valid. cbn [td_i].
  rewrite Hat.
  replace ((0 <=? i') && (i' <? NUM_ENTRIES)) with true.
  2:{ symmetry. apply andb_true_iff. rewrite Z.leb_le, Z.ltb_lt. exact Hi'. }
  cbn [negb]. destruct (entry_valid _); reflexivity.
Qed.

(** A publication after the first open, seen through the raw
    accessors. *)
Lemma raw_accessors_return_publication_witness :
  exists log r,
    byztime_set_offset Scenario.host_set Scenario.td_fresh
                       (mk_stamp 5 0) (mk_stamp 0 1000000)
                       (Some (mk_stamp 200 0))
    = Some (log, r)
    /\ byztime_get_offset_raw (apply_stores Scenario.td_fresh log)
       = mk_entry (mk_stamp 5 0) (mk_stamp 0 1000000) (mk_stamp 200 0)
    /\ byztime_get_offset_quick (apply_stores Scenario.td_fresh log)
       = mk_stamp 5 0.
Proof.
  destruct (raw_accessors_return_publication
              Scenario.host_set Scenario.td_fresh
              (mk_stamp 5 0) (mk_stamp 0 1000000) (mk_stamp 200 0)
              ltac:(vm_compute; split; [discriminate | reflexivity])
              ltac:(vm_compute; reflexivity)
              eq_refl)
    as (log & r & Hs & Hr & Hq & _).
  exists log, r. split; [exact Hs|]. split; [exact Hr | exact Hq].
Defined.

(** ** The real offset *)

(** X15: [byztime_update_real_offset] leaves the context that
    [byztime_get_global_time] leaves, writes at most the real_offset
    field and nothing if the mutex cannot be taken, and when it
    returns 0 it has stored global time estimate - real time,
    normalized and without overflow. *)
Theorem update_real_offset_stores_difference h td ctx ctx' log r :
  clock_int64 (up_realtime h) = true ->
  byztime_update_real_offset h td ctx = (ctx', (log, r)) ->
  let td' := apply_stores td log in
  ctx' = fst (byztime_get_global_time (up_read h) td ctx)
  /\ (log = [] \/ exists d, log = [St_real_offset d])
  /\ (up_mutex_lock h <> 0 -> log = [])
  /\ (td_magic td' = td_magic td /\ td_i td' = td_i td
      /\ td_era td' = td_era td /\ td_entries td' = td_entries td
      /\ td_mutex td' = td_mutex td)
  /\ (r = Returned tt ->
      exists rdg rt,
        byztime_get_global_time (up_read h) td ctx = (ctx', Returned rdg)
        /\ byztime_get_real_time (up_realtime h) = Ok rt
        /\ log = [St_real_offset (td_real_offset td')]
        /\ stamp_value (td_real_offset td')
           = stamp_value (r_est rdg) - stamp_value rt
        /\ nanoseconds_valid (td_real_offset td') = true
        /\ Int64.in_range (seconds (td_real_offset td')) = true).
Proof.
  intros Cr H td'. subst td'. unfold byztime_update_real_offset in H.
  destruct (byztime_get_global_time (up_read h) td ctx) as [c rg] eqn:Eg.
  cbn [fst].
  destruct rg as [rdg|e|].
  2:{ injection H as <- <- <-. repeat split; auto; discriminate. }
  2:{ injection H as <- <- <-. repeat split; auto; discriminate. }
  destruct (byztime_get_real_time (up_realtime h)) as [rt|e] eqn:Er.
  2:{ injection H as <- <- <-. repeat split; auto; discriminate. }
  destruct (Z.eqb_spec (up_mutex_lock h) 0) as [Hl|Hl]; cbn [negb] in H.
  2:{ injection H as <- <- <-. repeat split; auto; discriminate. }
  destruct (byztime_stamp_sub (r_est rdg) rt) as [d o] eqn:Es.
  destruct o.
  { injection H as <- <- <-. repeat split; eauto; try contradiction;
      discriminate. }
  assert (Rest : Int64.in_range (seconds (r_est rdg)) = true).
  { apply get_global_time_returned in Eg as (rdo & _ & _ & _ & Hes & _).
    destruct (add_result_wf (r_est rdo) (r_local_time rdo)) as [W _].
    rewrite Hes in W. exact W. }
  assert (Rrt : Int64.in_range (seconds rt) = true)
    by exact (read_clock_int64 _ _ Cr Er).
  apply sub_exact in Es as (Vd & Nd & Rd & _); [|assumption..].
  destruct (negb (up_mutex_unlock h =? 0)).
  { injection H as <- <- <-. repeat split; eauto; try contradiction;
      discriminate. }
  injection H as <- <- <-.
  split; [reflexivity|]. split; [eauto|]. split; [contradiction|].
  split; [repeat split|].
  intros _. exists rdg, rt. cbn [apply_stores fold_left apply_store
                                  td_real_offset].
  repeat split; assumption.
Qed.

(** The global time 206 s of the published entry against a real time
    of 1700000300 s. *)
Lemma update_real_offset_stores_difference_witness :
  let h := mk_update_host (Scenario.host_read (201, 0))
                          (Ok (1700000300, 0)) 0 0 in
  let log := [St_real_offset (mk_stamp (-1700000094) 0)] in
  byztime_update_real_offset h Scenario.td_published Scenario.consumer_ctx
  = (Scenario.consumer_ctx, (log, Returned tt))
  /\ td_entries (apply_stores Scenario.td_published log)
     = td_entries Scenario.td_published.
Proof.
  intros h log.
  assert (H : byztime_update_real_offset h Scenario.td_published
                Scenario.consumer_ctx
              = (Scenario.consumer_ctx, (log, Returned tt)))
    by (vm_compute; reflexivity).
  split; [exact H|].
  pose proof (update_real_offset_stores_difference
                h Scenario.td_published Scenario.consumer_ctx
                Scenario.consumer_ctx log (Returned tt) eq_refl H)
    as (_ & _ & _ & (_ & _ & _ & He & _) & _).
  exact He.
Defined.

(** ** The order of the stores of an open *)







(** ** Sums, differences and order *)

Lemma normalized_is_value s :
  nanoseconds_valid s = true ->
  s = mk_stamp (stamp_value s / billion) (stamp_value s mod billion).
Proof.
  intros Hv. destruct s as [q r]. unfold nanoseconds_valid in Hv.
  cbn [nanoseconds] in Hv. apply andb_true_iff in Hv.
  rewrite Z.leb_le, Z.ltb_lt in Hv.
  destruct (value_normalized q r Hv) as [-> ->]. reflexivity.
Qed.

(** X17: [byztime_stamp_add] on stamps with 64-bit seconds: the
    result's nanoseconds are in [0, 10^9); when no overflow is
    reported the result is the sum of the nanosecond counts and its
    seconds fit in 64 bits; overflow is reported exactly when the
    whole seconds of an argument, their sum, or the whole seconds of
    the sum do not fit in 64 bits; and the function is commutative. *)
Theorem add_sum_and_flag a b :
  Int64.in_range (seconds a) = true -> Int64.in_range (seconds b) = true ->
  let va := stamp_value a in
  let vb := stamp_value b in
  let s := fst (byztime_stamp_add a b) in
  let overflowed := snd (byztime_stamp_add a b) in
  0 <= nanoseconds s < billion
  /\ (overflowed = false ->
      stamp_value s = va + vb /\ Int64.in_range (seconds s) = true)
  /\ (overflowed = false <->
      Int64.in_range (va / billion) = true
      /\ Int64.in_range (vb / billion) = true
      /\ Int64.in_range (va / billion + vb / billion) = true
      /\ Int64.in_range ((va + vb) / billion) = true)
  /\ byztime_stamp_add a b = byztime_stamp_add b a.
Proof.
  intros Ha Hb va vb s o.
  assert (E : byztime_stamp_add a b = (s, o))
    by (subst s o; destruct (byztime_stamp_add a b); reflexivity).
  split.
  { subst s. rewrite (add_value a b Ha Hb). cbn [fst nanoseconds].
    apply Z.mod_pos_bound. reflexivity. }
  split.
  { intros Ho. rewrite Ho in E.
    destruct (add_exact a b s Ha Hb E) as (V & _ & R & _). auto. }
  split.
  { subst o. rewrite (add_value a b Ha Hb). cbn [snd]. fold va vb.
    rewrite negb_false_iff, !andb_true_iff. tauto. }
  rewrite (add_value a b Ha Hb), (add_value b a Hb Ha). fold va vb.
  rewrite (Z.add_comm vb va), (Z.add_comm (vb / billion)).
  rewrite (andb_comm (Int64.in_range (vb / billion))). reflexivity.
Qed.

(** 1.6 s + 2.7 s = 4.3 s, without overflow. *)
Lemma add_sum_and_flag_witness :
  let a := mk_stamp 1 600000000 in
  let b := mk_stamp 2 700000000 in
  snd (byztime_stamp_add a b) = false
  /\ stamp_value (fst (byztime_stamp_add a b))
     = stamp_value a + stamp_value b.
Proof.
  intros a b.
  pose proof (add_sum_and_flag a b eq_refl eq_refl) as (_ & Hv & _).
  split; [reflexivity | exact (proj1 (Hv eq_refl))].
Defined.

(** X18: [byztime_stamp_sub] on stamps with 64-bit seconds: the
    result's nanoseconds are in [0, 10^9); when no overflow is
    reported the result is the difference of the nanosecond counts;
    overflow is reported exactly when the whole seconds of an
    argument, their difference, or the whole seconds of the difference
    do not fit in 64 bits; and a stamp minus itself is zero, with the
    overflow flag of its normalization. *)
Theorem sub_difference_and_flag a b :
  Int64.in_range (seconds a) = true -> Int64.in_range (seconds b) = true ->
  let va := stamp_value a in
  let vb := stamp_value b in
  let d := fst (byztime_stamp_sub a b) in
  let overflowed := snd (byztime_stamp_sub a b) in
  0 <= nanoseconds d < billion
  /\ (overflowed = false ->
      stamp_value d = va - vb /\ Int64.in_range (seconds d) = true)
  /\ (overflowed = false <->
      Int64.in_range (va / billion) = true
      /\ Int64.in_range (vb / billion) = true
      /\ Int64.in_range (va / billion - vb / billion) = true
      /\ Int64.in_range ((va - vb) / billion) = true)
  /\ byztime_stamp_sub a a = (zerostamp, snd (byztime_stamp_normalize a)).
Proof.
  intros Ha Hb va vb d o.
  assert (E : byztime_stamp_sub a b = (d, o))
    by (subst d o; destruct (byztime_stamp_sub a b); reflexivity).
  split.
  { subst d. rewrite (sub_value a b Ha Hb). cbn [fst nanoseconds].
    apply Z.mod_pos_bound. reflexivity. }
  split.
  { intros Ho. rewrite Ho in E.
    destruct (sub_exact a b d Ha Hb E) as (V & _ & R & _). auto. }
  split.
  { subst o. rewrite (sub_value a b Ha Hb). cbn [snd]. fold va vb.
    rewrite negb_false_iff, !andb_true_iff. tauto. }
  rewrite (sub_value a a Ha Ha), (normalize_value a Ha). fold va.
  cbn [snd]. rewrite !Z.sub_diag. cbn [Z.div Z.modulo Z.div_eucl].
  change (Int64.wrap 0) with 0. change (Int64.in_range 0) with true.
  rewrite andb_diag, !andb_true_r. reflexivity.
Qed.

(** 1.6 s - 2.7 s = -1.1 s, held as (-2, 900000000). *)
Lemma sub_difference_and_flag_witness :
  let a := mk_stamp 1 600000000 in
  let b := mk_stamp 2 700000000 in
  nanoseconds (fst (byztime_stamp_sub a b)) = 900000000
  /\ stamp_value (fst (byztime_stamp_sub a b))
     = stamp_value a - stamp_value b.
Proof.
  intros a b.
  pose proof (sub_difference_and_flag a b eq_refl eq_refl) as (_ & Hv & _).
  split; [reflexivity | exact (proj1 (Hv eq_refl))].
Defined.

(** X19: [byztime_stamp_cmp] on stamps that normalize without
    overflow, normalized or not, is the order of their nanosecond
    counts: -1, 0, 1 for less, equal, greater; and swapping the
    arguments negates the result. *)
Theorem cmp_orders_by_value a b :
  Int64.in_range (seconds a) = true -> Int64.in_range (seconds b) = true ->
  snd (byztime_stamp_normalize a) = false ->
  snd (byztime_stamp_normalize b) = false ->
  (byztime_stamp_cmp a b = -1 <-> stamp_value a < stamp_value b)
  /\ (byztime_stamp_cmp a b = 0 <-> stamp_value a = stamp_value b)
  /\ (byztime_stamp_cmp a b = 1 <-> stamp_value a > stamp_value b)
  /\ byztime_stamp_cmp b a = - byztime_stamp_cmp a b.
Proof.
  intros Ha Hb Na Nb.
  rewrite (normalize_value a Ha) in Na. rewrite (normalize_value b Hb) in Nb.
  cbn [snd] in Na, Nb. apply negb_false_iff in Na, Nb.
  rewrite (cmp_value a b Ha Hb Na Nb), (cmp_value b a Hb Ha Nb Na).
  rewrite (Z.compare_antisym (stamp_value a) (stamp_value b)).
  destruct (Z.compare_spec (stamp_value a) (stamp_value b));
    cbn [CompOpp]; repeat split; intros; try lia; try discriminate.
Qed.

(** (1, -1) is less than (0, 1000000000): 999999999 ns against
    1000000000 ns. *)
Lemma cmp_orders_by_value_witness :
  byztime_stamp_cmp (mk_stamp 1 (-1)) (mk_stamp 0 1000000000) = -1
  /\ byztime_stamp_cmp (mk_stamp 0 1000000000) (mk_stamp 1 (-1)) = 1.
Proof.
  pose proof (cmp_orders_by_value (mk_stamp 1 (-1)) (mk_stamp 0 1000000000)
                eq_refl eq_refl eq_refl eq_refl) as (Hlt & _ & _ & Hanti).
  assert (H : byztime_stamp_cmp (mk_stamp 1 (-1)) (mk_stamp 0 1000000000)
              = -1) by (apply Hlt; reflexivity).
  split; [exact H|]. rewrite Hanti, H. reflexivity.
Defined.

(** X20: Subtracting what was added: if [byztime_stamp_add a b] gives
    [s] without overflow, [byztime_stamp_sub s b] gives back [a],
    normalized. It can still report an overflow, exactly when the
    seconds of [s] minus the whole seconds of [b] do not fit in 64
    bits, and never does when [b] is not negative. *)
Theorem add_then_sub a b s :
  Int64.in_range (seconds a) = true -> Int64.in_range (seconds b) = true ->
  byztime_stamp_add a b = (s, false) ->
  fst (byztime_stamp_sub s b) = fst (byztime_stamp_normalize a)
  /\ stamp_value (fst (byztime_stamp_sub s b)) = stamp_value a
  /\ (snd (byztime_stamp_sub s b) = false <->
      Int64.in_range (seconds s - stamp_value b / billion) = true)
  /\ (0 <= stamp_value b ->
      byztime_stamp_sub s b = (fst (byztime_stamp_normalize a), false)).
Proof.
  intros Ha Hb E.
  destruct (add_exact a b s Ha Hb E) as (V & Vs & Rs & Ra & Rb).
  rewrite (sub_value s b Rs Hb), (normalize_value a Ha). cbn [fst snd].
  pose proof (normalized_div s Vs) as Ds.
  replace (stamp_value s - stamp_value b) with (stamp_value a) by lia.
  rewrite Ds, Rs, Ra, Rb. cbn [andb]. rewrite andb_true_r.
  rewrite !wrap_in_range by assumption.
  split; [reflexivity|]. split.
  { unfold stamp_value at 1. cbn [seconds nanoseconds].
    symmetry. apply div_mod_value. }
  split; [apply negb_false_iff|].
  intros Hnn. f_equal. apply negb_false_iff.
  apply in_range_iff. apply in_range_iff in Rs, Ra.
  assert (0 <= stamp_value b / billion)
    by (apply Z.div_pos; [assumption|reflexivity]).
  assert (stamp_value a / billion <= seconds s - stamp_value b / billion).
  { rewrite <- Ds, V. clear. unfold billion.
    Z.to_euclidean_division_equations. lia. }
  lia.
Qed.

(** Adding (-1, 1) to the last stamp but one nanosecond does not
    overflow; taking it off again gives the stamp back and reports an
    overflow. *)
Lemma add_then_sub_witness :
  let a := mk_stamp Int64.INT64_MAX 999999999 in
  let b := mk_stamp (-1) 1 in
  let s := mk_stamp Int64.INT64_MAX 0 in
  byztime_stamp_add a b = (s, false)
  /\ fst (byztime_stamp_sub s b) = fst (byztime_stamp_normalize a)
  /\ snd (byztime_stamp_sub s b) = true.
Proof.
  intros a b s.
  assert (H : byztime_stamp_add a b = (s, false)) by (vm_compute; reflexivity).
  split; [exact H|].
  pose proof (add_then_sub a b s eq_refl eq_refl H) as (Hf & _).
  split; [exact Hf | vm_compute; reflexivity].
Defined.

(** X21: [byztime_stamp_scale] by a factor in [0, 10^9] ppb never
    fails an assertion, reports overflow only if the normalization of
    its argument overflowed, and returns the product of the normalized
    argument by ppb / 10^9 rounded to the nearest nanosecond, ties
    to the even nanosecond. *)
Theorem scale_down_rounds_to_nearest s ppb :
  Int64.in_range (seconds s) = true -> 0 <= ppb <= billion ->
  let n := fst (byztime_stamp_normalize s) in
  exists p,
    byztime_stamp_scale s ppb = Some (p, snd (byztime_stamp_normalize s))
    /\ 0 <= nanoseconds p < billion /\ Int64.in_range (seconds p) = true
    /\ -500000000 <= billion * stamp_value p - ppb * stamp_value n
       <= 500000000
    /\ (Z.abs (billion * stamp_value p - ppb * stamp_value n) = 500000000 ->
        Z.even (nanoseconds p) = true).
Proof.
  intros Hs Hp n.
  pose proof (normalize_valid s) as Hv.
  assert (Hr : Int64.in_range (seconds n) = true).
  { subst n. rewrite normalize_floor by assumption. apply wrap_is_in_range. }
  fold n in Hv. destruct n as [sec ns] eqn:En.
  cbn [seconds] in Hr.
  assert (Hn : 0 <= ns < billion).
  { unfold nanoseconds_valid in Hv. cbn [nanoseconds] in Hv.
    apply andb_true_iff in Hv. rewrite Z.leb_le, Z.ltb_lt in Hv. exact Hv. }
  destruct (downscale_value sec ns ppb Hr Hn Hp) as (p & D & Vp & Rp & B & T).
  exists p. split.
  - unfold byztime_stamp_scale.
    replace ((0 <=? ppb) && (ppb <=? billion)) with true
      by (symmetry; apply andb_true_iff; rewrite !Z.leb_le; exact Hp).
    revert D. unfold byztime_stamp_downscale.
    rewrite (normalize_in_place (mk_stamp sec ns)) by exact Hv.
    subst n. destruct (byztime_stamp_normalize s) as [n0 o0].
    cbn [fst snd] in *. subst n0.
    destruct (negb ((0 <=? ppb) && (ppb <=? billion))); [discriminate|].
    match goal with
    | |- context [byztime_stamp_normalize ?x] =>
        destruct (byztime_stamp_normalize x) as [pr o]
    end.
    destruct o; [discriminate|]. intros [= ->]. reflexivity.
  - split; [|auto].
    unfold nanoseconds_valid in Vp. apply andb_true_iff in Vp.
    rewrite Z.leb_le, Z.ltb_lt in Vp. exact Vp.
Qed.

(** Half of 3.500000001 s: the tie goes to the even 1.750000000 s. *)
Lemma scale_down_rounds_to_nearest_witness :
  exists p,
    byztime_stamp_scale (mk_stamp 3 500000001) 500000000 = Some (p, false)
    /\ 0 <= nanoseconds p < billion /\ Int64.in_range (seconds p) = true.
Proof.
  destruct (scale_down_rounds_to_nearest (mk_stamp 3 500000001) 500000000
              eq_refl ltac:(unfold billion; lia))
    as (p & Hs & Hn & Hr & _).
  exists p. split; [exact Hs|]. split; [exact Hn | exact Hr].
Defined.

(** ** Scaling up *)

Lemma round_residue_signed nsec residue :
  -1000000000 < residue < 1000000000 ->
  -9000000000000000000 <= nsec <= 9000000000000000000 ->
  exists d, round_residue nsec residue = nsec + d
            /\ -500000000 <= d * 1000000000 - residue <= 500000000
            /\ (Z.abs (d * 1000000000 - residue) = 500000000 ->
                (nsec + d) mod 2 = 0).
Proof.
  intros Hres Hn. unfold round_residue.
  change (Z.shiftr billion 1) with 500000000.
  change (- (500000000)) with (-500000000).
  rewrite land_1_mod.
  assert (Hw : Int64.wrap (nsec + 1) = nsec + 1).
  { apply wrap_in_range, in_range_iff. lia. }
  assert (Hw' : Int64.wrap (nsec - 1) = nsec + -1).
  { apply wrap_in_range, in_range_iff. lia. }
  rewrite Hw, Hw'.
  assert (Hpar : (nsec mod 2 = 0 /\ (nsec + 1) mod 2 = 1
                  /\ (nsec + -1) mod 2 = 1)
                 \/ (nsec mod 2 = 1 /\ (nsec + 1) mod 2 = 0
                     /\ (nsec + -1) mod 2 = 0))
    by (clear; Z.to_euclidean_division_equations; lia).
  destruct (Z.ltb_spec 500000000 residue) as [H1|H1];
    destruct (Z.eqb_spec residue 500000000) as [H2|H2];
    destruct (Z.ltb_spec residue (-500000000)) as [H4|H4];
    destruct (Z.eqb_spec residue (-500000000)) as [H5|H5];
    destruct (Z.eqb_spec (nsec mod 2) 0) as [H3|H3];
    cbn [andb orb negb]; try lia;
    first [ exists 0; split; [lia|]; split; [lia|]; intros ?;
            rewrite Z.add_0_r; lia
          | exists 1; split; [reflexivity|]; split; lia
          | exists (-1); split; [reflexivity|]; split; lia ].
Qed.

Lemma quot_rem_billion_signed z :
  -9223372036854775808 <= z <= 9223372036854775807 ->
  z = 1000000000 * (z `quot` 1000000000) + z `rem` 1000000000
  /\ -9223372036 <= z `quot` 1000000000 <= 9223372036
  /\ -999999999 <= z `rem` 1000000000 <= 999999999
  /\ (0 <= z -> 0 <= z `rem` 1000000000)
  /\ (z <= 0 -> z `rem` 1000000000 <= 0).
Proof. intros H. Z.to_euclidean_division_equations. lia. Qed.

Lemma mul_bound x y A B :
  - A <= x <= A -> - B <= y <= B -> - (A * B) <= x * y <= A * B.
Proof. intros Hx Hy. nia. Qed.

Lemma upscale_value s ppb :
  Int64.in_range (seconds s) = true -> Int64.in_range ppb = true ->
  ppb < 0 \/ billion < ppb ->
  exists p o,
    byztime_stamp_scale s ppb = Some (p, o)
    /\ 0 <= nanoseconds p < billion
    /\ (o = false ->
        Int64.in_range (seconds p) = true
        /\ -500000000 <= billion * stamp_value p - ppb * stamp_value s
           <= 500000000
        /\ (Z.abs (billion * stamp_value p - ppb * stamp_value s) = 500000000
            -> Z.even (nanoseconds p) = true)).
Proof.
  intros Hs Hp Hout. unfold byztime_stamp_scale.
  replace ((0 <=? ppb) && (ppb <=? billion)) with false.
  2:{ symmetry. apply andb_false_iff. rewrite !Z.leb_gt. lia. }
  rewrite (normalize_value s Hs).
  assert (HN : 0 <= stamp_value s mod billion < billion)
    by (apply Z.mod_pos_bound; reflexivity).
  pose proof (div_mod_value (stamp_value s)) as HV.
  pose proof (wrap_is_in_range (stamp_value s / billion)) as HS.
  assert (HSe : Int64.in_range (stamp_value s / billion) = true ->
                Int64.wrap (stamp_value s / billion) = stamp_value s / billion)
    by apply wrap_in_range.
  set (V := stamp_value s) in *.
  set (o0 := negb (Int64.in_range (V / billion))) in *.
  assert (Ho0 : o0 = false -> Int64.in_range (V / billion) = true)
    by (subst o0; apply negb_false_iff).
  set (S := Int64.wrap (V / billion)) in *.
  set (N := V mod billion) in *.
  clearbody o0 S N.
  cbv beta iota zeta. cbn [seconds nanoseconds].
  unfold Int64.mul_overflow, Int64.add_overflow.
  cbv beta iota zeta.
  apply in_range_iff in HS, Hp. unfold billion in *.
  destruct (quot_rem_billion_signed S HS) as (ES & Bg & Br & _ & _).
  destruct (quot_rem_billion_signed ppb Hp) as (EP & BP & Bnp & _ & _).
  set (g := S `quot` 1000000000) in *. set (r := S `rem` 1000000000) in *.
  set (P := ppb `quot` 1000000000) in *.
  set (np := ppb `rem` 1000000000) in *.
  clearbody g r P np.
  pose proof (mul_bound r P 999999999 9223372036 Br BP) as B1.
  pose proof (mul_bound g np 9223372036 999999999 Bg Bnp) as B2.
  pose proof (mul_bound r np 999999999 999999999 Br Bnp) as B3.
  pose proof (mul_bound N P 999999999 9223372036 ltac:(lia) BP) as B4.
  pose proof (mul_bound N np 999999999 999999999 ltac:(lia) Bnp) as B5.
  assert (Hid : ppb * (S * 1000000000 + N)
                = 1000000000 * ((g * P * 1000000000 + r * P + g * np)
                                * 1000000000 + N * P + r * np)
                  + N * np).
  { rewrite ES, EP. ring. }
  set (gP := g * P) in *. set (rP := r * P) in *. set (gnp := g * np) in *.
  set (rnp := r * np) in *. set (NP := N * P) in *. set (Nnp := N * np) in *.
  clearbody gP rP gnp rnp NP Nnp.
  rewrite (wrap_in_range rP), (wrap_in_range gnp), (wrap_in_range rnp),
    (wrap_in_range NP), (wrap_in_range Nnp) by (apply in_range_iff; lia).
  assert (HQ : Nnp = 1000000000 * (Nnp `quot` 1000000000)
                     + Nnp `rem` 1000000000
               /\ -1000000000 < Nnp `rem` 1000000000 < 1000000000
               /\ -1000000000 < Nnp `quot` 1000000000 < 1000000000).
  { Z.to_euclidean_division_equations. lia. }
  set (q := Nnp `quot` 1000000000) in *.
  set (res := Nnp `rem` 1000000000) in *.
  clearbody q res. destruct HQ as (HQ & Hres & Hq).
  rewrite (wrap_in_range (q + rnp)) by (apply in_range_iff; lia).
  set (secc := Int64.wrap (Int64.wrap (Int64.wrap (Int64.wrap gP * 1000000000) + rP) + gnp)).
  rewrite (normalize_floor (mk_stamp secc NP)) by apply wrap_is_in_range.
  cbv beta iota zeta. cbn [seconds nanoseconds]. fold billion.
  assert (HNP : NP = (NP / billion) * billion + NP mod billion
                /\ 0 <= NP mod billion < 1000000000).
  { unfold billion. Z.to_euclidean_division_equations. lia. }
  set (c := NP / billion) in *. set (m := NP mod billion) in *.
  clearbody c m. destruct HNP as (HNP & Hm).
  rewrite (wrap_in_range (m + (q + rnp))) by (apply in_range_iff; lia).
  destruct (round_residue_signed (m + (q + rnp)) res Hres ltac:(lia))
    as (d & -> & Hdiff & Heven).
  assert (Hd : -1 <= d <= 1) by lia.
  rewrite normalize_floor by apply wrap_is_in_range.
  cbv beta iota zeta. cbn [seconds nanoseconds].
  eexists. eexists. split; [reflexivity|]. cbn [seconds nanoseconds].
  split; [apply Z.mod_pos_bound; reflexivity|].
  intros Ho. rewrite !orb_false_iff, !negb_false_iff in Ho.
  destruct Ho as ((((((O0 & O1) & O2) & O3) & O4) & O5) & O6).
  unfold billion in *. subst secc.
  rewrite (wrap_in_range gP O1) in O2, O3, O4, O5, O6 |- *.
  rewrite (wrap_in_range _ O2) in O3, O4, O5, O6 |- *.
  rewrite (wrap_in_range _ O3) in O4, O5, O6 |- *.
  rewrite (wrap_in_range _ O4) in O5, O6 |- *.
  rewrite (wrap_in_range _ O5) in O6 |- *.
  rewrite (wrap_in_range _ O6).
  split; [exact O6|].
  specialize (HSe (Ho0 O0)). rewrite <- HSe in HV.
  assert (HF : (m + (q + rnp) + d)
               = ((m + (q + rnp) + d) / 1000000000) * 1000000000
                 + (m + (q + rnp) + d) mod 1000000000
               /\ ((m + (q + rnp) + d) mod 1000000000) mod 2
                  = (m + (q + rnp) + d) mod 2).
  { clear. Z.to_euclidean_division_equations. lia. }
  set (k := (m + (q + rnp) + d) / 1000000000) in *.
  set (w := (m + (q + rnp) + d) mod 1000000000) in *.
  clearbody k w. destruct HF as (HF & Hpar).
  unfold stamp_value, billion. cbn [seconds nanoseconds].
  match goal with
  | |- _ <= ?e <= _ /\ _ =>
      replace e with (d * 1000000000 - res); [|rewrite HV, Hid; lia]
  end.
  split; [exact Hdiff|].
  intros Habs. rewrite Zeven_mod. apply Z.eqb_eq. rewrite Hpar.
  apply Heven. exact Habs.
Qed.

(** X22: [byztime_stamp_scale] by a negative factor or one above
    10^9 ppb, on any stamp with 64-bit seconds, normalized or not:
    it returns, the result's nanoseconds are in [0, 10^9), and
    whenever no overflow is reported the result fits in 64-bit seconds
    and is the product by ppb / 10^9 rounded to the nearest
    nanosecond, ties to the even nanosecond. The five unchecked
    multiplications and the unchecked additions of the nanoseconds
    therefore never wrap unnoticed. *)
Theorem scale_up_rounds_to_nearest s ppb :
  Int64.in_range (seconds s) = true -> Int64.in_range ppb = true ->
  ppb < 0 \/ billion < ppb ->
  exists p o,
    byztime_stamp_scale s ppb = Some (p, o)
    /\ 0 <= nanoseconds p < billion
    /\ (o = false ->
        Int64.in_range (seconds p) = true
        /\ -500000000 <= billion * stamp_value p - ppb * stamp_value s
           <= 500000000
        /\ (Z.abs (billion * stamp_value p - ppb * stamp_value s) = 500000000
            -> Z.even (nanoseconds p) = true)).
Proof.
  intros Hs Hp Hout.
  destruct (upscale_value s ppb Hs Hp Hout) as (p & o & E & Hn & Hok).
  exists p, o. split; [exact E|]. split; [exact Hn | exact Hok].
Qed.

(** 3.500000001 s times -1.5. *)
Lemma scale_up_rounds_to_nearest_witness :
  exists p o,
    byztime_stamp_scale (mk_stamp 3 500000001) (-1500000000) = Some (p, o)
    /\ 0 <= nanoseconds p < billion.
Proof.
  destruct (scale_up_rounds_to_nearest (mk_stamp 3 500000001) (-1500000000)
              eq_refl eq_refl ltac:(left; lia))
    as (p & o & Hs & Hn & _).
  exists p, o. split; [exact Hs | exact Hn].
Defined.

(** ** Formatting *)

(** X23: The two integers [byztime_stamp_fmt] prints for a
    normalized stamp: the fraction is in [0, 10^9); for a stamp that
    is not negative they are its seconds and nanoseconds; for a
    negative stamp the seconds field is not positive and the fields
    give the magnitude (count = seconds field * 10^9 - fraction);
    the seconds field is 0, printed without a sign, for every stamp
    strictly between -1 s and 1 s, so that (-1, n) with n not 0 prints
    as the positive stamp (0, 10^9 - n) does. *)
Theorem fmt_fields_denote_magnitude s :
  Int64.in_range (seconds s) = true -> nanoseconds_valid s = true ->
  let sec_field := fst (byztime_stamp_fmt_args s) in
  let nsec_field := snd (byztime_stamp_fmt_args s) in
  0 <= nsec_field < billion
  /\ (0 <= stamp_value s ->
      0 <= sec_field /\ stamp_value s = sec_field * billion + nsec_field)
  /\ (stamp_value s < 0 ->
      sec_field <= 0 /\ stamp_value s = sec_field * billion - nsec_field)
  /\ (sec_field = 0 <-> - billion < stamp_value s < billion)
  /\ (seconds s = -1 -> nanoseconds s <> 0 ->
      byztime_stamp_fmt_args s
      = byztime_stamp_fmt_args (mk_stamp 0 (billion - nanoseconds s))).
Proof.
  intros Hs Hv sf nf. subst sf nf. unfold byztime_stamp_fmt_args.
  rewrite !normalize_in_place by assumption. cbn [fst].
  destruct s as [sec ns]. cbn [seconds nanoseconds] in *.
  unfold nanoseconds_valid in Hv. cbn [nanoseconds] in Hv.
  apply andb_true_iff in Hv. rewrite Z.leb_le, Z.ltb_lt in Hv.
  apply in_range_iff in Hs. unfold stamp_value. cbn [seconds nanoseconds].
  unfold billion in *.
  assert (Hw1 : sec < 0 -> Int64.wrap (sec + 1) = sec + 1)
    by (intros; apply wrap_in_range, in_range_iff; lia).
  assert (Hw2 : Int64.wrap (1000000000 - ns) = 1000000000 - ns)
    by (apply wrap_in_range, in_range_iff; lia).
  destruct (Z.leb_spec 0 sec) as [H0|H0]; cbn [orb fst snd].
  { split; [lia|]. split; [lia|]. split; [lia|]. split; [lia|]. lia. }
  destruct (Z.eqb_spec ns 0) as [H1|H1]; cbn [fst snd].
  { split; [lia|]. split; [lia|]. split; [lia|]. split; [lia|]. lia. }
  rewrite Hw1, Hw2 by assumption.
  split; [lia|]. split; [lia|]. split; [lia|]. split; [lia|].
  intros -> _.
  rewrite normalize_in_place.
  2:{ unfold nanoseconds_valid. cbn [nanoseconds]. apply andb_true_iff.
      rewrite Z.leb_le, Z.ltb_lt. unfold billion. lia. }
  reflexivity.
Qed.

(** -0.5 s, held as (-1, 500000000), is printed with the fields of
    +0.5 s. *)
Lemma fmt_fields_denote_magnitude_witness :
  byztime_stamp_fmt_args (mk_stamp (-1) 500000000)
  = byztime_stamp_fmt_args (mk_stamp 0 500000000).
Proof.
  pose proof (fmt_fields_denote_magnitude (mk_stamp (-1) 500000000)
                eq_refl eq_refl) as (_ & _ & _ & _ & H).
  exact (H eq_refl ltac:(discriminate)).
Defined.

(** ** From the provider to the consumer *)

Lemma set_offsets_app c1 : forall td c2,
  set_offsets td (c1 ++ c2)
  = match set_offsets td c1 with
    | Some t => set_offsets t c2
    | None => None
    end.
Proof.
  induction c1 as [|[h e] c1 IH]; intros td c2; cbn [set_offsets app].
  - reflexivity.
  - destruct (byztime_set_offset h td (offset e) (error e) (Some (as_of e)))
      as [[log r]|]; [apply IH | reflexivity].
Qed.

(** Any run of publications on a region with a valid index. *)
Lemma set_offsets_inv calls : forall td,
  0 <= td_i td < NUM_ENTRIES ->
  length (td_entries td) = Z.to_nat NUM_ENTRIES ->
  exists td',
    set_offsets td calls = Some td'
    /\ 0 <= td_i td' < NUM_ENTRIES
    /\ length (td_entries td') = Z.to_nat NUM_ENTRIES
    /\ td_magic td' = td_magic td /\ td_era td' = td_era td.
Proof.
  induction calls as [|[h e] calls IH]; intros td Hi Hlen.
  - exists td. cbn [set_offsets]. auto.
  - cbn [set_offsets].
    destruct (set_offset_step h td e Hi) as (r & ->).
    destruct (next_index_mod _ Hi) as [_ Hi'].
    destruct (so_mutex_lock h =? 0).
    + set (td1 := apply_stores td _).
      destruct (IH td1) as (td' & Hrun & Hi2 & Hl2 & Hm & He).
      { subst td1. cbn [apply_stores fold_left apply_store td_i]. exact Hi'. }
      { subst td1. cbn [apply_stores fold_left apply_store td_entries].
        rewrite length_insert. exact Hlen. }
      exists td'. rewrite Hm, He. subst td1. auto.
    + cbn [apply_stores fold_left]. apply IH; assumption.
Qed.

(** X24: Provider to consumer: after a successful
    [byztime_open_rw] and any run of [byztime_set_offset] calls, the
    last of which got the mutex, [byztime_open_ro] in the same era
    succeeds, and a [byztime_get_offset] of that consumer that returns
    gives as its estimate the offset published last, which is then a
    valid entry; if the entry published last is not valid, the read
    fails with EPROTO. *)
Theorem consumer_reads_last_publication h td era log ctx calls hs last :
  length (td_magic td) = 3%nat ->
  length (td_era td) = 4%nat ->
  length (td_entries td) = Z.to_nat NUM_ENTRIES ->
  rw_clock_era h = Ok era ->
  length era = Z.to_nat BYZTIME_ERA_LEN ->
  forallb is_byte era = true ->
  byztime_open_rw h td = (log, Ok ctx) ->
  so_mutex_lock hs = 0 ->
  exists td',
    set_offsets (apply_stores td log) (calls ++ [(hs, last)]) = Some td'
    /\ forall ctx0 fd_ st_size,
         sizeof_timedata <= st_size ->
         exists cctx,
           byztime_open_ro
             (mk_open_ro_host 0 (Ok era) (Some ctx0) (Ok fd_) (Ok st_size)
                              0 0 false) td'
           = Ok cctx
           /\ forall rh,
                (forall ctx' rd,
                   byztime_get_offset rh td' cctx = (ctx', Returned rd) ->
                   ctx' = cctx /\ r_est rd = offset last
                   /\ entry_valid last = true)
                /\ (entry_valid last = false -> setspecific_ret rh = 0 ->
                    byztime_get_offset rh td' cctx = (cctx, Failed EPROTO)).
Proof.
  intros Lm Le Ln Hera Lera Hbytes H Hlock.
  destruct (open_rw_ok_region h td era log ctx Lm Le Ln Hera Lera Hbytes H)
    as (Hm & He & Hi & _ & Hlen & _).
  set (td1 := apply_stores td log) in *.
  assert (Hi1 : 0 <= td_i td1 < NUM_ENTRIES).
  { unfold index_valid in Hi. apply andb_true_iff in Hi.
    rewrite Z.leb_le, Z.ltb_lt in Hi. exact Hi. }
  destruct (set_offsets_inv calls td1 Hi1 Hlen)
    as (td2 & Hrun & Hi2 & Hl2 & Hm2 & He2).
  rewrite set_offsets_app, Hrun. cbn [set_offsets].
  destruct (set_offset_step hs td2 last Hi2) as (r & ->).
  rewrite Hlock. cbn [Z.eqb].
  destruct (next_index_mod _ Hi2) as [_ Hi3].
  set (i3 := (td_i td2 + 1) mod NUM_ENTRIES) in *.
  set (td3 := apply_stores td2 _).
  assert (Htd3 : td_i td3 = i3 /\ td_magic td3 = td_magic td2
                 /\ td_era td3 = td_era td2
                 /\ entry_at td3 i3 = last) .
  { subst td3. cbn [apply_stores fold_left apply_store td_i td_magic td_era].
    repeat split. unfold entry_at. cbn [td_entries].
    apply list_lookup_total_insert_eq. lia. }
  destruct Htd3 as (Hidx3 & Hm3 & He3 & Hent3).
  exists td3. split; [reflexivity|].
  intros ctx0 fd_ st_size Hst. eexists. split.
  { apply open_ro_ok; [| |exact Hst].
    - rewrite Hm3, Hm2. exact Hm.
    - rewrite He3, He2. exact He. }
  intros rh. split.
  - intros ctx' rd Hget. unfold byztime_get_offset in Hget.
    apply read_returned_inv in Hget as (x2 & entry & _ & Hb & Hstep & _).
    destruct (Hstep eq_refl) as [-> Hest].
    apply entry_and_bounds_inv in Hb as (_ & _ & _ & Hread & _).
    apply read_ok_entry in Hread as [-> Hv].
    rewrite Hidx3, Hent3 in Hest, Hv. auto.
  - intros Hbad Hreg. unfold byztime_get_offset,
      byztime_get_local_time_and_offset.
    cbn [drift_ppb]. unfold default_drift_ppb, Int64.mul_overflow.
    change (negb (Int64.in_range (250000 * 2))) with false.
    cbv beta iota.
    unfold entry_and_bounds. rewrite read_unfold, Hreg. cbn [Z.eqb negb].
    destruct (page_fault rh); [reflexivity|].
    unfold index_valid. rewrite Hidx3.
    replace ((0 <=? i3) && (i3 <? NUM_ENTRIES)) with true
      by (symmetry; apply andb_true_iff; rewrite Z.leb_le, Z.ltb_lt; lia).
    cbn [negb]. rewrite Hent3, Hbad. reflexivity.
Qed.

(** The first open of a zeroed region, two publications, then a
    consumer: its read, if it returns, gives the offset 6 s published
    last. *)
Lemma consumer_reads_last_publication_witness :
  let h := Scenario.host_rw Scenario.era_A (100, 0) (1700000000, 0) in
  let log := fst (byztime_open_rw h zero_timedata) in
  let e1 := mk_entry (mk_stamp 5 0) (mk_stamp 0 1000000) (mk_stamp 200 0) in
  let e2 := mk_entry (mk_stamp 6 0) (mk_stamp 0 1000000) (mk_stamp 300 0) in
  exists td' cctx,
    set_offsets (apply_stores zero_timedata log)
                [(Scenario.host_set, e1); (Scenario.host_set, e2)]
    = Some td'
    /\ byztime_open_ro (Scenario.host_ro Scenario.era_A) td' = Ok cctx
    /\ forall ctx' rd,
         byztime_get_offset (Scenario.host_read (301, 0)) td' cctx
         = (ctx', Returned rd) ->
         r_est rd = mk_stamp 6 0.
Proof.
  intros h log e1 e2.
  destruct (consumer_reads_last_publication
              h zero_timedata Scenario.era_A log
              (mk_ctx 3 4 default_drift_ppb 0 0 zerostamp zerostamp
                      false false)
              [(Scenario.host_set, e1)] Scenario.host_set e2
              eq_refl eq_refl eq_refl eq_refl eq_refl eq_refl
              ltac:(vm_compute; reflexivity) eq_refl)
    as (td' & Hrun & Hro).
  destruct (Hro Scenario.blank_ctx 5 4096 ltac:(vm_compute; discriminate))
    as (cctx & Hopen & Hread).
  exists td', cctx. split; [exact Hrun|]. split; [exact Hopen|].
  intros ctx' rd Hget.
  exact (proj1 (proj2 (proj1 (Hread (Scenario.host_read (301, 0)))
                         ctx' rd Hget))).
Defined.

(** ** Bounds and age *)

(** Rounding to the nearest, ties to even, is monotone. *)
Lemma round_monotone k a1 a2 p1 p2 :
  0 <= k -> a1 <= a2 ->
  -500000000 <= 1000000000 * p1 - k * a1 <= 500000000 ->
  -500000000 <= 1000000000 * p2 - k * a2 <= 500000000 ->
  (Z.abs (1000000000 * p1 - k * a1) = 500000000 -> p1 mod 2 = 0) ->
  (Z.abs (1000000000 * p2 - k * a2) = 500000000 -> p2 mod 2 = 0) ->
  p1 <= p2.
Proof.
  intros Hk Ha H1 H2 T1 T2.
  assert (Hm : k * a1 <= k * a2) by (apply Z.mul_le_mono_nonneg_l; assumption).
  set (v1 := k * a1) in *. set (v2 := k * a2) in *. clearbody v1 v2.
  destruct (Z_le_gt_dec p1 p2) as [|Hgt]; [assumption|exfalso].
  assert (E1 : 1000000000 * p1 - v1 = 500000000) by lia.
  assert (E2 : 1000000000 * p2 - v2 = -500000000) by lia.
  assert (P1 : p1 mod 2 = 0) by (apply T1; lia).
  assert (P2 : p2 mod 2 = 0) by (apply T2; lia).
  assert (p1 = p2 + 1) by lia. subst p1. clear -P1 P2.
  Z.to_euclidean_division_equations. lia.
Qed.

Lemma value_parity s : stamp_value s mod 2 = nanoseconds s mod 2.
Proof.
  unfold stamp_value, billion. Z.to_euclidean_division_equations. lia.
Qed.

(** [byztime_stamp_scale] of a normalized stamp by any 64-bit factor,
    when it reports no overflow. *)
Lemma scale_normalized_value s ppb p :
  Int64.in_range (seconds s) = true -> nanoseconds_valid s = true ->
  Int64.in_range ppb = true ->
  byztime_stamp_scale s ppb = Some (p, false) ->
  Int64.in_range (seconds p) = true /\ nanoseconds_valid p = true
  /\ -500000000 <= 1000000000 * stamp_value p - ppb * stamp_value s
     <= 500000000
  /\ (Z.abs (1000000000 * stamp_value p - ppb * stamp_value s) = 500000000
      -> stamp_value p mod 2 = 0).
Proof.
  intros Hs Hv Hp E. rewrite value_parity.
  destruct (Z.leb_spec 0 ppb) as [H0|H0];
    [destruct (Z.leb_spec ppb billion) as [H1|H1]|].
  - destruct s as [sec ns]. cbn [seconds] in Hs.
    assert (Hn : 0 <= ns < billion).
    { unfold nanoseconds_valid in Hv. cbn [nanoseconds] in Hv.
      apply andb_true_iff in Hv. rewrite Z.leb_le, Z.ltb_lt in Hv. exact Hv. }
    destruct (downscale_value sec ns ppb Hs Hn (conj H0 H1))
      as (q & D & Vq & Rq & B & T).
    unfold byztime_stamp_scale in E.
    replace ((0 <=? ppb) && (ppb <=? billion)) with true in E
      by (symmetry; apply andb_true_iff; rewrite !Z.leb_le; auto).
    rewrite D in E. injection E as <-.
    split; [exact Rq|]. split; [exact Vq|]. split; [exact B|].
    intros Ht. apply T in Ht. rewrite Zeven_mod in Ht.
    apply Z.eqb_eq in Ht. exact Ht.
  - destruct (upscale_value s ppb Hs Hp (or_intror H1))
      as (q & o & E' & Hn & Hok).
    rewrite E in E'. injection E' as <- <-.
    destruct (Hok eq_refl) as (Rq & B & T).
    split; [exact Rq|]. split.
    { unfold nanoseconds_valid. apply andb_true_iff.
      rewrite Z.leb_le, Z.ltb_lt. exact Hn. }
    split; [exact B|].
    intros Ht. apply T in Ht. rewrite Zeven_mod in Ht.
    apply Z.eqb_eq in Ht. exact Ht.
  - destruct (upscale_value s ppb Hs Hp (or_introl H0))
      as (q & o & E' & Hn & Hok).
    rewrite E in E'. injection E' as <- <-.
    destruct (Hok eq_refl) as (Rq & B & T).
    split; [exact Rq|]. split.
    { unfold nanoseconds_valid. apply andb_true_iff.
      rewrite Z.leb_le, Z.ltb_lt. exact Hn. }
    split; [exact B|].
    intros Ht. apply T in Ht. rewrite Zeven_mod in Ht.
    apply Z.eqb_eq in Ht. exact Ht.
Qed.

(** The bounds of a read that returned, as numbers. *)
Lemma bounds_value h td ctx ctx' rd :
  Int64.in_range (seconds (offset (entry_at td (td_i td)))) = true ->
  Int64.in_range (seconds (error (entry_at td (td_i td)))) = true ->
  Int64.in_range (seconds (as_of (entry_at td (td_i td)))) = true ->
  clock_int64 (monotonic_raw h) = true ->
  byztime_get_offset h td ctx = (ctx', Returned rd) ->
  let e := entry_at td (td_i td) in
  exists w,
    stamp_value (r_min rd) = stamp_value (offset e) - stamp_value (error e) - w
    /\ stamp_value (r_max rd)
       = stamp_value (offset e) + stamp_value (error e) + w
    /\ Int64.in_range (2 * drift_ppb ctx) = true
    /\ -500000000
       <= 1000000000 * w
          - 2 * drift_ppb ctx
            * (stamp_value (r_local_time rd) - stamp_value (as_of e))
       <= 500000000
    /\ (Z.abs (1000000000 * w
               - 2 * drift_ppb ctx
                 * (stamp_value (r_local_time rd) - stamp_value (as_of e)))
        = 500000000 -> w mod 2 = 0).
Proof.
  intros Ro Re Ra Cl H e. unfold byztime_get_offset in H.
  apply read_returned_inv in H as (x2 & entry & Hx2 & Hb & _).
  apply entry_and_bounds_inv in Hb
    as (age & sa & en & Hread & Hlt & Hage & Hsa & Hen & Hmn & Hmx).
  apply read_ok_entry in Hread as [-> Hv]. fold e in Hage, Hen, Hmn, Hmx.
  unfold Int64.mul_overflow in Hx2. injection Hx2 as Hx2 Hov.
  apply negb_false_iff in Hov. rewrite wrap_in_range in Hx2 by exact Hov.
  subst x2.
  pose proof (read_clock_int64 _ _ Cl Hlt) as Rl.
  apply sub_exact in Hage as (Vage & Nage & Rage & _); [|assumption..].
  apply scale_normalized_value in Hsa as (Rsa & Nsa & Bsa & Tsa);
    [|assumption..].
  apply add_exact in Hen as (Ven & Nen & Ren & _); [|assumption..].
  apply sub_exact in Hmn as (Vmn & _); [|assumption..].
  apply add_exact in Hmx as (Vmx & _); [|assumption..].
  exists (stamp_value sa).
  rewrite Vage in Bsa, Tsa.
  replace (2 * drift_ppb ctx) with (drift_ppb ctx * 2) by lia.
  split; [lia|]. split; [lia|]. split; [exact Hov|].
  split; [exact Bsa | exact Tsa].
Qed.

(** X25: While the provider publishes nothing new, the interval
    [min, max] only grows: of two returning reads of the same entry
    with the same drift, not negative, the one at the later local time
    has the lower or equal min and the higher or equal max (the
    rounding of [byztime_stamp_scale] is monotone). *)
Theorem bounds_widen_with_age h1 h2 td c1 c2 c1' c2' rd1 rd2 :
  Int64.in_range (seconds (offset (entry_at td (td_i td)))) = true ->
  Int64.in_range (seconds (error (entry_at td (td_i td)))) = true ->
  Int64.in_range (seconds (as_of (entry_at td (td_i td)))) = true ->
  clock_int64 (monotonic_raw h1) = true ->
  clock_int64 (monotonic_raw h2) = true ->
  0 <= drift_ppb c1 -> drift_ppb c2 = drift_ppb c1 ->
  byztime_get_offset h1 td c1 = (c1', Returned rd1) ->
  byztime_get_offset h2 td c2 = (c2', Returned rd2) ->
  stamp_value (r_local_time rd1) <= stamp_value (r_local_time rd2) ->
  stamp_value (r_min rd2) <= stamp_value (r_min rd1)
  /\ stamp_value (r_max rd1) <= stamp_value (r_max rd2).
Proof.
  intros Ro Re Ra Cl1 Cl2 Hd Hd2 H1 H2 Hlt.
  destruct (bounds_value h1 td c1 c1' rd1 Ro Re Ra Cl1 H1)
    as (w1 & Mn1 & Mx1 & _ & B1 & T1).
  destruct (bounds_value h2 td c2 c2' rd2 Ro Re Ra Cl2 H2)
    as (w2 & Mn2 & Mx2 & _ & B2 & T2).
  rewrite Hd2 in B2, T2.
  assert (Hw : w1 <= w2).
  { apply (round_monotone (2 * drift_ppb c1)
             (stamp_value (r_local_time rd1)
              - stamp_value (as_of (entry_at td (td_i td))))
             (stamp_value (r_local_time rd2)
              - stamp_value (as_of (entry_at td (td_i td)))));
      try assumption; lia. }
  lia.
Qed.

(** The entry published at 200 s read at 201 s and again at 301 s: the
    bounds go from 5 s -/+ 1.5 ms to 5 s -/+ 51.5 ms. *)
Lemma bounds_widen_with_age_witness :
  let rd1 := mk_reading (mk_stamp 201 0) (mk_stamp 4 998500000)
                        (mk_stamp 5 0) (mk_stamp 5 1500000) in
  let rd2 := mk_reading (mk_stamp 301 0) (mk_stamp 4 948500000)
                        (mk_stamp 5 0) (mk_stamp 5 51500000) in
  byztime_get_offset (Scenario.host_read (201, 0)) Scenario.td_published
                     Scenario.consumer_ctx
  = (Scenario.consumer_ctx, Returned rd1)
  /\ byztime_get_offset (Scenario.host_read (301, 0)) Scenario.td_published
                        Scenario.consumer_ctx
     = (Scenario.consumer_ctx, Returned rd2)
  /\ stamp_value (r_min rd2) <= stamp_value (r_min rd1)
  /\ stamp_value (r_max rd1) <= stamp_value (r_max rd2).
Proof.
  intros rd1 rd2.
  assert (H1 : byztime_get_offset (Scenario.host_read (201, 0))
                 Scenario.td_published Scenario.consumer_ctx
               = (Scenario.consumer_ctx, Returned rd1))
    by (vm_compute; reflexivity).
  assert (H2 : byztime_get_offset (Scenario.host_read (301, 0))
                 Scenario.td_published Scenario.consumer_ctx
               = (Scenario.consumer_ctx, Returned rd2))
    by (vm_compute; reflexivity).
  split; [exact H1|]. split; [exact H2|].
  exact (bounds_widen_with_age
           (Scenario.host_read (201, 0)) (Scenario.host_read (301, 0))
           Scenario.td_published Scenario.consumer_ctx Scenario.consumer_ctx
           Scenario.consumer_ctx Scenario.consumer_ctx rd1 rd2
           eq_refl eq_refl eq_refl eq_refl eq_refl
           ltac:(vm_compute; discriminate) eq_refl H1 H2
           ltac:(vm_compute; discriminate)).
Defined.

(** ** The estimate, the clocks and the read-only open *)

(** X26: In step mode, with a drift that is not negative, an entry
    whose error is not negative and whose as_of is not after the local
    time read: min <= offset - error, offset + error <= max, and
    min <= est <= max. *)
Theorem estimate_within_bounds h td ctx ctx' rd :
  Int64.in_range (seconds (offset (entry_at td (td_i td)))) = true ->
  Int64.in_range (seconds (error (entry_at td (td_i td)))) = true ->
  Int64.in_range (seconds (as_of (entry_at td (td_i td)))) = true ->
  clock_int64 (monotonic_raw h) = true ->
  slew_mode ctx = false -> 0 <= drift_ppb ctx ->
  byztime_get_offset h td ctx = (ctx', Returned rd) ->
  let e := entry_at td (td_i td) in
  0 <= stamp_value (error e) ->
  stamp_value (as_of e) <= stamp_value (r_local_time rd) ->
  stamp_value (r_min rd) <= stamp_value (offset e) - stamp_value (error e)
  /\ stamp_value (offset e) + stamp_value (error e) <= stamp_value (r_max rd)
  /\ stamp_value (r_min rd) <= stamp_value (r_est rd) <= stamp_value (r_max rd).
Proof.
  intros Ro Re Ra Cl Hm Hd H e He Hage.
  destruct (bounds_value h td ctx ctx' rd Ro Re Ra Cl H)
    as (w & Mn & Mx & _ & B & _).
  fold e in Mn, Mx, B.
  unfold byztime_get_offset in H.
  apply read_returned_inv in H as (x2 & entry & _ & Hb & Hstep & _).
  destruct (Hstep Hm) as [_ Hest].
  apply entry_and_bounds_inv in Hb as (_ & _ & _ & Hread & _).
  apply read_ok_entry in Hread as [-> _]. fold e in Hest. rewrite Hest.
  assert (Hv : 0 <= 2 * drift_ppb ctx
                    * (stamp_value (r_local_time rd) - stamp_value (as_of e)))
    by (apply Z.mul_nonneg_nonneg; lia).
  assert (Hw : 0 <= w) by lia.
  lia.
Qed.

(** The same read at 201 s: the estimate 5 s lies between the bounds. *)
Lemma estimate_within_bounds_witness :
  let rd := mk_reading (mk_stamp 201 0) (mk_stamp 4 998500000)
                       (mk_stamp 5 0) (mk_stamp 5 1500000) in
  stamp_value (r_min rd) <= stamp_value (r_est rd) <= stamp_value (r_max rd).
Proof.
  intros rd.
  exact (proj2 (proj2
    (estimate_within_bounds
       (Scenario.host_read (201, 0)) Scenario.td_published
       Scenario.consumer_ctx Scenario.consumer_ctx rd
       eq_refl eq_refl eq_refl eq_refl eq_refl
       ltac:(vm_compute; discriminate)
       ltac:(vm_compute; reflexivity)
       ltac:(vm_compute; discriminate)
       ltac:(vm_compute; discriminate)))).
Defined.

(** X27: [byztime_get_local_time] and [byztime_get_real_time]
    treat a [clock_gettime] result alike: an error is passed on; a
    timespec with nanoseconds in [0, 10^9) is returned as it is; any
    other one either fails with EOVERFLOW or is returned normalized,
    with 64-bit seconds and the same number of nanoseconds. *)
Theorem clock_reading_is_normalized c :
  clock_int64 c = true ->
  (forall e, c = Err e -> byztime_get_local_time c = Err e)
  /\ (forall tv_sec tv_nsec, c = Ok (tv_sec, tv_nsec) ->
        (0 <= tv_nsec < billion ->
         byztime_get_local_time c = Ok (mk_stamp tv_sec tv_nsec))
        /\ (byztime_get_local_time c = Err EOVERFLOW
            \/ exists t, byztime_get_local_time c = Ok t
                 /\ nanoseconds_valid t = true
                 /\ Int64.in_range (seconds t) = true
                 /\ stamp_value t = tv_sec * billion + tv_nsec))
  /\ byztime_get_real_time c = byztime_get_local_time c.
Proof.
  intros Hc. unfold byztime_get_real_time, byztime_get_local_time.
  split; [intros e ->; reflexivity|].
  split; [|reflexivity].
  intros tv_sec tv_nsec ->. cbn [clock_int64] in Hc. split.
  - intros Hn. unfold read_clock. rewrite normalize_in_place; [reflexivity|].
    unfold nanoseconds_valid. cbn [nanoseconds]. apply andb_true_iff.
    rewrite Z.leb_le, Z.ltb_lt. exact Hn.
  - unfold read_clock.
    rewrite (normalize_value (mk_stamp tv_sec tv_nsec) Hc).
    destruct (Int64.in_range (stamp_value (mk_stamp tv_sec tv_nsec) / billion))
      eqn:Hr; cbn [negb]; [right|left; reflexivity].
    eexists. split; [reflexivity|]. rewrite wrap_in_range by exact Hr.
    split.
    { unfold nanoseconds_valid. cbn [nanoseconds]. apply andb_true_iff.
      rewrite Z.leb_le, Z.ltb_lt. apply Z.mod_pos_bound. reflexivity. }
    split; [exact Hr|].
    unfold stamp_value at 1. cbn [seconds nanoseconds].
    symmetry. apply div_mod_value.
Qed.

(** A reading of 100 s and 5 ns is returned as it is. *)
Lemma clock_reading_is_normalized_witness :
  byztime_get_local_time (Ok (100, 5)) = Ok (mk_stamp 100 5)
  /\ byztime_get_real_time (Ok (100, 5)) = Ok (mk_stamp 100 5).
Proof.
  pose proof (clock_reading_is_normalized (Ok (100, 5)) eq_refl)
    as (_ & Hok & Hreal).
  pose proof (proj1 (Hok 100 5 eq_refl) ltac:(unfold billion; lia)) as Hl.
  split; [exact Hl|]. rewrite Hreal. exact Hl.
Defined.

(** X28: [byztime_open_ro] looks at the magic and the era words of
    the region and at nothing else (not at the index, the entries or
    the mutex); when it succeeds the region has the magic, its era is
    the current one, the file is at least as large as the region, and
    the context has no lock descriptor, the default drift and step
    mode. *)
Theorem open_ro_checks_magic_and_era_only h td td2 :
  td_magic td2 = td_magic td -> td_era td2 = td_era td ->
  byztime_open_ro h td2 = byztime_open_ro h td
  /\ forall ctx,
       byztime_open_ro h td = Ok ctx ->
       load_magic (td_magic td) = expected_magic
       /\ ro_clock_era h = Ok (load_era (td_era td))
       /\ (exists st_size, ro_fstat h = Ok st_size
                           /\ sizeof_timedata <= st_size)
       /\ lock_fd ctx = -1 /\ drift_ppb ctx = default_drift_ppb
       /\ slew_mode ctx = false.
Proof.
  intros Hm He. split.
  { unfold byztime_open_ro. rewrite Hm, He. reflexivity. }
  intros ctx. unfold byztime_open_ro.
  destruct (negb (ro_init_sigbus_key h =? 0)); [discriminate|].
  destruct (ro_clock_era h) as [era|]; [|discriminate].
  destruct (ro_malloc h) as [ctx0|]; [|discriminate].
  destruct (ro_open h) as [fd_|]; [|discriminate].
  destruct (ro_fstat h) as [st|]; [|discriminate].
  destruct (Z.ltb_spec st sizeof_timedata); [discriminate|].
  destruct (negb (ro_mmap h =? 0)); [discriminate|].
  destruct (negb (ro_setspecific_ret h =? 0)); [discriminate|].
  destruct (ro_page_fault h); [discriminate|].
  destruct (bytes_eqb (load_magic (td_magic td)) expected_magic) eqn:Em;
    [|discriminate].
  destruct (bytes_eqb (load_era (td_era td)) era) eqn:Ee; [|discriminate].
  cbn [negb]. intros [= <-]. apply bytes_eqb_eq in Em, Ee.
  split; [exact Em|]. split; [rewrite Ee; reflexivity|].
  split; [exists st; auto|]. repeat split.
Qed.

(** The published region with its index overwritten by 99 still opens. *)
Lemma open_ro_checks_magic_and_era_only_witness :
  byztime_open_ro (Scenario.host_ro Scenario.era_A)
                  (apply_store Scenario.td_published (St_i 99))
  = byztime_open_ro (Scenario.host_ro Scenario.era_A) Scenario.td_published.
Proof.
  exact (proj1
    (open_ro_checks_magic_and_era_only
       (Scenario.host_ro Scenario.era_A) Scenario.td_published
       (apply_store Scenario.td_published (St_i 99)) eq_refl eq_refl)).
Defined.
